(** * whatsapp-command-center: question detection, answer scoring,
      question lifecycle and the AI classification queue

    A shallow embedding of [analyzer.js] (class [Analyzer]), of the question
    and answer-candidate operations of the [Store] class and of the
    [AIClassifier] class, with the properties of the written specification
    that concern them.

    Conventions of the embedding.
    - A JavaScript string is the list of its UTF-16 code units ([JS.jstr]).
      [toLowerCase] and case-insensitive regular-expression matching are
      modelled on the ASCII letters; every other code unit is its own
      lower-case and canonical form.
    - A JavaScript number is a rational ([Q]); the arithmetic is exact.
    - A regular-expression literal is a term of [Regex.re], written after the
      literal of the source; [RegExp.prototype.test] is [Regex.test].
    - Database tables are lists of rows; [Date.now()], [Math.random()] and
      the replies of the classification service are inputs of the functions
      that consult them. *)

From Stdlib Require Import List String Ascii Bool Arith ZArith NArith QArith Lia.
From Stdlib Require Import Qround Lqa.
Import ListNotations.


(* ================================================================== *)
(** ** JavaScript strings *)
(* ================================================================== *)

Module JS.

Definition char := N.
Definition jstr := list char.

(** The code units of an ASCII literal. *)
Definition js (s : string) : jstr := map N_of_ascii (list_ascii_of_string s).

Definition jstr_eqb (a b : jstr) : bool :=
  if list_eq_dec N.eq_dec a b then true else false.

Definition inRange (lo hi c : N) : bool := ((lo <=? c) && (c <=? hi))%N.

Definition isUpper (c : char) : bool := inRange 65 90 c.
Definition isLower (c : char) : bool := inRange 97 122 c.
Definition isDigit (c : char) : bool := inRange 48 57 c.

(** [\w] *)
Definition isWord (c : char) : bool :=
  isUpper c || isLower c || isDigit c || (c =? 95)%N.

(** [\s], which is also what [trim] removes: WhiteSpace and LineTerminator. *)
Definition isSpace (c : char) : bool :=
  (inRange 9 13 c || (c =? 32) || (c =? 160) || (c =? 5760)
   || inRange 8192 8202 c || (c =? 8232) || (c =? 8233) || (c =? 8239)
   || (c =? 8287) || (c =? 12288) || (c =? 65279))%N.

(** [.] without the [s] flag: anything but a line terminator. *)
Definition isDot (c : char) : bool :=
  negb ((c =? 10) || (c =? 13) || (c =? 8232) || (c =? 8233))%N.

Definition lowerChar (c : char) : char := if isUpper c then (c + 32)%N else c.
Definition upperChar (c : char) : char := if isLower c then (c - 32)%N else c.

Definition toLowerCase (s : jstr) : jstr := map lowerChar s.

Fixpoint dropSpaces (s : jstr) : jstr :=
  match s with
  | c :: s' => if isSpace c then dropSpaces s' else s
  | [] => []
  end.

Definition trim (s : jstr) : jstr := rev (dropSpaces (rev (dropSpaces s))).

Fixpoint startsWith (p s : jstr) : bool :=
  match p, s with
  | [], _ => true
  | a :: p', b :: s' => (a =? b)%N && startsWith p' s'
  | _ :: _, [] => false
  end.

(** [s.includes(sub)] *)
Fixpoint includes (s sub : jstr) : bool :=
  startsWith sub s ||
  match s with
  | [] => false
  | _ :: s' => includes s' sub
  end.

Definition endsWith (s suf : jstr) : bool := startsWith (rev suf) (rev s).

(** [s.substring(0, n)] *)
Definition substring0 (n : nat) (s : jstr) : jstr := firstn n s.

(** [s.split(/\s+/)]: the pieces between maximal runs of white space, with
    an empty piece before a leading and after a trailing run. *)
Fixpoint splitWsAux (cur : jstr) (insep : bool) (s : jstr) : list jstr :=
  match s with
  | [] => [rev cur]
  | c :: s' =>
      if isSpace c
      then if insep then splitWsAux [] true s'
           else rev cur :: splitWsAux [] true s'
      else splitWsAux (c :: cur) false s'
  end.

Definition splitWs (s : jstr) : list jstr := splitWsAux [] false s.

(** [s.split('@')[0]] *)
Fixpoint beforeAt (s : jstr) : jstr :=
  match s with
  | [] => []
  | c :: s' => if (c =? 64)%N then [] else c :: beforeAt s'
  end.

(** [s.replace(/\s+/g, ' ')] *)
Fixpoint collapseWs (insep : bool) (s : jstr) : jstr :=
  match s with
  | [] => []
  | c :: s' =>
      if isSpace c
      then if insep then collapseWs true s' else 32%N :: collapseWs true s'
      else c :: collapseWs false s'
  end.

(** Truthiness of an optional string: [null], [undefined] and [''] are
    falsy. *)
Definition truthyStr (o : option jstr) : bool :=
  match o with
  | Some (_ :: _) => true
  | _ => false
  end.

(** [o || d] for an optional string. *)
Definition orStr (o : option jstr) (d : jstr) : jstr :=
  match o with
  | Some (c :: s) => c :: s
  | _ => d
  end.

End JS.

(* ================================================================== *)
(** ** Regular expressions *)
(* ================================================================== *)

Module Regex.
Import JS.

(** The syntax the patterns of the source need. *)
Inductive re : Type :=
| Eps
| Chr (c : char)
| Cls (p : char -> bool)
| Seq (a b : re)
| Alt (a b : re)
| Star (a : re)
| Bow            (* \b *)
| Bol            (* ^ *)
| Eol.           (* $ *)

Definition chrMatch (ci : bool) (c x : char) : bool :=
  if ci then (upperChar c =? upperChar x)%N else (c =? x)%N.

Definition isWordAt (o : option char) : bool :=
  match o with
  | Some c => isWord c
  | None => false
  end.

(** Backtracking matcher in continuation-passing style: [m ci r prev s k]
    holds when [r] matches a prefix of [s] (the code unit before [s] being
    [prev]) and [k] accepts what follows.  [test] only asks whether some
    match exists, so the order in which alternatives are tried is
    immaterial.  An iteration of [Star] has to consume input. *)
Fixpoint m (ci : bool) (r : re) (prev : option char) (s : jstr)
         (k : option char -> jstr -> bool) {struct r} : bool :=
  match r with
  | Eps => k prev s
  | Chr c =>
      match s with
      | x :: s' => if chrMatch ci c x then k (Some x) s' else false
      | [] => false
      end
  | Cls p =>
      match s with
      | x :: s' => if p x then k (Some x) s' else false
      | [] => false
      end
  | Seq a b => m ci a prev s (fun p' s' => m ci b p' s' k)
  | Alt a b => m ci a prev s k || m ci b prev s k
  | Star a =>
      (fix loop (n : nat) (prev : option char) (s : jstr) {struct n} : bool :=
         k prev s ||
         match n with
         | O => false
         | S n' =>
             m ci a prev s
               (fun p' s' =>
                  if (List.length s' <? List.length s)%nat then loop n' p' s' else false)
         end) (List.length s) prev s
  | Bow => if xorb (isWordAt prev) (isWordAt (hd_error s)) then k prev s else false
  | Bol => match prev with None => k prev s | Some _ => false end
  | Eol => match s with [] => k prev s | _ :: _ => false end
  end.

Fixpoint searchFrom (ci : bool) (r : re) (prev : option char) (s : jstr) : bool :=
  m ci r prev s (fun _ _ => true) ||
  match s with
  | [] => false
  | x :: s' => searchFrom ci r (Some x) s'
  end.

(** A pattern with its [i] flag. *)
Record regexp : Type := RegExp { source : re; ignoreCase : bool }.

(** [pattern.test(text)] (no pattern of the source has the [g] or [y]
    flag, so [test] keeps no state). *)
Definition test (p : regexp) (s : jstr) : bool :=
  searchFrom (ignoreCase p) (source p) None s.

(** [for (const p of patterns) if (p.test(text)) ...] *)
Definition testAny (ps : list regexp) (s : jstr) : bool :=
  existsb (fun p => test p s) ps.

(** *** Pattern-building helpers *)

Definition litJ (s : jstr) : re := fold_right (fun c r => Seq (Chr c) r) Eps s.
Definition lit (s : string) : re := litJ (js s).

Definition none : re := Cls (fun _ => false).

Fixpoint alts (l : list re) : re :=
  match l with
  | [] => none
  | [r] => r
  | r :: l' => Alt r (alts l')
  end.

Fixpoint seqs (l : list re) : re :=
  match l with
  | [] => Eps
  | [r] => r
  | r :: l' => Seq r (seqs l')
  end.

(** [(w1|w2|...)] *)
Definition oneOf (ws : list string) : re := alts (map lit ws).

Definition opt (r : re) : re := Alt r Eps.
Definition plus (r : re) : re := Seq r (Star r).
Definition ch (s : string) : re := lit s.
Definition dotStar : re := Star (Cls isDot).
Definition ws0 : re := Star (Cls isSpace).
Definition word : re := Cls isWord.
Definition digit : re := Cls isDigit.
Definition nonSpace : re := Cls (fun c => negb (isSpace c)).

(** [/.../i] and [/.../] *)
Definition rxi (l : list re) : regexp := RegExp (seqs l) true.
Definition rx (l : list re) : regexp := RegExp (seqs l) false.

End Regex.

(* ================================================================== *)
(** ** analyzer.js: class Analyzer *)
(* ================================================================== *)

Module Analyzer.
Import JS Regex.
Local Open Scope string_scope.
Local Open Scope list_scope.

Inductive QuestionType : Type :=
| yes_no | info_seeking | action_request | opinion
| status_check | scheduling | approval | general.

Inductive Priority : Type := low | normal | high | urgent.

Definition QuestionType_eqb (a b : QuestionType) : bool :=
  match a, b with
  | yes_no, yes_no | info_seeking, info_seeking
  | action_request, action_request | opinion, opinion
  | status_check, status_check | scheduling, scheduling
  | approval, approval | general, general => true
  | _, _ => false
  end.

(** The fields of a chat message the analyzer reads.  [quotedBody] is
    [message._data?.quotedMsg?.body]; the elements of [mentionedIds] are the
    ids after [String(mentionId)]. *)
Record Message : Type := mkMessage {
  fromMe : bool;
  body : option jstr;
  mentionedIds : option (list jstr);
  hasQuotedMsg : bool;
  quotedBody : option jstr
}.

(** An analyzer instance: [trackName] and the patterns [setTrackName]
    derives from it. *)
Record Analyzer : Type := mkAnalyzer {
  trackName : option jstr;
  namePatterns : list regexp
}.

(** *** Mention detection *)

(** [new RegExp(`\\b${this._escapeRegex(s)}\\b`, 'i')]: [_escapeRegex]
    puts a backslash before each metacharacter, so the pattern matches [s]
    literally between two word boundaries. *)
Definition nameRegExp (s : jstr) : regexp := RegExp (seqs [Bow; litJ s; Bow]) true.

Definition _buildNamePatterns (fullName : option jstr) : list regexp :=
  match fullName with
  | None => []
  | Some name =>
      match name, trim name with
      | [], _ | _, [] => []
      | _, trimmed =>
          nameRegExp name ::
          map nameRegExp (filter (fun part => (3 <=? List.length part)%nat)
                                 (splitWs trimmed))
      end
  end.

Definition setTrackName (name : option jstr) : Analyzer :=
  mkAnalyzer name (_buildNamePatterns name).

Definition _matchesAnyNamePattern (this : Analyzer) (text : jstr) : bool :=
  testAny (namePatterns this) text.

(** The ids [myIds] collects from one of [myId], [myLid]. *)
Definition idForms (id : option jstr) : list jstr :=
  match id with
  | Some (c :: s) => [c :: s; beforeAt (c :: s)]
  | _ => []
  end.

Definition setHas (l : list jstr) (x : jstr) : bool := existsb (jstr_eqb x) l.

Definition isMention (this : Analyzer) (message : Message)
           (myId myLid : option jstr) : bool :=
  (match mentionedIds message with
   | Some (id0 :: ids) =>
       let myIds := idForms myId ++ idForms myLid in
       existsb (fun mentionStr =>
                  setHas myIds mentionStr || setHas myIds (beforeAt mentionStr))
               (id0 :: ids)
   | _ => false
   end)
  || _matchesAnyNamePattern this (orStr (body message) [])
  || (hasQuotedMsg message && truthyStr (quotedBody message)
      && _matchesAnyNamePattern this (orStr (quotedBody message) [])).

(** *** Question detection *)

Definition emoji (hi lo : N) : re := Seq (Chr hi) (Chr lo).
Definition joy : re := emoji 55357 56834.           (* U+1F602 *)
Definition rofl : re := emoji 55358 56611.          (* U+1F923 *)
Definition sweatSmile : re := emoji 55357 56837.    (* U+1F605 *)
Definition skull : re := emoji 55357 56448.         (* U+1F480 *)

Definition nonQuestionPatterns : list regexp :=
  [ rxi [Bol; alts ([lit "lol"; lit "haha"; joy; rofl; sweatSmile; skull]
                    ++ map lit ["omg"; "wow"; "nice"; "great"; "awesome";
                                "cool"; "ok"; "okay"]);
         ws0; opt (ch "?"); Eol];
    rxi [Bol; oneOf ["good morning"; "good afternoon"; "good evening"; "gm"; "ga"];
         ws0; opt (ch "?"); Eol];
    rxi [Bol; oneOf ["hi"; "hello"; "hey"; "sup"; "yo"]; ws0; opt (ch "?"); Eol];
    rxi [Bol; oneOf ["right"; "ikr"; "i know right"; "same"; "true"; "facts"];
         ws0; opt (ch "?"); Eol];
    rxi [Bol; oneOf ["done"; "sorted"; "fixed"; "handled"; "resolved"; "completed";
                     "finished"; "sent"; "updated"; "approved"; "confirmed";
                     "noted"; "acknowledged"; "received"; "accepted"; "rejected";
                     "denied"];
         ws0; opt (oneOf ["."; "!"]); Eol];
    rxi [Bol; oneOf ["what"; "wut"; "wat"]; ws0; Star (ch "?"); Eol];
    rxi [Bol; oneOf ["huh"; "hmm"; "eh"; "ah"; "oh"]; ws0; opt (ch "?"); Eol];
    rxi [Bol; oneOf ["really"; "seriously"; "for real"]; ws0; opt (ch "?"); Eol];
    rx [Bol; plus (ch "?"); Eol];
    rx [Bol; Star (Cls (fun c => negb (isWord c))); Eol] ].

Definition _isNonQuestion (text : jstr) : bool :=
  let lower := trim (toLowerCase text) in
  if (List.length lower <? 5)%nat then true
  else testAny nonQuestionPatterns lower.

Definition yesNoStarters : regexp :=
  rxi [Bol;
       oneOf ["is"; "are"; "was"; "were"; "do"; "does"; "did"; "can"; "could";
              "would"; "should"; "will"; "shall"; "have"; "has"; "had"; "may";
              "might"; "isn't"; "aren't"; "wasn't"; "weren't"; "don't";
              "doesn't"; "didn't"; "can't"; "couldn't"; "wouldn't";
              "shouldn't"; "won't"];
       Bow].

Definition approvalPatterns : list regexp :=
  [ rxi [Bow; oneOf ["approve"; "approved"; "approval"; "sign off"; "sign-off";
                     "greenlight"; "green light"]; Bow; dotStar; ch "?"];
    rxi [Bow; lit "can "; oneOf ["i"; "we"]; lit " ";
         oneOf ["go ahead"; "proceed"; "move forward"; "start"; "begin"]; Bow];
    rxi [Bow; oneOf ["is this"; "does this"; "are we"]; lit " ";
         oneOf ["ok"; "okay"; "good"; "ready"; "approved"]; Bow];
    rxi [Bow; lit "permission to"; Bow];
    rxi [Bow; oneOf ["ready to"; "good to"]; lit " ";
         oneOf ["go"; "send"; "ship"; "launch"; "submit"; "publish"]; Bow;
         dotStar; ch "?"] ].

Definition schedulePatterns : list regexp :=
  [ rxi [Bow; oneOf ["when"; "what time"; "what day"; "which day"]; Bow; dotStar;
         Bow; oneOf ["meeting"; "call"; "session"; "standup"; "sync";
                     "available"; "free"]; Bow];
    rxi [Bow; oneOf ["meeting"; "call"; "session"; "standup"; "sync"]; Bow;
         dotStar; Bow; oneOf ["when"; "what time"; "schedule"]; Bow];
    rxi [Bow; lit "schedule"; Bow];
    rxi [Bow; lit "what"; oneOf ["'s"; " is"]; lit " "; oneOf ["the"; "a good"];
         lit " time"; Bow];
    rxi [Bow; lit "when "; oneOf ["can"; "should"; "will"; "do"]; lit " ";
         oneOf ["we"; "you"; "i"; "they"]; Bow];
    rxi [Bow; oneOf ["availability"; "availabilities"; "available"]; ws0; ch "?"] ].

Definition statusPatterns : list regexp :=
  [ rxi [Bow; oneOf ["status"; "update"; "progress"; "eta"; "timeline"; "deadline"];
         Bow; dotStar; ch "?"];
    rxi [Bow; lit "what"; oneOf ["'s"; " is"]; lit " the ";
         oneOf ["status"; "update"; "progress"; "eta"; "plan"; "timeline"]; Bow];
    rxi [Bow; oneOf ["any"; "got"]; lit " "; oneOf ["update"; "news"; "progress"];
         Bow];
    rxi [Bow; lit "how"; oneOf ["'s"; " is"]; lit " ";
         oneOf ["it"; "that"; "the"; "this"]; lit " ";
         oneOf ["going"; "coming"; "progressing"]; Bow];
    rxi [Bow; lit "where "; oneOf ["are"; "do"]; lit " ";
         oneOf ["we"; "you"; "they"]; lit " stand"; Bow];
    rxi [Bow; lit "how far along"; Bow] ].

Definition actionPatterns : list regexp :=
  [ rxi [Bow; lit "can "; oneOf ["you"; "someone"; "anyone"; "anybody"; "we"]; Bow;
         dotStar; Bow;
         oneOf ["send"; "do"; "make"; "create"; "check"; "look"; "handle"; "fix";
                "update"; "share"; "forward"; "upload"; "post"; "add"; "remove";
                "set up"]; Bow];
    rxi [Bow; lit "could "; oneOf ["you"; "someone"; "anyone"]; Bow];
    rxi [Bow; lit "would "; oneOf ["you"; "someone"]; lit " ";
         oneOf ["mind"; "be able to"; "please"]; Bow];
    rxi [Bow; lit "please"; Bow; dotStar; Bow;
         oneOf ["send"; "do"; "make"; "create"; "check"; "look"; "handle"; "fix";
                "update"; "share"]; Bow];
    rxi [Bow; lit "need "; oneOf ["you"; "someone"; "help"]; lit " to"; Bow];
    rxi [Bow; oneOf ["who"; "which one of you"]; lit " ";
         oneOf ["can"; "will"; "is going to"]; Bow] ].

Definition opinionPatterns : list regexp :=
  [ rxi [Bow; lit "what do "; oneOf ["you"; "you all"; "y'all"; "everyone"; "we"];
         lit " think"; Bow];
    rxi [Bow; lit "thoughts"; ws0; ch "?"];
    rxi [Bow; lit "wdyt"; Bow];
    rxi [Bow; lit "opinion"; opt (lit "s"); ws0; ch "?"];
    rxi [Bow; lit "feedback"; ws0; ch "?"];
    rxi [Bow; lit "what"; oneOf ["'s"; " is"]; lit " your ";
         oneOf ["take"; "view"; "opinion"; "thought"]; Bow];
    rxi [Bow; oneOf ["good"; "bad"; "better"; "best"; "right"; "wrong"]; lit " ";
         oneOf ["idea"; "approach"; "way"; "option"; "choice"]; ws0; ch "?"];
    rxi [Bow; oneOf ["should"; "shall"]; lit " "; oneOf ["we"; "i"]; Bow];
    rxi [Bow; oneOf ["prefer"; "preference"]; Bow; dotStar; ch "?"] ].

Definition infoPatterns : list regexp :=
  [ rxi [Bol; oneOf ["who"; "what"; "where"; "when"; "why"; "how"; "which";
                     "whose"; "whom"]; Bow];
    rxi [Bow; oneOf ["who"; "what"; "where"; "when"; "why"; "how"; "which"]; Bow;
         dotStar; ch "?"; Eol] ].

Definition implicitPatterns : list regexp :=
  [ rxi [Bow; lit "any"; ws0; oneOf ["one"; "body"]; ws0;
         oneOf ["know"; "here"; "available"; "free"]; Bow];
    rxi [Bow; lit "any idea"; opt (lit "s"); Bow];
    rxi [Bow; lit "do you have"; Bow];
    rxi [Bow; lit "have you"; Bow];
    rxi [Bow; lit "is there"; Bow];
    rxi [Bow; lit "wondering "; oneOf ["if"; "about"; "whether"]; Bow];
    rxi [Bow; lit "curious "; oneOf ["if"; "about"; "whether"]; Bow] ].

(** [None] is the [null] of the source: not a question. *)
Definition _classifyQuestionType (text : jstr) : option QuestionType :=
  let lower := trim (toLowerCase text) in
  if test yesNoStarters lower
     && (includes lower (js "?") || (List.length lower <? 80)%nat)
  then Some yes_no
  else if testAny approvalPatterns lower then Some approval
  else if testAny schedulePatterns lower then Some scheduling
  else if testAny statusPatterns lower then Some status_check
  else if testAny actionPatterns lower then Some action_request
  else if testAny opinionPatterns lower then Some opinion
  else if testAny infoPatterns lower then Some info_seeking
  else if endsWith lower (js "?") then Some general
  else if testAny implicitPatterns lower then Some general
  else None.

Definition _isDirectedAtMe (this : Analyzer) (message : Message)
           (myId myLid : option jstr) (isGroupChat : bool) : bool :=
  if negb isGroupChat then true else isMention this message myId myLid.

Definition urgentWords : regexp :=
  rxi [Bow; oneOf ["urgent"; "asap"; "emergency"; "critical"; "immediately";
                   "right now"; "time sensitive"; "deadline today"; "eod";
                   "end of day"; "blocker"; "blocking"; "stuck"]; Bow].

Definition highWords : regexp :=
  rxi [Bow;
       alts (map lit ["important"; "priority"; "needed"; "required"; "must";
                      "deadline"]
             ++ [Seq (lit "by ")
                     (oneOf ["today"; "tomorrow"; "monday"; "tuesday";
                             "wednesday"; "thursday"; "friday"])]
             ++ map lit ["client"; "customer"; "partner"; "escalat"]);
       Bow].

Definition lowWords : regexp :=
  rxi [Bow; oneOf ["just wondering"; "just curious"; "no rush"; "whenever";
                   "no hurry"; "low priority"; "not urgent"; "fyi"; "btw"]; Bow].

(** The point score of [_classifyPriority], before it is mapped to a label. *)
Definition priorityScore (this : Analyzer) (text : jstr)
           (questionType : QuestionType) (message : Message)
           (myId myLid : option jstr) (isGroupChat : bool) : Q :=
  let lower := toLowerCase text in
  let score := 0%Q in
  let score := if test urgentWords lower then (score + 3)%Q else score in
  let score := if test highWords lower then (score + 2)%Q else score in
  let score := if _isDirectedAtMe this message myId myLid isGroupChat
               then (score + 1)%Q else score in
  let score := if QuestionType_eqb questionType approval
               then (score + 1)%Q else score in
  let score := if QuestionType_eqb questionType action_request
               then (score + (1 # 2))%Q else score in
  let score := if QuestionType_eqb questionType status_check
               then (score + (1 # 2))%Q else score in
  let score := if test lowWords lower then (score - 2)%Q else score in
  score.

Definition _classifyPriority (this : Analyzer) (text : jstr)
           (questionType : QuestionType) (message : Message)
           (myId myLid : option jstr) (isGroupChat : bool) : Priority :=
  let score := priorityScore this text questionType message myId myLid isGroupChat in
  if Qle_bool 3 score then urgent
  else if Qle_bool 2 score then high
  else if Qle_bool score (-1) then low
  else normal.

Definition stopWords : list jstr :=
  map js
    ["the"; "a"; "an"; "is"; "are"; "was"; "were"; "be"; "been"; "being";
     "have"; "has"; "had"; "do"; "does"; "did"; "will"; "would"; "could";
     "should"; "may"; "might"; "shall"; "can"; "need"; "must";
     "i"; "you"; "he"; "she"; "it"; "we"; "they"; "me"; "him"; "her"; "us"; "them";
     "my"; "your"; "his"; "its"; "our"; "their";
     "this"; "that"; "these"; "those"; "what"; "which"; "who"; "whom";
     "when"; "where"; "why"; "how";
     "and"; "but"; "or"; "nor"; "not"; "so"; "yet"; "both"; "either"; "neither";
     "in"; "on"; "at"; "to"; "for"; "of"; "with"; "by"; "from"; "about"; "into";
     "if"; "then"; "than"; "too"; "very"; "just"; "also"; "any"; "all"; "no"; "yes";
     "up"; "out"; "there"; "here"; "now"; "get"; "got"; "still"; "some";
     "please"; "thanks"; "thank"; "know"; "think"; "anyone"; "someone"; "anybody";
     "everybody"; "everyone"; "something"; "anything"; "nothing"].

(** [arr.filter((w, i, arr) => arr.indexOf(w) === i)]: the first occurrence
    of each element, in order. *)
Fixpoint dedupe (seen : list jstr) (l : list jstr) : list jstr :=
  match l with
  | [] => []
  | w :: l' => if setHas seen w then dedupe seen l'
               else w :: dedupe (w :: seen) l'
  end.

Definition _extractKeywords (text : jstr) : list jstr :=
  let cleaned := map (fun c => if isWord c || isSpace c then c else 32%N)
                     (toLowerCase text) in
  let words := filter (fun w => (2 <? List.length w)%nat && negb (setHas stopWords w))
                      (splitWs cleaned) in
  firstn 15 (dedupe [] words).

Record QuestionAnalysis : Type := mkQuestionAnalysis {
  isQuestion : bool;
  questionType : QuestionType;
  priority : Priority;
  keywords : list jstr;
  directedAtMe : bool
}.

Definition analyzeQuestion (this : Analyzer) (message : Message)
           (myId myLid : option jstr) (isGroupChat : bool)
  : option QuestionAnalysis :=
  let body := trim (orStr (body message) []) in
  if (List.length body <? 3)%nat then None
  else if _isNonQuestion body then None
  else match _classifyQuestionType body with
       | None => None
       | Some questionType =>
           let priority := _classifyPriority this body questionType message
                                             myId myLid isGroupChat in
           let keywords := _extractKeywords body in
           let directedAtMe := _isDirectedAtMe this message myId myLid isGroupChat in
           Some (mkQuestionAnalysis true questionType priority keywords directedAtMe)
       end.

(** *** Answer scoring *)

(** The fields of a question [scoreAnswer] reads.  [q_questionType] is
    [None] when the property [questionType] is absent or names no known
    type. *)
Record Question : Type := mkQuestion {
  q_body : option jstr;
  q_sender : option jstr;
  q_questionType : option QuestionType;
  q_keywords : option (list jstr)
}.

Record Candidate : Type := mkCandidate {
  c_body : option jstr;
  c_sender : option jstr
}.

(** The options object of [scoreAnswer], with the defaults of its
    destructuring pattern in [defaultOptions]. *)
Record Options : Type := mkOptions {
  isQuotedReply : bool;
  quotedMsgBody : option jstr;
  quotedMsgSender : option jstr;
  isFromMe : bool;
  timeDeltaMs : Z;
  recentMsgCount : Z
}.

Definition defaultOptions : Options := mkOptions false None None false 0 0.

(** [a === b] on optional strings. *)
Definition optStr_eqb (a b : option jstr) : bool :=
  match a, b with
  | Some x, Some y => jstr_eqb x y
  | None, None => true
  | _, _ => false
  end.

Inductive SignalName : Type :=
| quoted_reply | answer_pattern | keyword_overlap | addresses_asker
| time_proximity | conversation_proximity | self_reply | manager_reply
| substantive_reply | type_match.

(** The [detail] texts; a template literal keeps the values of its holes. *)
Inductive Detail : Type :=
| DText (s : string)
| DQuotedSimilarity (similarity : Q)   (* quoted reply (similarity: ${similarity.toFixed(2)}) *)
| DOverlap (percent : Z)               (* ${Math.round(overlap * 100)}% keyword overlap *)
| DMentions (sender : jstr)            (* mentions ${question.sender} *)
| DMessagesBetween (n : Z)             (* ${recentMsgCount} messages between *)
| DMatchesType (t : option QuestionType). (* matches ${question.questionType} answer pattern *)

Record Signal : Type := mkSignal { score : Q; detail : Detail }.

(** The [signals] object: its properties in insertion order. *)
Definition Signals := list (SignalName * Signal).

(** [Math.round(x)] *)
Definition Math_round (x : Q) : Z := Qfloor (x + (1 # 2)).

Fixpoint ngrams3 (s : jstr) : list jstr :=
  match s with
  | a :: s' =>
      match s' with
      | b :: c :: _ => [a; b; c] :: ngrams3 s'
      | _ => []
      end
  | [] => []
  end.

Definition _textSimilarity (a b : jstr) : Q :=
  match a, b with
  | [], _ | _, [] => 0
  | _, _ =>
      if jstr_eqb a b then 1
      else
        let a := trim (collapseWs false (toLowerCase a)) in
        let b := trim (collapseWs false (toLowerCase b)) in
        if ((List.length a <? 20)%nat || (List.length b <? 20)%nat)
           && (includes a b || includes b a)
        then 9 # 10
        else
          let aGrams := dedupe [] (ngrams3 a) in
          let bGrams := dedupe [] (ngrams3 b) in
          if (List.length aGrams =? 0)%nat || (List.length bGrams =? 0)%nat then 0
          else
            let intersection := List.length (filter (setHas bGrams) aGrams) in
            let union := (List.length aGrams + List.length bGrams - intersection)%nat in
            if (0 <? union)%nat
            then Qmake (Z.of_nat intersection) (Pos.of_nat union)
            else 0
  end.

Definition strongPatterns : list regexp :=
  [ rx [Bol; oneOf ["yes"; "yeah"; "yep"; "yup"; "ya"; "yea"; "sure"; "correct";
                    "exactly"; "absolutely"; "definitely"; "of course"; "right"];
        Bow];
    rx [Bol; oneOf ["no"; "nope"; "nah"; "not really"; "unfortunately"; "sadly";
                    "afraid not"; "negative"]; Bow];
    rx [Bol; oneOf ["done"; "sorted"; "fixed"; "handled"; "resolved"; "completed";
                    "finished"; "sent"; "updated"; "approved"]; Bow];
    rx [Bow;
        alts [Seq (lit "i") (oneOf ["'ll"; "'ll"; " will"; " can"]);
              Seq (lit "we") (oneOf ["'ll"; "'ll"; " will"; " can"]);
              lit "let me";
              seqs [lit "i"; oneOf ["'m"; "'m"; " am"]; lit " on it"]];
        Bow];
    rx [Bow; oneOf ["here you go"; "here it is"; "see attached"; "check this";
                    "take a look"; "see below"]; Bow];
    rx [Bow;
        alts [lit "the answer is";
              Seq (lit "it") (oneOf ["'s"; "'s"; " is"]);
              Seq (lit "they") (oneOf ["'re"; "'re"; " are"]);
              Seq (lit "that") (oneOf ["'s"; "'s"; " is"])];
        Bow];
    rx [Bol; opt (ch "@"); plus word; plus (Cls isSpace);
        oneOf ["yes"; "no"; "it"; "the"; "that"; "here"; "done"; "i"]; Bow] ].

(** [\d{1,2}[:.]\d{2}] between word boundaries. *)
Definition clockTime : list re :=
  [Bow; digit; opt digit; oneOf [":"; "."]; digit; digit; Bow].

Definition mediumPatterns : list regexp :=
  [ rx [Bow; lit "http"; opt (lit "s"); lit "://"; plus nonSpace; Bow];
    rx clockTime;
    rxi [Bow; plus digit; ws0;
         alts [lit "pm"; lit "am";
               Seq (lit "hr") (opt (lit "s")); Seq (lit "hour") (opt (lit "s"));
               Seq (lit "min") (opt (lit "s")); Seq (lit "minute") (opt (lit "s"));
               Seq (lit "day") (opt (lit "s")); Seq (lit "week") (opt (lit "s"))];
         Bow];
    rxi [Bow; oneOf ["tomorrow"; "today"; "tonight"; "monday"; "tuesday";
                     "wednesday"; "thursday"; "friday"; "saturday"; "sunday"]; Bow];
    rxi [Bow; oneOf ["because"; "since"; "the reason"; "due to"]; Bow];
    rxi [Bow; oneOf ["try"; "use"; "go to"; "click"; "open"; "check"; "look at"]; Bow];
    rxi [Bow; oneOf ["attached"; "uploading"; "sending"; "forwarding"]; Bow] ].

Definition weakPatterns : list regexp :=
  [ rxi [Bow; oneOf ["ok"; "okay"; "sure thing"; "will do"; "got it"; "noted";
                     "thanks"; "thank you"; "understood"; "acknowledged"]; Bow];
    rxi [Bow; oneOf ["i think"; "maybe"; "probably"; "possibly"; "perhaps";
                     "likely"]; Bow] ].

Definition antiPatterns : list regexp :=
  [ rxi [Bol; alts [lit "lol"; lit "haha"; joy; rofl; sweatSmile; skull]];
    rxi [Bol; oneOf ["good morning"; "good afternoon"; "good evening"; "hi";
                     "hello"; "hey"]; Bow];
    rx [Bol; plus (ch "?"); Eol];
    rxi [Bol; oneOf ["same"; "me too"; "i agree"]; ws0; Eol] ].

Definition Qmax (a b : Q) : Q := if Qle_bool a b then b else a.
Definition Qmin (a b : Q) : Q := if Qle_bool a b then a else b.
Definition Qltb (a b : Q) : bool := negb (Qle_bool b a).

(** The second parameter of the source, [questionType], is not used by
    its body. *)
Definition _getAnswerPatternScore (text : jstr) : Q :=
  if testAny antiPatterns text then 0
  else
    let score := 0 in
    let score := if testAny strongPatterns text then Qmax score (85 # 100) else score in
    let score := if Qltb score (85 # 100)
                 then if testAny mediumPatterns text then Qmax score (5 # 10) else score
                 else score in
    let score := if Qltb score (5 # 10)
                 then if testAny weakPatterns text then Qmax score (3 # 10) else score
                 else score in
    let score := if (100 <? List.length text)%nat then Qmax score (4 # 10)
                 else if (50 <? List.length text)%nat then Qmax score (25 # 100)
                 else score in
    Qmin score 1.

Definition _getAnswerPatternDetail (text : jstr) : Detail :=
  if test (rxi [Bol; oneOf ["yes"; "yeah"; "yep"; "sure"; "correct"; "absolutely";
                            "definitely"]; Bow]) text
  then DText "affirmative response"
  else if test (rxi [Bol; oneOf ["no"; "nope"; "nah"; "not really";
                                 "unfortunately"]; Bow]) text
  then DText "negative response"
  else if test (rxi [Bol; oneOf ["done"; "sorted"; "fixed"; "handled"; "resolved";
                                 "completed"]; Bow]) text
  then DText "task completion"
  else if test (rxi [Bow; lit "http"; opt (lit "s"); lit "://"]) text
  then DText "contains link"
  else if test (rxi [Bow; oneOf ["attached"; "uploading"; "sending"]; Bow]) text
  then DText "sharing resource"
  else DText "answer-like pattern".

Definition _questionTypeAnswerMatch (questionType : option QuestionType)
           (answerText : jstr) : Q :=
  let lower := toLowerCase answerText in
  match questionType with
  | Some yes_no =>
      if test (rxi [Bol; oneOf ["yes"; "yeah"; "yep"; "yup"; "sure"; "correct"; "no";
                                "nope"; "nah"; "not really"]; Bow]) lower
      then 9 # 10
      else if test (rxi [Bow; oneOf ["yes"; "no"; "correct"; "incorrect"; "right";
                                     "wrong"]; Bow]) lower
      then 5 # 10
      else 0
  | Some approval =>
      if test (rxi [Bow; oneOf ["approved"; "approve"; "go ahead"; "lgtm";
                                "looks good"; "green light"; "sign off";
                                "rejected"; "denied"]; Bow]) lower
      then 95 # 100
      else if test (rxi [Bow; oneOf ["yes"; "sure"; "ok"; "no"; "hold off"; "wait";
                                     "not yet"]; Bow]) lower
      then 6 # 10
      else 0
  | Some scheduling =>
      if test (rx clockTime) lower then 8 # 10
      else if test (rxi [Bow; oneOf ["tomorrow"; "today"; "monday"; "tuesday";
                                     "wednesday"; "thursday"; "friday"; "pm";
                                     "am"]; Bow]) lower
      then 7 # 10
      else if test (rxi [Bow; oneOf ["works for me"; "i'm free"; "available";
                                     "busy"; "can't make it"]; Bow]) lower
      then 6 # 10
      else 0
  | Some status_check =>
      if test (rxi [Bow; oneOf ["done"; "complete"; "in progress"; "working on";
                                "almost"; "nearly"; "started"; "not started";
                                "blocked"]; Bow]) lower
      then 8 # 10
      else if test (rxi [Bow; oneOf ["eta"; "expected"; "should be"; "will be";
                                     "by"]; Bow]) lower
      then 5 # 10
      else 0
  | Some action_request =>
      if test (rxi [Bow; oneOf ["done"; "on it"; "will do"; "i'll"; "i can";
                                "sending"; "sent"; "shared"; "handling"]; Bow]) lower
      then 8 # 10
      else if test (rxi [Bow; oneOf ["i can't"; "unable"; "not possible";
                                     "someone else"]; Bow]) lower
      then 6 # 10
      else 0
  | Some info_seeking =>
      if (30 <? List.length lower)%nat then 3 # 10 else 0
  | Some opinion =>
      if test (rxi [Bow; oneOf ["i think"; "in my opinion"; "imo"; "i'd say";
                                "i prefer"; "i suggest"; "i recommend"]; Bow]) lower
      then 8 # 10
      else if test (rxi [Bow; oneOf ["agree"; "disagree"; "option"; "better";
                                     "worse"; "prefer"]; Bow]) lower
      then 5 # 10
      else 0
  | _ => 0
  end.

Definition _keywordOverlapScore (questionKeywords answerKeywords : list jstr) : Q :=
  match questionKeywords, answerKeywords with
  | [], _ | _, [] => 0
  | _, _ =>
      let qSet := dedupe [] questionKeywords in
      let matches := List.length (filter (setHas qSet) answerKeywords) in
      Qmake (Z.of_nat matches) (Pos.of_nat (List.length qSet))
  end.

(** The running state of [scoreAnswer]: [totalScore] and [signals]. *)
Definition Acc : Type := (Q * Signals)%type.

Definition addSignal (acc : Acc) (name : SignalName) (sc : Q) (d : Detail)
           (newTotal : Q) : Acc :=
  (newTotal, snd acc ++ [(name, mkSignal sc d)]).

(** Signal 1: direct quoted reply. *)
Definition signal1 (question : Question) (qBody : jstr) (o : Options) (acc : Acc) : Acc :=
  if isQuotedReply o && truthyStr (quotedMsgBody o) then
    let quotedLower := trim (toLowerCase (orStr (quotedMsgBody o) [])) in
    let similarity := _textSimilarity quotedLower qBody in
    if Qltb (7 # 10) similarity
    then addSignal acc quoted_reply 1 (DQuotedSimilarity similarity) (fst acc + 1)
    else if optStr_eqb (quotedMsgSender o) (q_sender question)
            && Qltb (3 # 10) similarity
    then addSignal acc quoted_reply (8 # 10)
                   (DText "quoted same sender, partial match") (fst acc + (8 # 10))
    else acc
  else acc.

(** Signal 2: answer pattern detection. *)
Definition signal2 (aBody : jstr) (acc : Acc) : Acc :=
  let patternScore := _getAnswerPatternScore aBody in
  if Qltb 0 patternScore
  then addSignal acc answer_pattern patternScore (_getAnswerPatternDetail aBody)
                 (fst acc + patternScore * (4 # 10))
  else acc.

(** Signal 3: keyword overlap. *)
Definition signal3 (question : Question) (qBody aBody : jstr) (acc : Acc) : Acc :=
  let questionKeywords :=
    match q_keywords question with
    | Some ks => ks
    | None => _extractKeywords qBody
    end in
  let answerKeywords := _extractKeywords aBody in
  let overlap := _keywordOverlapScore questionKeywords answerKeywords in
  if Qltb 0 overlap
  then addSignal acc keyword_overlap overlap (DOverlap (Math_round (overlap * 100)))
                 (fst acc + overlap * (25 # 100))
  else acc.

(** Signal 4: the reply addresses the asker by name. *)
Definition signal4 (question : Question) (aBody : jstr) (acc : Acc) : Acc :=
  match q_sender question with
  | Some (c :: s) =>
      let askerParts := splitWs (toLowerCase (c :: s)) in
      let addressed :=
        existsb (fun part => (3 <=? List.length part)%nat && includes aBody part)
                askerParts in
      if addressed
      then addSignal acc addresses_asker (3 # 10) (DMentions (c :: s))
                     (fst acc + (3 # 10))
      else acc
  | _ => acc
  end.

(** Signal 5: time proximity; [minutesApart <= n] is
    [|timeDeltaMs| <= n * 60000]. *)
Definition signal5 (o : Options) (acc : Acc) : Acc :=
  let minutesApart := (inject_Z (Z.abs (timeDeltaMs o)) / 60000)%Q in
  if Qle_bool minutesApart 2
  then addSignal acc time_proximity (2 # 10) (DText "within 2 minutes")
                 (fst acc + (2 # 10))
  else if Qle_bool minutesApart 10
  then addSignal acc time_proximity (15 # 100) (DText "within 10 minutes")
                 (fst acc + (15 # 100))
  else if Qle_bool minutesApart 60
  then addSignal acc time_proximity (8 # 100) (DText "within 1 hour")
                 (fst acc + (8 # 100))
  else if Qltb 240 minutesApart
  then addSignal acc time_proximity (- (1 # 10)) (DText "over 4 hours old")
                 (fst acc - (1 # 10))
  else acc.

(** Signal 6: conversation proximity. *)
Definition signal6 (o : Options) (acc : Acc) : Acc :=
  if (recentMsgCount o <=? 2)%Z
  then addSignal acc conversation_proximity (15 # 100)
                 (DMessagesBetween (recentMsgCount o)) (fst acc + (15 # 100))
  else if (recentMsgCount o <=? 5)%Z
  then addSignal acc conversation_proximity (8 # 100)
                 (DMessagesBetween (recentMsgCount o)) (fst acc + (8 # 100))
  else acc.

(** Signal 7: self-reply penalty. *)
Definition signal7 (question : Question) (candidateMsg : Candidate) (acc : Acc) : Acc :=
  if optStr_eqb (c_sender candidateMsg) (q_sender question)
  then addSignal acc self_reply (- (5 # 10)) (DText "same person as asker")
                 (fst acc * (3 # 10))
  else acc.

(** Signal 8: the tracked user's own reply. *)
Definition signal8 (question : Question) (candidateMsg : Candidate) (o : Options)
           (acc : Acc) : Acc :=
  if isFromMe o && negb (optStr_eqb (c_sender candidateMsg) (q_sender question))
  then addSignal acc manager_reply (25 # 100)
                 (DText "your reply to someone else's question")
                 (fst acc + (25 # 100))
  else acc.

(** Signal 9: response length adequacy. *)
Definition signal9 (aBody : jstr) (acc : Acc) : Acc :=
  if (100 <? List.length aBody)%nat
  then addSignal acc substantive_reply (15 # 100) (DText "detailed response")
                 (fst acc + (15 # 100))
  else if (30 <? List.length aBody)%nat
  then addSignal acc substantive_reply (5 # 100) (DText "moderate response")
                 (fst acc + (5 # 100))
  else acc.

(** Signal 10: question-type-specific answer matching. *)
Definition signal10 (question : Question) (aBody : jstr) (acc : Acc) : Acc :=
  let typeScore := _questionTypeAnswerMatch (q_questionType question) aBody in
  if Qltb 0 typeScore
  then addSignal acc type_match typeScore (DMatchesType (q_questionType question))
                 (fst acc + typeScore * (2 # 10))
  else acc.

Definition qBodyOf (question : Question) : jstr :=
  trim (toLowerCase (orStr (q_body question) [])).
Definition aBodyOf (candidateMsg : Candidate) : jstr :=
  trim (toLowerCase (orStr (c_body candidateMsg) [])).

(** The state after signals 1 to 6, that is, just before the self-reply
    test. *)
Definition beforeSelfReply (question : Question) (candidateMsg : Candidate)
           (o : Options) : Acc :=
  let qBody := qBodyOf question in
  let aBody := aBodyOf candidateMsg in
  signal6 o (signal5 o (signal4 question aBody
    (signal3 question qBody aBody (signal2 aBody
      (signal1 question qBody o (0, [])))))).

(** The state after all ten signals: [totalScore] and [signals] at the
    last statement of [scoreAnswer]. *)
Definition allSignals (question : Question) (candidateMsg : Candidate)
           (o : Options) : Acc :=
  let aBody := aBodyOf candidateMsg in
  signal10 question aBody (signal9 aBody
    (signal8 question candidateMsg o
      (signal7 question candidateMsg
        (beforeSelfReply question candidateMsg o)))).

Definition clamp01 (x : Q) : Q := Qmax 0 (Qmin 1 x).

(** [Math.round(confidence * 100) / 100] *)
Definition round2 (x : Q) : Q := (inject_Z (Math_round (x * 100)) / 100)%Q.

Record Score : Type := mkScore { confidence : Q; signals : Signals }.

Definition scoreAnswer (question : Question) (candidateMsg : Candidate)
           (o : Options) : Score :=
  match aBodyOf candidateMsg with
  | [] => mkScore 0 []
  | _ =>
      let acc := allSignals question candidateMsg o in
      mkScore (round2 (clamp01 (fst acc))) (snd acc)
  end.

(** What the signals after the self-reply test add when the candidate is
    from the asker: signals 9 and 10 (signal 8 asks for another sender). *)
Definition afterSelfReply (question : Question) (candidateMsg : Candidate) : Q :=
  let aBody := aBodyOf candidateMsg in
  fst (signal10 question aBody (signal9 aBody (0, []))).

(** The options with the manager-reply signal excluded. *)
Definition withoutManager (o : Options) : Options :=
  mkOptions (isQuotedReply o) (quotedMsgBody o) (quotedMsgSender o) false
            (timeDeltaMs o) (recentMsgCount o).

(** *** Main analyze method *)

Record Analysis : Type := mkAnalysis {
  res_isMention : bool;
  res_isQuestion : bool;
  res_isDirectedQuestion : bool;
  res_isDirectMessage : bool;
  res_questionAnalysis : option QuestionAnalysis
}.

Definition analyze (this : Analyzer) (message : Message)
           (myId myLid : option jstr) (isGroupChat : bool) : Analysis :=
  let result := mkAnalysis false false false false None in
  if fromMe message then result
  else
    let mention := isMention this message myId myLid in
    let direct := negb isGroupChat in
    match analyzeQuestion this message myId myLid isGroupChat with
    | Some qa => mkAnalysis mention true (directedAtMe qa) direct (Some qa)
    | None => mkAnalysis mention false false direct None
    end.

(** *** Example data *)

(** The text of the example of the specification. *)
Definition invoiceText : jstr := js "Can you send me the invoice ASAP?".

(** [analyzeQuestion] on a bare text, with no tracked name, no ids and no
    group chat. *)
Definition classify (text : string) : option QuestionAnalysis :=
  analyzeQuestion (setTrackName None)
                  (mkMessage false (Some (js text)) None false None)
                  None None false.

Definition reportQuestion : Question :=
  mkQuestion (Some (js "Is the report done?")) (Some (js "Alice")) (Some yes_no) None.

Definition followUpText : jstr :=
  js "Also the numbers in the appendix need another pass before we send it, the totals in table three do not add up".

(** The follow-up sent by the asker herself, and the same text sent by
    someone else. *)
Definition followUpByAsker : Candidate := mkCandidate (Some followUpText) (Some (js "Alice")).
Definition followUpByOther : Candidate := mkCandidate (Some followUpText) (Some (js "Bob")).

End Analyzer.

(* ================================================================== *)
(** ** The Store class: questions and answer candidates *)
(* ================================================================== *)

Module Store.
Import JS Analyzer.
Local Open Scope string_scope.
Local Open Scope list_scope.

Inductive Status : Type := open | answered | dismissed.

Definition Status_eqb (a b : Status) : bool :=
  match a, b with
  | open, open | answered, answered | dismissed, dismissed => true
  | _, _ => false
  end.

(** A row of the table [questions] (the initial schema and migrations 002
    and 004); a nullable column is an [option]. *)
Record QuestionRow : Type := mkQuestionRow {
  id : jstr;
  chat_id : jstr;
  chat_name : jstr;
  sender : jstr;
  body : jstr;
  timestamp : Z;
  msg_id : option jstr;
  directed_at_me : bool;
  status : Status;
  priority : jstr;
  question_type : jstr;
  keywords : list jstr;
  category : jstr;
  has_media : bool;
  media_type : jstr;
  answered_by : option jstr;
  answered_at : option Z;
  answer_confidence : option Q;
  answer_reason : option Detail;
  answer_preview : option jstr;
  answer_id : option jstr;
  dismissed_flag : bool;               (* column [dismissed] *)
  dismissed_by : option jstr;
  dismissed_at : option Z;
  manually_resolved : bool;
  classified_by : jstr;
  ai_confidence : option Q;
  ai_intent : option jstr;
  ai_summary : option jstr;
  ai_is_actionable : option bool
}.

(** A row of the table [answer_candidates]. *)
Record CandidateRow : Type := mkCandidateRow {
  cand_id : jstr;
  question_id : jstr;
  cand_chat_id : jstr;
  cand_msg_id : option jstr;
  cand_sender : jstr;
  cand_body : jstr;
  cand_timestamp : Z;
  cand_confidence : Q;
  cand_signals : Signals;
  is_quoted_reply : bool;
  is_accepted : bool
}.

Record DB : Type := mkDB {
  questions : list QuestionRow;
  answer_candidates : list CandidateRow
}.

(** [.from('questions').update(f).eq('id', qid)] *)
Definition updateQuestion (qid : jstr) (f : QuestionRow -> QuestionRow) (db : DB) : DB :=
  mkDB (map (fun q => if jstr_eqb (id q) qid then f q else q) (questions db))
       (answer_candidates db).

(** [.from('answer_candidates').insert(row)]; [id] is the primary key, so
    a row whose id is taken is refused. *)
Definition insertCandidate (row : CandidateRow) (db : DB) : DB :=
  if existsb (fun c => jstr_eqb (cand_id c) (cand_id row)) (answer_candidates db)
  then db
  else mkDB (questions db) (answer_candidates db ++ [row]).

Definition setAccepted (b : bool) (c : CandidateRow) : CandidateRow :=
  mkCandidateRow (cand_id c) (question_id c) (cand_chat_id c) (cand_msg_id c)
                 (cand_sender c) (cand_body c) (cand_timestamp c)
                 (cand_confidence c) (cand_signals c) (is_quoted_reply c) b.

(** [.select('*').eq('id', x).single()]: the row when exactly one matches. *)
Definition single {A : Type} (rows : list A) : option A :=
  match rows with
  | [r] => Some r
  | _ => None
  end.

(** *** checkForAnswers *)

Record AnswerCheck : Type := mkAnswerCheck {
  chatId : jstr;
  ac_sender : option jstr;
  ac_body : option jstr;
  ac_timestamp : option Z;
  msgId : option jstr;
  ac_quotedMsgBody : option jstr;
  ac_quotedMsgSender : option jstr;
  ac_isQuotedReply : bool;
  isMyMessage : bool;
  ac_recentMsgCount : Z;
  analyzer : option Analyzer
}.

(** [Object.entries(signals).filter(([, v]) => v.score > 0)
      .sort((a, b) => b[1].score - a[1].score)[0]]: the sort is stable, so
    the result is the first of the entries with the greatest positive
    score. *)
Fixpoint topSignalFrom (best : option (SignalName * Signal))
         (l : Signals) : option (SignalName * Signal) :=
  match l with
  | [] => best
  | e :: l' =>
      if Qltb 0 (score (snd e))
      then match best with
           | Some b => if Qltb (score (snd b)) (score (snd e))
                       then topSignalFrom (Some e) l'
                       else topSignalFrom best l'
           | None => topSignalFrom (Some e) l'
           end
      else topSignalFrom best l'
  end.

Definition topSignal (l : Signals) : option (SignalName * Signal) :=
  topSignalFrom None l.

(** The row [q] as the [question] argument of [scoreAnswer]: a row has the
    properties [body], [sender] and [keywords], and no property
    [questionType] (its column is [question_type]). *)
Definition questionOfRow (q : QuestionRow) : Question :=
  mkQuestion (Some (body q)) (Some (sender q)) None (Some (keywords q)).

(** The update of the auto-accept branch. *)
Definition markAutoAnswered (a : AnswerCheck) (now : Z) (conf : Q)
           (sigs : Signals) (candidateId : jstr) (q : QuestionRow) : QuestionRow :=
  mkQuestionRow (id q) (chat_id q) (chat_name q) (sender q) (body q) (timestamp q)
    (msg_id q) (directed_at_me q)
    answered
    (priority q) (question_type q) (keywords q) (category q) (has_media q)
    (media_type q)
    (match ac_sender a with
     | Some s => Some s
     | None => answered_by q    (* an undefined property is not sent *)
     end)
    (Some now)
    (Some conf)
    (Some match topSignal sigs with
          | Some top => detail (snd top)
          | None => DText "multi-signal match"
          end)
    (Some (substring0 200 (orStr (ac_body a) [])))
    (Some candidateId)
    (dismissed_flag q) (dismissed_by q) (dismissed_at q) (manually_resolved q)
    (classified_by q) (ai_confidence q) (ai_intent q) (ai_summary q)
    (ai_is_actionable q).

(** The body of the loop [for (const q of pendingQs)], for the question [q]
    whose candidate, if one is recorded, gets the id [candidateId]. *)
Definition checkOne (a : AnswerCheck) (now : Z) (candidateId : jstr)
           (q : QuestionRow) (db : DB) : DB :=
  let age := (now - timestamp q)%Z in
  if (age <? 2000)%Z || (24 * 60 * 60 * 1000 <? age)%Z then db
  else
    let sc :=
      match analyzer a with
      | Some _ =>
          scoreAnswer (questionOfRow q) (mkCandidate (ac_body a) (ac_sender a))
                      (mkOptions (ac_isQuotedReply a) (ac_quotedMsgBody a)
                                 (ac_quotedMsgSender a) (isMyMessage a) age
                                 (ac_recentMsgCount a))
      | None => mkScore 0 []
      end in
    if Qle_bool (2 # 10) (confidence sc) then
      let isAccepted := Qle_bool (5 # 10) (confidence sc) in
      let db :=
        insertCandidate
          (mkCandidateRow candidateId (id q) (chatId a) (msgId a)
                          (orStr (ac_sender a) (js "Unknown"))
                          (substring0 500 (orStr (ac_body a) []))
                          now (confidence sc) (signals sc)
                          (ac_isQuotedReply a) isAccepted)
          db in
      if isAccepted
      then updateQuestion (id q)
                          (markAutoAnswered a now (confidence sc) (signals sc)
                                            candidateId)
                          db
      else db
    else db.

Fixpoint checkLoop (a : AnswerCheck) (now : Z) (newId : nat -> jstr) (i : nat)
         (pendingQs : list QuestionRow) (db : DB) : DB :=
  match pendingQs with
  | [] => db
  | q :: rest => checkLoop a now newId (S i) rest (checkOne a now (newId i) q db)
  end.

(** [clock] is the value of [Date.now()] when the message carries no
    timestamp; [newId i] is the id [`ac_${Date.now()}_${...}`] generated in
    the [i]-th iteration of the loop. *)
Definition checkForAnswers (a : AnswerCheck) (clock : Z) (newId : nat -> jstr)
           (db : DB) : DB :=
  if negb (truthyStr (ac_body a)) then db
  else
    let now := match ac_timestamp a with
               | Some t => if (t =? 0)%Z then clock else t
               | None => clock
               end in
    let pendingQs :=
      filter (fun q => jstr_eqb (chat_id q) (chatId a) && Status_eqb (status q) open)
             (questions db) in
    checkLoop a now newId 0 pendingQs db.

(** *** Manual question management *)

Definition markQuestionAnswered (questionId : jstr) (answeredBy : option jstr)
           (now : Z) (db : DB) : DB :=
  updateQuestion questionId (fun q =>
    mkQuestionRow (id q) (chat_id q) (chat_name q) (sender q) (body q) (timestamp q)
      (msg_id q) (directed_at_me q)
      answered
      (priority q) (question_type q) (keywords q) (category q) (has_media q)
      (media_type q)
      (Some (orStr answeredBy (js "Manual")))
      (Some now)
      (Some 1)
      (Some (DText "manually resolved"))
      (answer_preview q) (answer_id q)
      (dismissed_flag q) (dismissed_by q) (dismissed_at q)
      true
      (classified_by q) (ai_confidence q) (ai_intent q) (ai_summary q)
      (ai_is_actionable q)) db.

Definition dismissQuestion (questionId : jstr) (dismissedBy : option jstr)
           (now : Z) (db : DB) : DB :=
  updateQuestion questionId (fun q =>
    mkQuestionRow (id q) (chat_id q) (chat_name q) (sender q) (body q) (timestamp q)
      (msg_id q) (directed_at_me q)
      dismissed
      (priority q) (question_type q) (keywords q) (category q) (has_media q)
      (media_type q)
      (answered_by q) (answered_at q) (answer_confidence q) (answer_reason q)
      (answer_preview q) (answer_id q)
      true
      (Some (orStr dismissedBy (js "Admin")))
      (Some now)
      (manually_resolved q)
      (classified_by q) (ai_confidence q) (ai_intent q) (ai_summary q)
      (ai_is_actionable q)) db.

(** The column values [reopenQuestion] writes. *)
Definition reopened (q : QuestionRow) : QuestionRow :=
  mkQuestionRow (id q) (chat_id q) (chat_name q) (sender q) (body q) (timestamp q)
    (msg_id q) (directed_at_me q)
    open
    (priority q) (question_type q) (keywords q) (category q) (has_media q)
    (media_type q)
    None None None None None None
    false None None
    false
    (classified_by q) (ai_confidence q) (ai_intent q) (ai_summary q)
    (ai_is_actionable q).

Definition reopenQuestion (questionId : jstr) (db : DB) : DB :=
  updateQuestion questionId reopened db.

(** The update [acceptAnswerCandidate] makes to the question of the
    accepted candidate. *)
Definition markManuallyAccepted (candidateId : jstr) (candidate : CandidateRow)
           (q : QuestionRow) : QuestionRow :=
  mkQuestionRow (id q) (chat_id q) (chat_name q) (sender q) (body q) (timestamp q)
    (msg_id q) (directed_at_me q)
    answered
    (priority q) (question_type q) (keywords q) (category q) (has_media q)
    (media_type q)
    (Some (cand_sender candidate))
    (Some (cand_timestamp candidate))
    (Some (cand_confidence candidate))
    (Some (DText "manually accepted"))
    (Some (substring0 200 (cand_body candidate)))
    (Some candidateId)
    (dismissed_flag q) (dismissed_by q) (dismissed_at q)
    true
    (classified_by q) (ai_confidence q) (ai_intent q) (ai_summary q)
    (ai_is_actionable q).

Definition acceptAnswerCandidate (candidateId : jstr) (db : DB) : DB :=
  match single (filter (fun c => jstr_eqb (cand_id c) candidateId)
                       (answer_candidates db)) with
  | None => db
  | Some candidate =>
      (* mark this candidate as accepted *)
      let cs := map (fun c => if jstr_eqb (cand_id c) candidateId
                              then setAccepted true c else c)
                    (answer_candidates db) in
      (* un-accept any other candidates for this question *)
      let cs := map (fun c => if negb (jstr_eqb (cand_id c) candidateId)
                                 && jstr_eqb (question_id c) (question_id candidate)
                              then setAccepted false c else c)
                    cs in
      updateQuestion (question_id candidate)
                     (markManuallyAccepted candidateId candidate)
                     (mkDB (questions db) cs)
  end.

(** *** AI classification updates *)

(** A normalized result of the classifier, as [_callAPI] builds it. *)
Record AIResult : Type := mkAIResult {
  intent : jstr;
  ai_questionType : option jstr;
  ai_priority : jstr;
  ai_conf : Q;
  isActionable : bool;
  summary : jstr
}.

Definition orJ (s d : jstr) : jstr := orStr (Some s) d.

(** The columns the [update] object of [updateQuestionAIClassification]
    carries for the result [r]. *)
Definition aiUpdate (r : AIResult) (now : Z) (q : QuestionRow) : QuestionRow :=
  let retype := jstr_eqb (intent r) (js "question") && truthyStr (ai_questionType r) in
  let dismiss := negb (jstr_eqb (intent r) (js "question"))
                 && Qle_bool (8 # 10) (ai_conf r) in
  mkQuestionRow (id q) (chat_id q) (chat_name q) (sender q) (body q) (timestamp q)
    (msg_id q) (directed_at_me q)
    (if dismiss then dismissed else status q)
    (if retype then orJ (ai_priority r) (js "normal") else priority q)
    (if retype then orStr (ai_questionType r) [] else question_type q)
    (keywords q) (category q) (has_media q) (media_type q)
    (answered_by q) (answered_at q) (answer_confidence q) (answer_reason q)
    (answer_preview q) (answer_id q)
    (if dismiss then true else dismissed_flag q)
    (if dismiss then Some (js "AI (not a question)") else dismissed_by q)
    (if dismiss then Some now else dismissed_at q)
    (manually_resolved q)
    (js "ai")
    (Some (ai_conf r))
    (Some (orJ (intent r) (js "other")))
    (Some (summary r))
    (Some (isActionable r)).

Definition updateQuestionAIClassification (questionId : jstr)
           (aiResult : option AIResult) (now : Z) (db : DB) : DB :=
  match aiResult with
  | None => db
  | Some r => updateQuestion questionId (aiUpdate r now) db
  end.

(** *** Example data *)

Definition newQuestion (qid chat who text : string) (t : Z) : QuestionRow :=
  mkQuestionRow (js qid) (js chat) (js "Partners") (js who) (js text) t None false
    open (js "normal") (js "yes_no") (_extractKeywords (js text)) (js "general")
    false (js "chat")
    None None None None None None false None None false
    (js "regex") None None None None.

Definition reportRow : QuestionRow :=
  newQuestion "q_1" "g1@g.us" "Alice" "Is the report done?" 1000000.

Definition message (who text : string) (t : Z) : AnswerCheck :=
  mkAnswerCheck (js "g1@g.us") (Some (js who)) (Some (js text)) (Some t) None
                None None false false 1
                (Some (setTrackName (Some (js "Austin Smith")))).

(** Alice asks; Bob answers a minute later; the question is reopened; Carol
    answers a minute after that. *)
Definition db0 : DB := mkDB [reportRow] [].
Definition db1 : DB :=
  checkForAnswers (message "Bob" "yes it is done" 1060000) 0 (fun _ => js "ac_1") db0.
Definition db2 : DB := reopenQuestion (js "q_1") db1.
Definition db3 : DB :=
  checkForAnswers (message "Carol" "yes, sent it this morning" 1120000) 0
                  (fun _ => js "ac_2") db2.

(** The operator accepts Bob's answer; the classifier's verdict on the
    question arrives afterwards. *)
Definition dbAccepted : DB := acceptAnswerCandidate (js "ac_1") db1.
Definition lateVerdict : AIResult :=
  mkAIResult (js "status_update") None (js "normal") (9 # 10) false
             (js "report status check").
Definition dbOverridden : DB :=
  updateQuestionAIClassification (js "q_1") (Some lateVerdict) 1200000 dbAccepted.

(** The accepted candidates of a question. *)
Definition acceptedFor (qid : jstr) (db : DB) : list CandidateRow :=
  filter (fun c => is_accepted c && jstr_eqb (question_id c) qid)
         (answer_candidates db).

End Store.

(* ================================================================== *)
(** ** The AIClassifier class *)
(* ================================================================== *)

Module AIClassifier.
Import JS Analyzer.
Import Store(AIResult, mkAIResult).
Local Open Scope string_scope.
Local Open Scope list_scope.
Local Open Scope Z_scope.

(** What a completion callback does, as far as the classifier can tell:
    it returns or it throws. *)
Inductive CallbackOutcome : Type := Returned | Threw.

Definition Callback : Type := jstr -> AIResult -> CallbackOutcome.

(** An entry of [this.queue]. *)
Record Job : Type := mkJob {
  job_id : jstr;
  job_body : option jstr;
  job_sender : jstr;
  job_chatName : jstr;
  job_isGroupChat : bool;
  regexResult : option QuestionAnalysis;
  onClassified : option Callback
}.

Record Stats : Type := mkStats { classified : nat; errors : nat; apiCalls : nat }.

(** The fields of an instance.  [enabled] is [!!this.apiKey]; [batchTimer]
    is the time at which the pending batch timer is due, if one is
    pending. *)
Record State : Type := mkState {
  enabled : bool;
  queue : list Job;
  processing : bool;
  batchSize : nat;
  batchDelayMs : Z;
  batchTimer : option Z;
  stats : Stats;
  rateLimitDelayMs : Z;
  lastRequestTime : Z;
  maxRetries : nat;
  retryBaseDelayMs : Z
}.

(** The instance the constructor builds. *)
Definition new (apiKey : bool) : State :=
  mkState apiKey [] false 10 3000 None (mkStats 0 0 0) 13000 0 3 15000.

Definition withQueue (st : State) (q : list Job) : State :=
  mkState (enabled st) q (processing st) (batchSize st) (batchDelayMs st)
          (batchTimer st) (stats st) (rateLimitDelayMs st) (lastRequestTime st)
          (maxRetries st) (retryBaseDelayMs st).

Definition withProcessing (st : State) (b : bool) : State :=
  mkState (enabled st) (queue st) b (batchSize st) (batchDelayMs st)
          (batchTimer st) (stats st) (rateLimitDelayMs st) (lastRequestTime st)
          (maxRetries st) (retryBaseDelayMs st).

Definition withBatchTimer (st : State) (t : option Z) : State :=
  mkState (enabled st) (queue st) (processing st) (batchSize st) (batchDelayMs st)
          t (stats st) (rateLimitDelayMs st) (lastRequestTime st)
          (maxRetries st) (retryBaseDelayMs st).

Definition withStats (st : State) (s : Stats) : State :=
  mkState (enabled st) (queue st) (processing st) (batchSize st) (batchDelayMs st)
          (batchTimer st) s (rateLimitDelayMs st) (lastRequestTime st)
          (maxRetries st) (retryBaseDelayMs st).

Definition withLastRequestTime (st : State) (t : Z) : State :=
  mkState (enabled st) (queue st) (processing st) (batchSize st) (batchDelayMs st)
          (batchTimer st) (stats st) (rateLimitDelayMs st) t
          (maxRetries st) (retryBaseDelayMs st).

Definition countError (st : State) : State :=
  withStats st (mkStats (classified (stats st)) (S (errors (stats st)))
                        (apiCalls (stats st))).

Definition countApiCall (st : State) : State :=
  withStats st (mkStats (classified (stats st)) (errors (stats st))
                        (S (apiCalls (stats st)))).

Definition countClassified (st : State) : State :=
  withStats st (mkStats (S (classified (stats st))) (errors (stats st))
                        (apiCalls (stats st))).

(** *** Replies of the classification service *)

(** An element of the parsed array that is an object, by the properties
    the classifier reads ([is_actionable] by its truthiness). *)
Record RawItem : Type := mkRawItem {
  r_intent : option jstr;
  r_question_type : option jstr;
  r_priority : option jstr;
  r_confidence : option Q;
  r_is_actionable : bool;
  r_summary : option jstr
}.

(** [JSON.parse(jsonStr)]: not an array, or an array whose elements are
    objects ([Some]) or anything else ([None]). *)
Inductive Parsed : Type :=
| NotArray
| IsArray (elems : list (option RawItem)).

(** The body of a reply with a 2xx status, by what the classifier makes of
    it. *)
Inductive Payload : Type :=
| BadJSON                        (* JSON.parse(responseText) throws *)
| ApiError                       (* responseJSON.error is truthy *)
| NoText                         (* responseJSON.content?.[0]?.text is falsy *)
| Text (inner : option Parsed).  (* [None]: unwrapping or parsing the text throws *)

(** How [_httpsPost] settles.  [retryHint] is the number of seconds the
    error message of the body names after "try again in", if it names
    one. *)
Inductive Reply : Type :=
| NetworkError
| Http (statusCode : Z) (retryHint : option Q) (payload : Payload).

(** One call of [_httpsPost]: the time it takes to settle and how. *)
Record Attempt : Type := mkAttempt { latency : Z; reply : Reply }.

(** [await new Promise(r => setTimeout(r, ms))] started at [now]. *)
Definition sleep (ms now : Z) : Z := now + Z.max 0 ms.

(** [_waitForRateLimit], started at [now]: the time at which it returns. *)
Definition _waitForRateLimit (st : State) (now : Z) : Z :=
  let elapsed := now - lastRequestTime st in
  let waitMs := rateLimitDelayMs st - elapsed in
  if 0 <? waitMs then sleep waitMs now else now.

(** [Math.ceil(parseFloat(match[1]) * 1000) + 1000], or [null]. *)
Definition _parseRetryAfter (retryHint : option Q) : option Z :=
  match retryHint with
  | Some seconds => Some (Qceiling (seconds * 1000) + 1000)
  | None => None
  end.

(** [this.retryBaseDelayMs * Math.pow(2, attempt)] *)
Definition expBackoff (st : State) (attempt : nat) : Z :=
  retryBaseDelayMs st * 2 ^ Z.of_nat attempt.

Definition normalize (r : option RawItem) : option AIResult :=
  match r with
  | None => None
  | Some r =>
      Some (mkAIResult
              (orStr (r_intent r) (js "other"))
              (if truthyStr (r_question_type r) then r_question_type r else None)
              (orStr (r_priority r) (js "normal"))
              (Qmin 1 (Qmax 0 (match r_confidence r with
                               | Some c => if Qeq_bool c 0 then 5 # 10 else c
                               | None => 5 # 10
                               end)))
              (r_is_actionable r)
              (orStr (r_summary r) []))
  end.

(** How the body of the [try] block of one attempt ends. *)
Inductive TryResult : Type :=
| Return (results : list (option AIResult))
| Retry429 (backoffMs : Z)      (* status 429 *)
| Retry529 (backoffMs : Z)      (* status 529 *)
| Throw.                        (* an exception, caught by the [catch] block *)

Definition nulls {M : Type} (messages : list M) : list (option AIResult) :=
  map (fun _ => None) messages.

Definition tryBody {M : Type} (st : State) (attempt : nat) (messages : list M)
           (r : Reply) : TryResult :=
  match r with
  | NetworkError => Throw
  | Http statusCode retryHint payload =>
      if statusCode =? 429 then
        Retry429 (match _parseRetryAfter retryHint with
                  | Some retryAfter =>
                      if retryAfter =? 0 then expBackoff st attempt else retryAfter
                  | None => expBackoff st attempt
                  end)
      else if statusCode =? 529 then Retry529 (expBackoff st attempt)
      else if (statusCode <? 200) || (300 <=? statusCode) then Throw
      else
        match payload with
        | BadJSON => Throw
        | ApiError => Throw
        | NoText => Return (map normalize [])
        | Text None => Throw
        | Text (Some NotArray) => Return (nulls messages)
        | Text (Some (IsArray parsed)) => Return (map normalize parsed)
        end
  end.

(** The outcome of [_callAPI]: the results, the instance, the time at which
    the call returns, and the times at which [_httpsPost] was called, each
    with the number of its attempt. *)
Record CallOutcome : Type := mkCallOutcome {
  results : list (option AIResult);
  call_state : State;
  call_end : Z;
  posts : list (nat * Z)
}.

(** The retry loop [for (attempt = 0; attempt <= this.maxRetries; attempt++)];
    [fuel] counts the iterations that remain. *)
Fixpoint retryLoop {M : Type} (env : nat -> Attempt) (messages : list M)
         (fuel attempt : nat) (st : State) (now : Z) (posted : list (nat * Z))
  : CallOutcome :=
  match fuel with
  | O => mkCallOutcome (nulls messages) st now posted
  | S fuel' =>
      let st := withLastRequestTime st now in
      let posted := posted ++ [(attempt, now)] in
      let now := now + latency (env attempt) in
      match tryBody st attempt messages (reply (env attempt)) with
      | Return rs => mkCallOutcome rs st now posted
      | Retry429 backoffMs =>
          if (attempt <? maxRetries st)%nat then
            let now := sleep backoffMs now in
            retryLoop env messages fuel' (S attempt)
                      (withLastRequestTime st now) now posted
          else mkCallOutcome (nulls messages) (countError st) now posted
      | Retry529 backoffMs =>
          if (attempt <? maxRetries st)%nat then
            retryLoop env messages fuel' (S attempt) st (sleep backoffMs now) posted
          else mkCallOutcome (nulls messages) (countError st) now posted
      | Throw =>
          if (attempt <? maxRetries st)%nat then
            retryLoop env messages fuel' (S attempt) st
                      (sleep (expBackoff st attempt) now) posted
          else mkCallOutcome (nulls messages) (countError st) now posted
      end
  end.

(** [_callAPI(messages)] started at [now]; [env n] is what the [n]-th
    attempt of this call meets. *)
Definition _callAPI {M : Type} (env : nat -> Attempt) (messages : list M)
           (st : State) (now : Z) : CallOutcome :=
  if negb (enabled st) || (List.length messages =? 0)%nat
  then mkCallOutcome [] st now []
  else
    let now := _waitForRateLimit st now in
    retryLoop env messages (S (maxRetries st)) 0 (countApiCall st) now [].

(** *** The queue *)

(** The start of [_processBatch], up to its first [await]: the guard, the
    flag and the batch taken from the queue.  [None]: the call returns at
    the guard. *)
Definition takeBatch (st : State) : State * option (list Job) :=
  if processing st || (List.length (queue st) =? 0)%nat then (st, None)
  else
    let batch := firstn (batchSize st) (queue st) in
    (withQueue (withProcessing st true) (skipn (batchSize st) (queue st)),
     Some batch).

(** A call of a completion callback: the job id and the result passed. *)
Definition Invocation : Type := (jstr * option AIResult)%type.

(** The loop over the batch that calls back with the results. *)
Fixpoint callBack (batch : list Job) (i : nat) (results : list (option AIResult))
         (st : State) (calls : list Invocation) : State * list Invocation :=
  match batch with
  | [] => (st, calls)
  | item :: rest =>
      match nth_error results i, onClassified item with
      | Some (Some result), Some cb =>
          let calls := calls ++ [(job_id item, Some result)] in
          match cb (job_id item) result with
          | Returned => callBack rest (S i) results (countClassified st) calls
          | Threw => callBack rest (S i) results st calls
          end
      | _, _ => callBack rest (S i) results st calls
      end
  end.

(** The outcome of a run of [_processBatch] that took a batch. *)
Record BatchOutcome : Type := mkBatchOutcome {
  batch_state : State;
  batch_end : Z;
  batch_posts : list (nat * Z);
  invocations : list Invocation;
  reschedule : option Z     (* the delay of [setTimeout(() => this._processBatch(), waitMs)] *)
}.

(** [_processBatch] from its first [await] on, for the batch it took
    (the callbacks are taken to settle at once). *)
Definition finishBatch (env : nat -> Attempt) (batch : list Job) (st : State)
           (now : Z) : BatchOutcome :=
  let out := _callAPI env batch st now in
  let '(st, calls) := callBack batch 0 (results out) (call_state out) [] in
  let st := withProcessing st false in
  let now := call_end out in
  mkBatchOutcome st now (posts out) calls
    (if (0 <? List.length (queue st))%nat
     then Some (Z.max 200 (rateLimitDelayMs st - (now - lastRequestTime st)))
     else None).

(** A whole run of [_processBatch] started at [now]. *)
Definition _processBatch (env : nat -> Attempt) (st : State) (now : Z)
  : BatchOutcome :=
  match takeBatch st with
  | (st, Some batch) => finishBatch env batch st now
  | (st, None) => mkBatchOutcome st now [] [] None
  end.

(** [queueMessage(job)] called at [now].  The second component is the
    batch dispatched by this very call, if it dispatches one. *)
Definition queueMessage (now : Z) (job : Job) (st : State)
  : State * option (list Job) :=
  if negb (enabled st) then (st, None)
  else if negb (truthyStr (job_body job))
          || (List.length (trim (orStr (job_body job) [])) <? 3)%nat
  then (st, None)
  else
    let st := withQueue st (queue st ++ [job]) in
    let st := match batchTimer st with
              | None => withBatchTimer st (Some (now + batchDelayMs st))
              | Some _ => st
              end in
    if (batchSize st <=? List.length (queue st))%nat
    then takeBatch (withBatchTimer st None)
    else (st, None).

(** The callback of the batch timer. *)
Definition batchTimerFired (st : State) : State * option (list Job) :=
  takeBatch (withBatchTimer st None).

(** What can happen to the queue: a message is queued, or the batch timer
    expires. *)
Inductive Event : Type :=
| Enqueue (job : Job)
| TimerFires.

(** An event at time [t]; a timer does not fire before it is due. *)
Definition step (t : Z) (e : Event) (st : State)
  : option (State * option (list Job)) :=
  match e with
  | Enqueue job => Some (queueMessage t job st)
  | TimerFires =>
      match batchTimer st with
      | Some due => if due <=? t then Some (batchTimerFired st) else None
      | None => None
      end
  end.

(** A run of timed events; the result has the dispatches with their
    times. *)
Fixpoint run (sched : list (Z * Event)) (st : State)
  : option (State * list (Z * list Job)) :=
  match sched with
  | [] => Some (st, [])
  | (t, e) :: rest =>
      match step t e st with
      | None => None
      | Some (st', d) =>
          match run rest st' with
          | None => None
          | Some (st'', log) =>
              Some (st'', match d with
                          | Some batch => (t, batch) :: log
                          | None => log
                          end)
          end
      end
  end.


(** *** Notions used to state the properties of the classifier *)

(** The reply lets the attempt return the parsed array: a 2xx status and a
    body whose text is absent or parses to an array. *)
Definition succeeds (r : Reply) : bool :=
  match r with
  | Http statusCode _ NoText
  | Http statusCode _ (Text (Some (IsArray _))) =>
      (200 <=? statusCode) && (statusCode <? 300)
  | _ => false
  end.

(** The results applied to the batch position by position: the job at
    position [i] is called back with the result at position [i] when there
    is one, it is not [null] and the job has a callback. *)
Fixpoint positional (batch : list Job) (results : list (option AIResult))
  : list Invocation :=
  match batch, results with
  | item :: batch', r :: results' =>
      match r, onClassified item with
      | Some result, Some _ => (job_id item, Some result) :: positional batch' results'
      | _, _ => positional batch' results'
      end
  | _, _ => []
  end.

(** The delay before the next attempt when the attempt that met [r] is
    retried; [None] when it returns. *)
Definition retryDelay (st : State) (attempt : nat) (r : Reply) : option Z :=
  match tryBody st attempt (@nil unit) r with
  | Return _ => None
  | Retry429 backoffMs => Some backoffMs
  | Retry529 backoffMs => Some backoffMs
  | Throw => Some (expBackoff st attempt)
  end.

(** Every post of [l] comes at least [gap n] after the post before it,
    [n] being the number of its attempt; [prev] is the time of the post
    before the first. *)
Fixpoint spacedFrom (gap : nat -> Z) (prev : Z) (l : list (nat * Z)) : Prop :=
  match l with
  | [] => True
  | p :: l' => prev + gap (fst p) <= snd p /\ spacedFrom gap (snd p) l'
  end.

(** The gap asked of a retry is no more than the time the reply takes
    plus the delay the loop then sleeps. *)
Definition gapFits (gap : nat -> Z) (st0 : State) (env : nat -> Attempt) : Prop :=
  forall n b, retryDelay st0 n (reply (env n)) = Some b ->
              gap (S n) <= latency (env n) + Z.max 0 b.

(** No reply takes a negative time. *)
Definition timely (env : nat -> Attempt) : Prop :=
  forall n, 0 <= latency (env n).

(** No reply suggests a retry delay. *)
Definition noHints (env : nat -> Attempt) : Prop :=
  forall n, match reply (env n) with
            | Http _ (Some _) _ => False
            | _ => True
            end.


(** [queueMessage] does not skip the job. *)
Definition queueable (job : Job) : bool :=
  truthyStr (job_body job)
  && negb (List.length (trim (orStr (job_body job) [])) <? 3)%nat.



(** The schedule of a list of timed [queueMessage] calls. *)
Definition enqueueAll (tjs : list (Z * Job)) : list (Z * Event) :=
  map (fun tj => (fst tj, Enqueue (snd tj))) tjs.

(** *** Example data *)

Definition job (qid text : string) : Job :=
  mkJob (js qid) (Some (js text)) (js "Alice") (js "Partners") true None
        (Some (fun _ _ => Returned)).

Definition jobA : Job := job "q_1" "Is the report done?".
Definition jobB : Job := job "q_2" "Can you send me the invoice ASAP?".

(** An instance with two jobs queued. *)
Definition twoQueued : State := withQueue (new true) [jobA; jobB].

(** The service throttles every attempt and suggests no delay. *)
Definition throttled : nat -> Attempt :=
  fun _ => mkAttempt 200 (Http 429 None ApiError).

(** The service answers the first attempt with an array of one element. *)
Definition oneItem : RawItem :=
  mkRawItem (Some (js "question")) (Some (js "yes_no")) (Some (js "normal"))
            (Some (9 # 10)) true (Some (js "report status")).
Definition shortArray : nat -> Attempt :=
  fun _ => mkAttempt 200 (Http 200 None (Text (Some (IsArray [Some oneItem])))).

(** The service throttles the first attempt, suggesting to try again in two
    seconds, and answers the second. *)
Definition hinted : nat -> Attempt :=
  fun n => match n with
           | O => mkAttempt 200 (Http 429 (Some 2%Q) ApiError)
           | _ => mkAttempt 300 (Http 200 None (Text (Some (IsArray [Some oneItem]))))
           end.

(** Ten messages queued within one second. *)
Definition nineJobs : list (Z * Job) :=
  [(1000000, job "q_1" "Is the report done?");
   (1000100, job "q_2" "Can you send me the invoice ASAP?");
   (1000200, job "q_3" "When is the meeting?");
   (1000300, job "q_4" "Any update on the contract?");
   (1000400, job "q_5" "Who owns the onboarding deck?");
   (1000500, job "q_6" "Is this ready to ship?");
   (1000600, job "q_7" "Where do we stand on pricing?");
   (1000700, job "q_8" "Could someone review the draft?");
   (1000800, job "q_9" "What do you think about the logo?")].
Definition tenthJob : Job := job "q_10" "Should we move the launch?".

End AIClassifier.

(* ================================================================== *)
(** ** Notions used to state further properties of the analyzer *)
(* ================================================================== *)

Module AnalyzerNotions.
Import JS Regex Analyzer.
Local Open Scope string_scope.
Local Open Scope list_scope.

(** A pattern none of whose character classes tells an upper-case letter
    from its lower-case form. *)
Inductive caseBlind : re -> Prop :=
| cb_Eps : caseBlind Eps
| cb_Chr c : caseBlind (Chr c)
| cb_Cls p : (forall c, p (lowerChar c) = p c) -> caseBlind (Cls p)
| cb_Seq a b : caseBlind a -> caseBlind b -> caseBlind (Seq a b)
| cb_Alt a b : caseBlind a -> caseBlind b -> caseBlind (Alt a b)
| cb_Star a : caseBlind a -> caseBlind (Star a)
| cb_Bow : caseBlind Bow
| cb_Bol : caseBlind Bol
| cb_Eol : caseBlind Eol.

(** The message with its body and quoted body in lower case. *)
Definition lowerBodies (message : Message) : Message :=
  mkMessage (fromMe message) (option_map toLowerCase (body message))
            (mentionedIds message) (hasQuotedMsg message)
            (option_map toLowerCase (quotedBody message)).

End AnalyzerNotions.

(* ================================================================== *)
(** ** Notions used to state further properties of the store *)
(* ================================================================== *)

Module StoreNotions.
Import JS Analyzer Store.
Local Open Scope string_scope.
Local Open Scope list_scope.

(** The question is open in the chat of the message. *)
Definition pendingIn (a : AnswerCheck) (q : QuestionRow) : bool :=
  jstr_eqb (chat_id q) (chatId a) && Status_eqb (status q) open.

Section CheckFrame.

Variable a : AnswerCheck.
Variable pend : list jstr.

(** What [checkForAnswers] may have done to a question. *)
Definition touched (q q' : QuestionRow) : Prop :=
  id q' = id q
  /\ (q' = q \/ (In (id q) pend /\ status q' = answered)).

(** What holds of a candidate [checkForAnswers] records. *)
Definition recorded (c : CandidateRow) : Prop :=
  cand_chat_id c = chatId a
  /\ In (question_id c) pend
  /\ 2 # 10 <= cand_confidence c
  /\ is_accepted c = Qle_bool (5 # 10) (cand_confidence c).

(** What holds of the tables while [checkForAnswers] runs, [db0] being the
    tables it found. *)
Definition checkInv (db0 db : DB) : Prop :=
  Forall2 touched (questions db0) (questions db)
  /\ exists added, answer_candidates db = answer_candidates db0 ++ added
                   /\ Forall recorded added.

End CheckFrame.

(** What [acceptAnswerCandidate] does to a candidate row, [qc] being the
    question of the accepted candidate. *)
Definition acceptMark (cid qc : jstr) (x : CandidateRow) : CandidateRow :=
  if jstr_eqb (cand_id x) cid then setAccepted true x
  else if jstr_eqb (question_id x) qc then setAccepted false x
  else x.

End StoreNotions.

(* ================================================================== *)
(** ** The AIClassifier class: classification on demand *)
(* ================================================================== *)

Module OnDemand.
Import JS Analyzer.
Import Store(AIResult, mkAIResult).
Import AIClassifier.
Local Open Scope string_scope.
Local Open Scope list_scope.
Local Open Scope Z_scope.

(** [classifyOne(body, opts)] started at [now]; [m] is the message object
    it builds. *)
Definition classifyOne {M : Type} (env : nat -> Attempt) (m : M) (st : State)
           (now : Z) : option AIResult * CallOutcome :=
  if negb (enabled st) then (None, mkCallOutcome [] st now [])
  else
    let out := _callAPI env [m] st now in
    (match results out with
     | Some r :: _ => Some r
     | _ => None
     end, out).

(** The loop of [classifyBatch]; [rest] is [messages.slice(i)], [call] the
    number of chunks sent so far, and [envs call] what the attempts of the
    next call meet.  [fuel] bounds the iterations: the loop does not end
    when [batchSize] is 0. *)
Fixpoint chunkLoop {M : Type} (envs : nat -> nat -> Attempt) (fuel call : nat)
         (rest : list M) (st : State) (now : Z)
         (acc : list (option AIResult)) (posted : list (nat * Z))
  : option CallOutcome :=
  match rest with
  | [] => Some (mkCallOutcome acc st now posted)
  | _ :: _ =>
      match fuel with
      | O => None
      | S fuel' =>
          let chunk := firstn (batchSize st) rest in
          let out := _callAPI (envs call) chunk st now in
          let st' := call_state out in
          let rest' := skipn (batchSize st) rest in
          let now' := match rest' with
                      | [] => call_end out
                      | _ :: _ => _waitForRateLimit st' (call_end out)
                      end in
          chunkLoop envs fuel' (S call) rest' st' now'
                    (acc ++ results out) (posted ++ posts out)
      end
  end.

(** [classifyBatch(messages)] started at [now]. *)
Definition classifyBatch {M : Type} (envs : nat -> nat -> Attempt)
           (messages : list M) (st : State) (now : Z) : option CallOutcome :=
  if negb (enabled st) then Some (mkCallOutcome [] st now [])
  else chunkLoop envs (List.length messages) 0 messages st now [] [].

(** *** Callbacks that reject with nothing

    [callBack] takes a callback that throws to throw a value that has
    properties, as an Error is.  A callback can also throw, or reject with,
    [null] or [undefined]: reading [err.message] then throws in the inner
    [catch], so that the outer [catch] of [_processBatch] counts an error
    and the loop over the batch ends there.  [nullish item result] says
    that what the callback of [item] throws when called with [result] is
    [null] or [undefined]. *)
Fixpoint callBackAll (nullish : Job -> AIResult -> bool) (batch : list Job)
         (i : nat) (results : list (option AIResult)) (st : State)
         (calls : list Invocation) : State * list Invocation :=
  match batch with
  | [] => (st, calls)
  | item :: rest =>
      match nth_error results i, onClassified item with
      | Some (Some result), Some cb =>
          let calls := calls ++ [(job_id item, Some result)] in
          match cb (job_id item) result with
          | Returned =>
              callBackAll nullish rest (S i) results (countClassified st) calls
          | Threw =>
              if nullish item result then (countError st, calls)
              else callBackAll nullish rest (S i) results st calls
          end
      | _, _ => callBackAll nullish rest (S i) results st calls
      end
  end.

(** [_processBatch] from its first [await] on, with such callbacks;
    [took] is the time the awaited callbacks take, so that the clock read
    for the follow-up run is that much later than the end of the call. *)
Definition finishBatchAll (nullish : Job -> AIResult -> bool) (took : Z)
           (env : nat -> Attempt) (batch : list Job) (st : State) (now : Z)
  : BatchOutcome :=
  let out := _callAPI env batch st now in
  let '(st, calls) :=
    callBackAll nullish batch 0 (results out) (call_state out) [] in
  let st := withProcessing st false in
  let now := call_end out + took in
  mkBatchOutcome st now (posts out) calls
    (if (0 <? List.length (queue st))%nat
     then Some (Z.max 200 (rateLimitDelayMs st - (now - lastRequestTime st)))
     else None).

(** *** Notions used to state further properties of the classifier *)

(** The two batches have the same jobs but for what their callbacks do:
    the same ids in the same order, a callback in one where there is one in
    the other. *)
Definition sameJobs (b b' : list Job) : Prop :=
  Forall2 (fun j j' => job_id j = job_id j'
                       /\ (onClassified j = None <-> onClassified j' = None)) b b'.

(** The jobs that the [queueMessage] calls of a schedule append to the
    queue of an instance. *)
Definition accepted (st : State) (sched : list (Z * Event)) : list Job :=
  if enabled st
  then flat_map (fun te => match snd te with
                           | Enqueue job => if queueable job then [job] else []
                           | TimerFires => []
                           end) sched
  else [].

(** A job whose callback throws. *)
Definition jobThrows : Job :=
  mkJob (js "q_1") (Some (js "Is the report done?")) (js "Alice") (js "Partners")
        true None (Some (fun _ _ => Threw)).

(** The batch a call dispatches, if it dispatches one. *)
Definition batchOf (d : option (list Job)) : list Job :=
  match d with Some b => b | None => [] end.

End OnDemand.

(* ================================================================== *)
(** ** The Store class: per-group tracking settings *)
(* ================================================================== *)

Module GroupSettings.
Import JS Analyzer.
Local Open Scope string_scope.
Local Open Scope list_scope.

(** A settings object [{ analytics, mentions, questions }], each property
    by its truthiness (a missing property is falsy). *)
Record Settings : Type := mkSettings {
  analytics : bool;
  mentions : bool;
  questions_on : bool      (* property [questions] *)
}.

(** A row of the table [groups], by the columns the settings write. *)
Record GroupRow : Type := mkGroupRow { g_chat_id : jstr; is_ignored : bool }.

(** [this._cache.groupSettings] (an object: its keys in insertion order),
    [this._cache.ignoredGroups] (a Set), the value stored under the key
    [group_settings] of the table [app_settings], and the table [groups]. *)
Record Tracking : Type := mkTracking {
  groupSettings : list (jstr * Settings);
  ignoredGroups : list jstr;
  saved : option (list (jstr * Settings));
  groups : list GroupRow
}.

Definition allOn : Settings := mkSettings true true true.
Definition allOff : Settings := mkSettings false false false.

(** [obj[chatId]] *)
Fixpoint lookup (chatId : jstr) (obj : list (jstr * Settings)) : option Settings :=
  match obj with
  | [] => None
  | (k, v) :: obj' => if jstr_eqb k chatId then Some v else lookup chatId obj'
  end.

(** [obj[chatId] = v]: an existing key keeps its place, a new one comes
    last. *)
Fixpoint assign (chatId : jstr) (v : Settings) (obj : list (jstr * Settings))
  : list (jstr * Settings) :=
  match obj with
  | [] => [(chatId, v)]
  | (k, v0) :: obj' =>
      if jstr_eqb k chatId then (k, v) :: obj'
      else (k, v0) :: assign chatId v obj'
  end.

Definition getGroupSettings (chatId : jstr) (t : Tracking) : Settings :=
  match lookup chatId (groupSettings t) with
  | Some s => s
  | None => allOn
  end.

Definition fullyOff (s : Settings) : bool :=
  negb (analytics s) && negb (mentions s) && negb (questions_on s).

Definition _rebuildIgnoredSet (t : Tracking) : Tracking :=
  mkTracking (groupSettings t)
             (map fst (filter (fun e => fullyOff (snd e)) (groupSettings t)))
             (saved t) (groups t).

(** [_setSetting('group_settings', this._cache.groupSettings)] *)
Definition saveGroupSettings (t : Tracking) : Tracking :=
  mkTracking (groupSettings t) (ignoredGroups t) (Some (groupSettings t))
             (groups t).

Definition withGroupSettings (t : Tracking) (obj : list (jstr * Settings))
  : Tracking :=
  mkTracking obj (ignoredGroups t) (saved t) (groups t).

(** [settings[category] = enabled]; a category other than the three adds a
    property that nothing reads. *)
Definition setCategory (category : jstr) (enabled : bool) (s : Settings)
  : Settings :=
  if jstr_eqb category (js "analytics")
  then mkSettings enabled (mentions s) (questions_on s)
  else if jstr_eqb category (js "mentions")
  then mkSettings (analytics s) enabled (questions_on s)
  else if jstr_eqb category (js "questions")
  then mkSettings (analytics s) (mentions s) enabled
  else s.

Definition setGroupCategorySetting (chatId category : jstr) (enabled : bool)
           (t : Tracking) : Tracking :=
  let obj := match lookup chatId (groupSettings t) with
             | Some _ => groupSettings t
             | None => assign chatId allOn (groupSettings t)
             end in
  let obj := match lookup chatId obj with
             | Some s => assign chatId (setCategory category enabled s) obj
             | None => obj
             end in
  saveGroupSettings (_rebuildIgnoredSet (withGroupSettings t obj)).

Definition setGroupAllSettings (chatId : jstr) (settings : Settings)
           (t : Tracking) : Tracking :=
  saveGroupSettings
    (_rebuildIgnoredSet
       (withGroupSettings t (assign chatId settings (groupSettings t)))).


Definition setGroupIgnored (chatId : jstr) (ignored : bool) (t : Tracking)
  : Tracking :=
  let t := setGroupAllSettings chatId (if ignored then allOff else allOn) t in
  mkTracking (groupSettings t) (ignoredGroups t) (saved t)
             (map (fun g => if jstr_eqb (g_chat_id g) chatId
                            then mkGroupRow (g_chat_id g) ignored else g)
                  (groups t)).


(** The calls that change the settings. *)
Inductive Setter : Type :=
| SetCategory (chatId category : jstr) (enabled : bool)
| SetAll (chatId : jstr) (settings : Settings)
| SetIgnored (chatId : jstr) (ignored : bool).

Definition apply (s : Setter) (t : Tracking) : Tracking :=
  match s with
  | SetCategory chatId category enabled =>
      setGroupCategorySetting chatId category enabled t
  | SetAll chatId settings => setGroupAllSettings chatId settings t
  | SetIgnored chatId ignored => setGroupIgnored chatId ignored t
  end.





End GroupSettings.

(* ================================================================== *)
(** ** The Store class: the activity feed and new questions *)
(* ================================================================== *)

Module Intake.
Import JS Analyzer Store GroupSettings.
Local Open Scope string_scope.
Local Open Scope list_scope.

(** A row of the table [activity_feed] (its [id] is a serial number). *)
Record FeedRow : Type := mkFeedRow {
  f_type : jstr;
  f_chat_id : jstr;
  f_chat_name : jstr;
  f_sender : jstr;
  f_body : jstr;
  f_timestamp : Z;
  f_has_media : bool;
  f_media_type : jstr
}.

(** The argument of [_addToFeed]. *)
Record FeedEntry : Type := mkFeedEntry {
  e_type : jstr;
  e_chatId : jstr;
  e_chatName : option jstr;
  e_sender : option jstr;
  e_body : option jstr;
  e_timestamp : Z;
  e_hasMedia : bool;
  e_mediaType : option jstr
}.

Definition feedRowOf (e : FeedEntry) : FeedRow :=
  mkFeedRow (e_type e) (e_chatId e) (orStr (e_chatName e) [])
            (orStr (e_sender e) (js "Unknown"))
            (substring0 300 (orStr (e_body e) []))
            (e_timestamp e) (e_hasMedia e) (orStr (e_mediaType e) (js "chat")).

(** The rows the duplicate check of [_addToFeed] selects. *)
Definition sameFeedEntry (e : FeedEntry) (r : FeedRow) : bool :=
  jstr_eqb (f_chat_id r) (e_chatId e)
  && jstr_eqb (f_sender r) (orStr (e_sender e) (js "Unknown"))
  && (f_timestamp r =? e_timestamp e)%Z
  && jstr_eqb (f_body r) (substring0 300 (orStr (e_body e) [])).

(** [_addToFeed(entry)]; [admits] stands for the constraints of the table:
    a row it does not admit is not inserted. *)
Definition _addToFeed (admits : FeedRow -> bool) (e : FeedEntry)
           (feed : list FeedRow) : list FeedRow :=
  let existing := firstn 1 (filter (sameFeedEntry e) feed) in
  if (0 <? List.length existing)%nat then feed
  else if admits (feedRowOf e) then feed ++ [feedRowOf e]
  else feed.

(** What the duplicate check compares. *)
Definition feedKey (r : FeedRow) : jstr * jstr * Z * jstr :=
  (f_chat_id r, f_sender r, f_timestamp r, f_body r).

(** [_categorizeQuestion(chatName)] *)
Definition _categorizeQuestion (chatName : option jstr) : jstr :=
  let lower := toLowerCase (orStr chatName []) in
  if includes lower (js "team") then js "team"
  else if includes lower (js "onboarding") then js "onboarding"
  else if includes lower (js "support") || includes lower (js "help")
  then js "support"
  else js "general".

Definition typeName (t : QuestionType) : jstr :=
  match t with
  | yes_no => js "yes_no"
  | info_seeking => js "info_seeking"
  | action_request => js "action_request"
  | opinion => js "opinion"
  | status_check => js "status_check"
  | scheduling => js "scheduling"
  | approval => js "approval"
  | general => js "general"
  end.

Definition priorityName (p : Priority) : jstr :=
  match p with
  | low => js "low"
  | normal => js "normal"
  | high => js "high"
  | urgent => js "urgent"
  end.

(** [.from('questions').insert(row)]; [id] is the primary key, so a row
    whose id is taken is refused. *)
Definition insertQuestion (row : QuestionRow) (db : DB) : DB :=
  if existsb (fun q => jstr_eqb (id q) (id row)) (questions db)
  then db
  else mkDB (questions db ++ [row]) (answer_candidates db).

(** The argument of [addQuestion]. *)
Record NewQuestion : Type := mkNewQuestion {
  n_chatId : jstr;
  n_chatName : jstr;
  n_sender : option jstr;
  n_body : option jstr;
  n_timestamp : Z;
  n_hasMedia : bool;
  n_mediaType : option jstr;
  n_msgId : option jstr;
  n_questionAnalysis : option QuestionAnalysis
}.

(** The row [addQuestion] inserts; the columns it does not name take
    their defaults. *)
Definition questionRowOf (newId : jstr) (n : NewQuestion) : QuestionRow :=
  let qa := n_questionAnalysis n in
  mkQuestionRow newId (n_chatId n) (n_chatName n)
    (orStr (n_sender n) (js "Unknown"))
    (substring0 500 (orStr (n_body n) []))
    (n_timestamp n)
    (if truthyStr (n_msgId n) then n_msgId n else None)
    (match qa with Some a => directedAtMe a | None => false end)
    open
    (match qa with Some a => priorityName (Analyzer.priority a) | None => js "normal" end)
    (match qa with Some a => typeName (questionType a) | None => js "general" end)
    (match qa with Some a => Analyzer.keywords a | None => [] end)
    (_categorizeQuestion (Some (n_chatName n)))
    (n_hasMedia n)
    (orStr (n_mediaType n) (js "chat"))
    None None None None None None false None None false
    (js "regex") None None None None.

(** The tables [addQuestion] reads and writes. *)
Record World : Type := mkWorld {
  tracking : Tracking;
  db : DB;
  feed : list FeedRow
}.

(** [addQuestion(n)]; [newId] is the id it generates.  The result is the
    id returned, or [None] for [null]. *)
Definition addQuestion (admits : FeedRow -> bool) (newId : jstr) (n : NewQuestion)
           (w : World) : option jstr * World :=
  if truthyStr (Some (n_chatId n)) && endsWith (n_chatId n) (js "@g.us")
     && negb (questions_on (getGroupSettings (n_chatId n) (tracking w)))
  then (None, w)
  else
    (Some newId,
     mkWorld (tracking w)
             (insertQuestion (questionRowOf newId n) (db w))
             (_addToFeed admits
                (mkFeedEntry (js "question") (n_chatId n) (Some (n_chatName n))
                             (n_sender n)
                             (Some (substring0 300 (orStr (n_body n) [])))
                             (n_timestamp n) (n_hasMedia n)
                             (Some (orStr (n_mediaType n) (js "chat"))))
                (feed w))).

(** The [messageRow] argument of [promoteMessageToQuestion]. *)
Record MessageRow : Type := mkMessageRow {
  m_chat_id : jstr;
  m_chat_name : jstr;
  m_sender : option jstr;
  m_body : option jstr;
  m_timestamp : Z;
  m_id : option jstr
}.

Definition promotedRowOf (newId : jstr) (m : MessageRow) (r : AIResult)
  : QuestionRow :=
  mkQuestionRow newId (m_chat_id m) (m_chat_name m)
    (orStr (m_sender m) (js "Unknown"))
    (substring0 500 (orStr (m_body m) []))
    (m_timestamp m)
    (if truthyStr (m_id m) then m_id m else None)
    false
    open
    (orJ (ai_priority r) (js "normal"))
    (orStr (ai_questionType r) (js "general"))
    []
    (_categorizeQuestion (Some (m_chat_name m)))
    false
    (js "chat")
    None None None None None None false None None false
    (js "ai") (Some (ai_conf r)) (Some (js "question")) (Some (summary r))
    (Some (isActionable r)).

(** [promoteMessageToQuestion(messageRow, aiResult)] *)
Definition promoteMessageToQuestion (newId : jstr) (m : MessageRow) (r : AIResult)
           (d : DB) : jstr * DB :=
  (newId, insertQuestion (promotedRowOf newId m r) d).

End Intake.

(* ================================================================== *)
(** ** The life of a question *)
(* ================================================================== *)

Module Lifecycle.
Import JS Analyzer Store GroupSettings Intake.
Local Open Scope string_scope.
Local Open Scope list_scope.

(** The calls of the store that create or change questions, answer
    candidates or the tracking settings. *)
Inductive Op : Type :=
| Add (newId : jstr) (n : NewQuestion)
| Promote (newId : jstr) (m : MessageRow) (r : AIResult)
| Check (a : AnswerCheck) (clock : Z) (newId : nat -> jstr)
| Answer (questionId : jstr) (answeredBy : option jstr) (now : Z)
| Dismiss (questionId : jstr) (dismissedBy : option jstr) (now : Z)
| Reopen (questionId : jstr)
| Accept (candidateId : jstr)
| Classify (questionId : jstr) (aiResult : option AIResult) (now : Z)
| Configure (s : Setter).

Definition withDb (w : World) (d : DB) : World :=
  mkWorld (tracking w) d (feed w).

Definition perform (admits : FeedRow -> bool) (op : Op) (w : World) : World :=
  match op with
  | Add newId n => snd (addQuestion admits newId n w)
  | Promote newId m r => withDb w (snd (promoteMessageToQuestion newId m r (db w)))
  | Check a clock newId => withDb w (checkForAnswers a clock newId (db w))
  | Answer questionId answeredBy now =>
      withDb w (markQuestionAnswered questionId answeredBy now (db w))
  | Dismiss questionId dismissedBy now =>
      withDb w (dismissQuestion questionId dismissedBy now (db w))
  | Reopen questionId => withDb w (reopenQuestion questionId (db w))
  | Accept candidateId => withDb w (acceptAnswerCandidate candidateId (db w))
  | Classify questionId aiResult now =>
      withDb w (updateQuestionAIClassification questionId aiResult now (db w))
  | Configure s => mkWorld (GroupSettings.apply s (tracking w)) (db w) (feed w)
  end.

Fixpoint performAll (admits : FeedRow -> bool) (ops : list Op) (w : World) : World :=
  match ops with
  | [] => w
  | op :: ops' => performAll admits ops' (perform admits op w)
  end.

(** The columns that say what was asked, by whom, where and when. *)
Record Asked : Type := mkAsked {
  a_id : jstr;
  a_chat_id : jstr;
  a_chat_name : jstr;
  a_sender : jstr;
  a_body : jstr;
  a_timestamp : Z;
  a_msg_id : option jstr;
  a_directed_at_me : bool;
  a_keywords : list jstr;
  a_category : jstr;
  a_has_media : bool;
  a_media_type : jstr
}.

Definition asked (q : QuestionRow) : Asked :=
  mkAsked (id q) (chat_id q) (chat_name q) (sender q) (body q) (timestamp q)
          (msg_id q) (directed_at_me q) (keywords q) (category q) (has_media q)
          (media_type q).

(** The columns of a row agree with its status: an open question carries
    no trace of an answer or a dismissal; an answered one says when, how
    surely and why; a dismissed one is flagged and says by whom and when. *)
Definition consistent (q : QuestionRow) : Prop :=
  match status q with
  | open =>
      answered_by q = None /\ answered_at q = None
      /\ answer_confidence q = None /\ answer_reason q = None
      /\ answer_preview q = None /\ answer_id q = None
      /\ dismissed_flag q = false /\ dismissed_by q = None
      /\ dismissed_at q = None /\ manually_resolved q = false
  | answered =>
      answered_at q <> None /\ answer_confidence q <> None
      /\ answer_reason q <> None
  | dismissed =>
      dismissed_flag q = true /\ dismissed_by q <> None /\ dismissed_at q <> None
  end.

(** A candidate but for its acceptance. *)
Definition proposed (c : CandidateRow) : CandidateRow := setAccepted false c.

(** What the life of a question keeps of it: what was asked, and the
    agreement of its columns with its status. *)
Definition keeps (q q' : QuestionRow) : Prop :=
  asked q' = asked q /\ (consistent q -> consistent q').

(** The table [questions] before and after: the rows there were are kept,
    in their order, rows are added after them, and distinct ids stay
    distinct. *)
Definition grows (l l' : list QuestionRow) : Prop :=
  exists kept added,
    l' = kept ++ added
    /\ Forall2 keeps l kept
    /\ Forall consistent added
    /\ (NoDup (map id l) -> NoDup (map id l')).

(** The table [answer_candidates] before and after: but for their
    acceptance the rows there were are as they were, rows are added after
    them, and distinct ids stay distinct. *)
Definition collects (cs cs' : list CandidateRow) : Prop :=
  exists added,
    map proposed cs' = map proposed cs ++ map proposed added
    /\ (NoDup (map cand_id cs) -> NoDup (map cand_id cs')).

(** A day in the life of a question: asked, answered by the chat, reopened,
    dismissed by the classifier, reopened and answered by hand. *)
Definition aDay : list Op :=
  [Add (js "q_1")
       (mkNewQuestion (js "g1@g.us") (js "Partners") (Some (js "Alice"))
                      (Some (js "Is the report done?")) 1000000 false None None
                      None);
   Check (message "Bob" "yes it is done" 1060000) 0 (fun _ => js "ac_1");
   Reopen (js "q_1");
   Classify (js "q_1") (Some lateVerdict) 1200000;
   Configure (SetIgnored (js "g1@g.us") true);
   Add (js "q_2")
       (mkNewQuestion (js "g1@g.us") (js "Partners") (Some (js "Carol"))
                      (Some (js "When is the meeting?")) 1300000 false None None
                      None);
   Reopen (js "q_1");
   Accept (js "ac_1")].

Definition emptyWorld : World :=
  mkWorld (mkTracking [] [] None []) (mkDB [] []) [].

End Lifecycle.

(* ================================================================== *)
(** ** Properties of the analyzer *)
(* ================================================================== *)

Module AnalyzerFacts.
Import JS Regex Analyzer.
Local Open Scope string_scope.
Local Open Scope list_scope.

Lemma jstr_eqb_eq (a b : jstr) : jstr_eqb a b = true <-> a = b.
Proof.
  unfold jstr_eqb. destruct (list_eq_dec N.eq_dec a b); split; congruence.
Qed.

Lemma jstr_eqb_refl (a : jstr) : jstr_eqb a a = true.
Proof. apply jstr_eqb_eq. reflexivity. Qed.

Lemma jstr_eqb_neq (a b : jstr) : jstr_eqb a b = false <-> a <> b.
Proof.
  unfold jstr_eqb. destruct (list_eq_dec N.eq_dec a b); split; congruence.
Qed.

Lemma optStr_eqb_eq (a b : option jstr) : optStr_eqb a b = true <-> a = b.
Proof.
  destruct a as [x|], b as [y|]; simpl; try (split; congruence).
  rewrite jstr_eqb_eq. split; congruence.
Qed.

Lemma optStr_eqb_neq (a b : option jstr) : optStr_eqb a b = false <-> a <> b.
Proof.
  rewrite <- optStr_eqb_eq. destruct (optStr_eqb a b); split; congruence.
Qed.

(** The other examples of the specification. *)
Example report_done_is_yes_no :
  option_map questionType (classify "Is the report done?") = Some yes_no.
Proof. vm_compute. reflexivity. Qed.

Example reactions_are_not_questions :
  classify "lol" = None /\ classify "thanks" = None /\ classify "??" = None.
Proof. vm_compute. repeat split. Qed.

Example meeting_is_scheduling :
  option_map questionType (classify "When is the meeting?") = Some scheduling.
Proof. vm_compute. reflexivity. Qed.

Example action_request_after_a_greeting :
  option_map questionType (classify "hey team, can you send me the invoice?")
  = Some action_request.
Proof. vm_compute. reflexivity. Qed.

(** C2, as the code has it: whatever the chat context (tracked name, the
    other fields of the message, own ids, group or direct chat), the text
    "Can you send me the invoice ASAP?" is a question of type [yes_no] (the
    yes/no starters are tested first and "can" is one of them) with
    priority [urgent]. *)
Theorem invoice_asap_is_urgent_yes_no :
  forall (this : Analyzer) (fromMe : bool) (mentionedIds : option (list jstr))
         (hasQuotedMsg : bool) (quotedBody : option jstr)
         (myId myLid : option jstr) (isGroupChat : bool),
    let message := mkMessage fromMe (Some invoiceText) mentionedIds
                             hasQuotedMsg quotedBody in
    exists qa,
      analyzeQuestion this message myId myLid isGroupChat = Some qa
      /\ questionType qa = yes_no
      /\ priority qa = urgent.
Proof.
  intros this fm mids hq qb myId myLid grp message.
  unfold analyzeQuestion.
  assert (Hbody : trim (orStr (body message) []) = invoiceText)
    by (vm_compute; reflexivity).
  rewrite Hbody.
  assert (Hlen : (List.length invoiceText <? 3)%nat = false) by reflexivity.
  assert (Hnq : _isNonQuestion invoiceText = false) by (vm_compute; reflexivity).
  assert (Hty : _classifyQuestionType invoiceText = Some yes_no)
    by (vm_compute; reflexivity).
  rewrite Hlen, Hnq, Hty.
  eexists. split; [reflexivity|]. split; [reflexivity|].
  cbn [priority].
  unfold _classifyPriority, priorityScore.
  assert (Hu : test urgentWords (toLowerCase invoiceText) = true)
    by (vm_compute; reflexivity).
  assert (Hh : test highWords (toLowerCase invoiceText) = false)
    by (vm_compute; reflexivity).
  assert (Hl : test lowWords (toLowerCase invoiceText) = false)
    by (vm_compute; reflexivity).
  rewrite Hu, Hh, Hl.
  destruct (_isDirectedAtMe this message myId myLid grp); reflexivity.
Qed.

(** C2 as stated fails: with no chat context the question type is not
    [action_request]. *)
Lemma invoice_asap_not_action_request :
  option_map questionType (classify "Can you send me the invoice ASAP?")
  = Some yes_no
  /\ option_map questionType (classify "Can you send me the invoice ASAP?")
     <> Some action_request.
Proof. vm_compute. split; [reflexivity|discriminate]. Qed.

(** C10: a message with [fromMe] set gets the all-negative result, whatever
    its body, the chat type and the mention ids. *)
Theorem analyze_own_message :
  forall (this : Analyzer) (message : Message) (myId myLid : option jstr)
         (isGroupChat : bool),
    fromMe message = true ->
    analyze this message myId myLid isGroupChat
    = mkAnalysis false false false false None.
Proof.
  intros this message myId myLid grp H. unfold analyze. rewrite H. reflexivity.
Qed.

Lemma analyze_own_message_witness :
  analyze (setTrackName (Some (js "Austin Smith")))
          (mkMessage true (Some (js "Austin, can you approve this?"))
                     (Some [js "15550001111@c.us"]) false None)
          (Some (js "15550001111@c.us")) None true
  = mkAnalysis false false false false None.
Proof.
  apply (analyze_own_message
           (setTrackName (Some (js "Austin Smith")))
           (mkMessage true (Some (js "Austin, can you approve this?"))
                      (Some [js "15550001111@c.us"]) false None)
           (Some (js "15550001111@c.us")) None true).
  reflexivity.
Defined.

Lemma fst_signal9 (aBody : jstr) (acc : Acc) :
  fst (signal9 aBody acc) == fst acc + fst (signal9 aBody (0, [])).
Proof.
  unfold signal9, addSignal.
  destruct (100 <? List.length aBody)%nat; [simpl; ring|].
  destruct (30 <? List.length aBody)%nat; simpl; ring.
Qed.

Lemma fst_signal10 (question : Question) (aBody : jstr) (acc : Acc) :
  fst (signal10 question aBody acc)
  == fst acc + fst (signal10 question aBody (0, [])).
Proof.
  unfold signal10, addSignal.
  destruct (Qltb 0 (_questionTypeAnswerMatch (q_questionType question) aBody));
    simpl; ring.
Qed.

Lemma fst_late_signals (question : Question) (candidateMsg : Candidate) (acc : Acc) :
  fst (signal10 question (aBodyOf candidateMsg)
                (signal9 (aBodyOf candidateMsg) acc))
  == fst acc + afterSelfReply question candidateMsg.
Proof.
  unfold afterSelfReply. cbv zeta.
  rewrite fst_signal10, fst_signal9.
  rewrite (fst_signal10 question (aBodyOf candidateMsg)
                        (signal9 (aBodyOf candidateMsg) (0, []))).
  ring.
Qed.

Lemma beforeSelfReply_sender_free (question : Question) (a b : Candidate) (o : Options) :
  c_body b = c_body a ->
  beforeSelfReply question b (withoutManager o) = beforeSelfReply question a o.
Proof.
  intro H. unfold beforeSelfReply, aBodyOf. rewrite H. reflexivity.
Qed.

Lemma Qmax_cases (a b : Q) : (Qmax a b = a /\ b <= a) \/ (Qmax a b = b /\ a <= b).
Proof.
  unfold Qmax. destruct (Qle_bool a b) eqn:E.
  - right. split; [reflexivity|]. now apply Qle_bool_iff.
  - left. split; [reflexivity|]. apply Qlt_le_weak. apply Qnot_le_lt.
    intro H. apply Qle_bool_iff in H. congruence.
Qed.

Lemma Qmin_cases (a b : Q) : (Qmin a b = a /\ a <= b) \/ (Qmin a b = b /\ b <= a).
Proof.
  unfold Qmin. destruct (Qle_bool a b) eqn:E.
  - left. split; [reflexivity|]. now apply Qle_bool_iff.
  - right. split; [reflexivity|]. apply Qlt_le_weak. apply Qnot_le_lt.
    intro H. apply Qle_bool_iff in H. congruence.
Qed.

Lemma clamp01_eq (x y : Q) : x == y -> clamp01 x == clamp01 y.
Proof.
  intro H. unfold clamp01.
  destruct (Qmin_cases 1 x) as [[E1 H1]|[E1 H1]]; rewrite E1;
    destruct (Qmin_cases 1 y) as [[E2 H2]|[E2 H2]]; rewrite E2;
    match goal with
    | |- Qmax 0 ?a == Qmax 0 ?b =>
        destruct (Qmax_cases 0 a) as [[E3 H3]|[E3 H3]]; rewrite E3;
        destruct (Qmax_cases 0 b) as [[E4 H4]|[E4 H4]]; try rewrite E4
    end; lra.
Qed.

(** Rounding to two decimals moves a number by at most half a hundredth. *)
Lemma round2_near (x : Q) : x - (1 # 200) < round2 x <= x + (1 # 200).
Proof.
  unfold round2, Math_round.
  pose proof (Qfloor_le (x * 100 + (1 # 2))) as Hle.
  pose proof (Qlt_floor (x * 100 + (1 # 2))) as Hlt.
  rewrite inject_Z_plus in Hlt.
  set (n := inject_Z (Qfloor (x * 100 + (1 # 2)))) in *.
  change (inject_Z 1) with 1 in Hlt.
  split.
  - apply Qlt_shift_div_l; [reflexivity|]. lra.
  - apply Qle_shift_div_r; [reflexivity|]. lra.
Qed.

(** In exact arithmetic the penalty scales the total of the six signals
    before it and nothing else. *)
Lemma self_reply_totals (question : Question) (self other : Candidate) (o : Options) :
  c_sender self = q_sender question ->
  c_sender other <> q_sender question ->
  c_body other = c_body self ->
  fst (allSignals question self o)
  == fst (beforeSelfReply question self o) * (3 # 10) + afterSelfReply question self
  /\ fst (allSignals question other (withoutManager o))
     == fst (beforeSelfReply question self o) + afterSelfReply question self.
Proof.
  intros Hself Hother Hbody.
  assert (Hab : aBodyOf other = aBodyOf self) by (unfold aBodyOf; now rewrite Hbody).
  split.
  - unfold allSignals. cbv zeta.
    rewrite fst_late_signals.
    unfold signal8, signal7.
    apply optStr_eqb_eq in Hself. rewrite Hself.
    rewrite andb_false_r. simpl. reflexivity.
  - unfold allSignals. cbv zeta.
    rewrite fst_late_signals.
    unfold signal8, signal7.
    apply optStr_eqb_neq in Hother. rewrite Hother. simpl.
    rewrite (beforeSelfReply_sender_free question self other o Hbody).
    unfold afterSelfReply. rewrite Hab. reflexivity.
Qed.

(** The confidence is the clamped total up to the rounding to two
    decimals. *)
Lemma confidence_near (question : Question) (c : Candidate) (o : Options) (t : Q) :
  aBodyOf c <> [] ->
  fst (allSignals question c o) == t ->
  clamp01 t - (1 # 100) < confidence (scoreAnswer question c o)
  < clamp01 t + (1 # 100).
Proof.
  intros Hne Ht. unfold scoreAnswer.
  destruct (aBodyOf c); [contradiction|]. cbn [confidence].
  pose proof (round2_near (clamp01 (fst (allSignals question c o)))) as Hr.
  pose proof (clamp01_eq _ _ Ht) as Hc.
  split; lra.
Qed.

(** C3, as the code has it: the self-reply penalty multiplies by 0.3 the
    running total of the six signals computed before it ([S] below); the
    signals computed after it (substantive reply and type match, [L] below)
    are added unscaled, and the sum is then clamped to [0,1] and rounded to
    two decimals.  So the confidence of a self-reply lies within a
    hundredth of [0.3 * S + L] clamped, and that of the same candidate from
    another sender, the manager-reply signal excluded, within a hundredth of
    [S + L] clamped.  The bound is stated with this margin because the code
    adds and rounds IEEE doubles where the model has exact rationals: at a
    rounding boundary the last digit of the two can differ. *)
Theorem self_reply_scales_earlier_signals_only :
  forall (question : Question) (self other : Candidate) (o : Options),
    c_sender self = q_sender question ->
    c_sender other <> q_sender question ->
    c_body other = c_body self ->
    aBodyOf self <> [] ->
    let S := fst (beforeSelfReply question self o) in
    let L := afterSelfReply question self in
    (clamp01 (S * (3 # 10) + L) - (1 # 100)
     < confidence (scoreAnswer question self o)
     < clamp01 (S * (3 # 10) + L) + (1 # 100))
    /\ (clamp01 (S + L) - (1 # 100)
        < confidence (scoreAnswer question other (withoutManager o))
        < clamp01 (S + L) + (1 # 100)).
Proof.
  intros question self other o Hself Hother Hbody Hne S L.
  destruct (self_reply_totals question self other o Hself Hother Hbody) as [H1 H2].
  split.
  - apply confidence_near; assumption.
  - apply confidence_near; [|assumption].
    unfold aBodyOf in *. now rewrite Hbody.
Qed.

Lemma self_reply_scales_earlier_signals_only_witness :
  clamp01 (fst (beforeSelfReply reportQuestion followUpByAsker defaultOptions)
           * (3 # 10) + afterSelfReply reportQuestion followUpByAsker) - (1 # 100)
  < confidence (scoreAnswer reportQuestion followUpByAsker defaultOptions)
  < clamp01 (fst (beforeSelfReply reportQuestion followUpByAsker defaultOptions)
             * (3 # 10) + afterSelfReply reportQuestion followUpByAsker) + (1 # 100).
Proof.
  refine (proj1 (self_reply_scales_earlier_signals_only
                   reportQuestion followUpByAsker followUpByOther defaultOptions
                   _ _ _ _)).
  - reflexivity.
  - intro H. discriminate H.
  - reflexivity.
  - intro H. vm_compute in H. discriminate H.
Defined.

(** C3 as stated fails: the asker's own follow-up scores 0.36, which is more
    than 0.3 times the 0.84 the same text scores from someone else. *)
Lemma self_reply_bound_fails :
  confidence (scoreAnswer reportQuestion followUpByAsker defaultOptions) == 36 # 100
  /\ confidence (scoreAnswer reportQuestion followUpByOther
                             (withoutManager defaultOptions)) == 84 # 100
  /\ ~ (confidence (scoreAnswer reportQuestion followUpByAsker defaultOptions)
        <= (3 # 10) * confidence (scoreAnswer reportQuestion followUpByOther
                                              (withoutManager defaultOptions))).
Proof.
  split; [vm_compute; reflexivity|].
  split; [vm_compute; reflexivity|].
  vm_compute. intro H. apply H. reflexivity.
Qed.

End AnalyzerFacts.

(* ================================================================== *)
(** ** Properties of the question lifecycle *)
(* ================================================================== *)

Module StoreFacts.
Import JS Analyzer Store.
Import AnalyzerFacts.
Local Open Scope string_scope.
Local Open Scope list_scope.

Lemma questions_updateQuestion (qid : jstr) (f : QuestionRow -> QuestionRow) (db : DB) :
  questions (updateQuestion qid f db)
  = map (fun q => if jstr_eqb (id q) qid then f q else q) (questions db).
Proof. reflexivity. Qed.

Lemma Forall2_map_self {A : Type} (R : A -> A -> Prop) (g : A -> A) (l : list A) :
  (forall x, In x l -> R x (g x)) -> Forall2 R l (map g l).
Proof.
  induction l as [|x l IH]; intro H; simpl; constructor.
  - apply H. now left.
  - apply IH. intros y Hy. apply H. now right.
Qed.

(** C9: [reopenQuestion] sets the status of the question to open, clears
    every answer and dismissal column (answeredBy, answeredAt,
    answerConfidence, answerReason, answerId and the answer preview;
    dismissed, dismissedBy, dismissedAt) and manuallyResolved, and leaves
    every other column of the question (id, chat, sender, body, timestamp,
    priority, question type, keywords and the rest), every other question
    and every answer candidate as they were. *)
Theorem reopen_clears_and_keeps :
  forall (questionId : jstr) (db : DB),
    answer_candidates (reopenQuestion questionId db) = answer_candidates db
    /\ Forall2
         (fun q q' =>
            if jstr_eqb (id q) questionId then
              (status q' = open
               /\ answered_by q' = None /\ answered_at q' = None
               /\ answer_confidence q' = None /\ answer_reason q' = None
               /\ answer_id q' = None /\ dismissed_flag q' = false
               /\ dismissed_by q' = None /\ dismissed_at q' = None
               /\ manually_resolved q' = false
               /\ answer_preview q' = None)
              /\ (id q' = id q /\ chat_id q' = chat_id q
                  /\ chat_name q' = chat_name q /\ sender q' = sender q
                  /\ body q' = body q /\ timestamp q' = timestamp q
                  /\ msg_id q' = msg_id q /\ directed_at_me q' = directed_at_me q
                  /\ priority q' = priority q /\ question_type q' = question_type q
                  /\ keywords q' = keywords q /\ category q' = category q
                  /\ has_media q' = has_media q /\ media_type q' = media_type q
                  /\ classified_by q' = classified_by q
                  /\ ai_confidence q' = ai_confidence q
                  /\ ai_intent q' = ai_intent q /\ ai_summary q' = ai_summary q
                  /\ ai_is_actionable q' = ai_is_actionable q)
            else q' = q)
         (questions db) (questions (reopenQuestion questionId db)).
Proof.
  intros questionId db. split; [reflexivity|].
  unfold reopenQuestion. rewrite questions_updateQuestion.
  apply Forall2_map_self. intros q _.
  destruct (jstr_eqb (id q) questionId); [|reflexivity].
  unfold reopened; simpl. repeat split.
Qed.

(** C4, as the code has it: a result whose intent is not "question" and
    whose confidence is at least 0.8 dismisses the question with actor
    "AI (not a question)" whatever the status of the question, an answered
    or manually accepted one included; the answer columns and the
    manually-resolved flag are kept.  Whatever the result, the update
    leaves the status as it was or sets it to dismissed. *)
Theorem ai_verdict_dismisses :
  forall (questionId : jstr) (r : AIResult) (now : Z) (db : DB),
    intent r <> js "question" ->
    (8 # 10 <= ai_conf r)%Q ->
    Forall2
      (fun q q' =>
         if jstr_eqb (id q) questionId then
           status q' = dismissed /\ dismissed_flag q' = true
           /\ dismissed_by q' = Some (js "AI (not a question)")
           /\ dismissed_at q' = Some now
           /\ answered_by q' = answered_by q /\ answered_at q' = answered_at q
           /\ answer_confidence q' = answer_confidence q
           /\ answer_reason q' = answer_reason q /\ answer_id q' = answer_id q
           /\ manually_resolved q' = manually_resolved q
         else q' = q)
      (questions db)
      (questions (updateQuestionAIClassification questionId (Some r) now db))
    /\ forall (r' : AIResult),
        Forall2 (fun q q' => status q' = status q \/ status q' = dismissed)
                (questions db)
                (questions (updateQuestionAIClassification questionId (Some r')
                                                           now db)).
Proof.
  intros questionId r now db Hintent Hconf. split.
  - unfold updateQuestionAIClassification. rewrite questions_updateQuestion.
    apply Forall2_map_self. intros q _.
    destruct (jstr_eqb (id q) questionId); [|reflexivity].
    apply jstr_eqb_neq in Hintent.
    apply Qle_bool_iff in Hconf.
    unfold aiUpdate. rewrite Hintent, Hconf. simpl. repeat split.
  - intro r'. unfold updateQuestionAIClassification.
    rewrite questions_updateQuestion.
    apply Forall2_map_self. intros q _.
    destruct (jstr_eqb (id q) questionId); [|now left].
    unfold aiUpdate. simpl.
    destruct (negb (jstr_eqb (intent r') (js "question"))
              && Qle_bool (8 # 10) (ai_conf r')); [now right|now left].
Qed.

Lemma ai_verdict_dismisses_witness :
  Forall2 (fun q q' => status q' = status q \/ status q' = dismissed)
          (questions dbAccepted)
          (questions (updateQuestionAIClassification (js "q_1") (Some lateVerdict)
                                                     1200000 dbAccepted)).
Proof.
  apply (ai_verdict_dismisses (js "q_1") lateVerdict 1200000 dbAccepted).
  - intro H. vm_compute in H. discriminate H.
  - vm_compute. intro H. discriminate H.
Defined.

(** C4 as stated fails on "never undoes a human acceptance": the question
    the operator has accepted an answer for is answered and manually
    resolved, and the later verdict of the classifier dismisses it. *)
Lemma ai_verdict_undoes_acceptance :
  map status (questions dbAccepted) = [answered]
  /\ map manually_resolved (questions dbAccepted) = [true]
  /\ map answer_reason (questions dbAccepted) = [Some (DText "manually accepted")]
  /\ map status (questions dbOverridden) = [dismissed].
Proof. vm_compute. repeat split. Qed.

(** C5 at the failing input: Bob's answer is auto-accepted, the question is
    reopened, Carol's answer is auto-accepted; the question then has two
    accepted candidates. *)
Theorem reanswer_after_reopen_two_accepted :
  map cand_id (acceptedFor (js "q_1") db1) = [js "ac_1"]
  /\ map cand_id (acceptedFor (js "q_1") db2) = [js "ac_1"]
  /\ map status (questions db2) = [open]
  /\ map cand_id (acceptedFor (js "q_1") db3) = [js "ac_1"; js "ac_2"]
  /\ map answer_id (questions db3) = [Some (js "ac_2")].
Proof. vm_compute. repeat split. Qed.

Lemma filter_by_unique_id (cs : list CandidateRow) (c : CandidateRow) :
  NoDup (map cand_id cs) -> In c cs ->
  filter (fun x => jstr_eqb (cand_id x) (cand_id c)) cs = [c].
Proof.
  induction cs as [|x cs IH]; intros Hnd Hin; [contradiction|].
  simpl in Hnd. inversion Hnd as [|? ? Hnotin Hnd']; subst.
  assert (Hnone : forall l, ~ In (cand_id c) (map cand_id l) ->
            filter (fun y => jstr_eqb (cand_id y) (cand_id c)) l = []).
  { induction l as [|y l IHl]; intro Hn; [reflexivity|]. simpl.
    destruct (jstr_eqb (cand_id y) (cand_id c)) eqn:E.
    - apply jstr_eqb_eq in E. exfalso. apply Hn. left. exact E.
    - apply IHl. intro H. apply Hn. right. exact H. }
  simpl. destruct Hin as [->|Hin].
  - rewrite jstr_eqb_refl. f_equal. apply Hnone. exact Hnotin.
  - destruct (jstr_eqb (cand_id x) (cand_id c)) eqn:E.
    + apply jstr_eqb_eq in E. exfalso. apply Hnotin. rewrite E.
      apply in_map. exact Hin.
    + apply IH; assumption.
Qed.

(** The manual path keeps the invariant: after [acceptAnswerCandidate] the
    accepted candidates of the question are the candidate alone, and the
    question refers to it. *)
Lemma manual_accept_exactly_one :
  forall (db : DB) (c : CandidateRow),
    NoDup (map cand_id (answer_candidates db)) ->
    In c (answer_candidates db) ->
    let db' := acceptAnswerCandidate (cand_id c) db in
    acceptedFor (question_id c) db' = [setAccepted true c]
    /\ forall q', In q' (questions db') -> id q' = question_id c ->
                  status q' = answered /\ answer_id q' = Some (cand_id c).
Proof.
  intros db c Hnd Hin db'.
  assert (Hsingle := filter_by_unique_id _ c Hnd Hin).
  subst db'. unfold acceptAnswerCandidate. rewrite Hsingle. simpl single.
  cbv iota beta. split.
  - unfold acceptedFor. simpl answer_candidates. rewrite map_map.
    assert (Hgen : forall l,
      (forall x, In x l -> cand_id x = cand_id c -> x = c) ->
      filter (fun x => is_accepted x && jstr_eqb (question_id x) (question_id c))
        (map (fun x =>
                if negb (jstr_eqb
                           (cand_id (if jstr_eqb (cand_id x) (cand_id c)
                                     then setAccepted true x else x))
                           (cand_id c))
                   && jstr_eqb
                        (question_id (if jstr_eqb (cand_id x) (cand_id c)
                                      then setAccepted true x else x))
                        (question_id c)
                then setAccepted false
                       (if jstr_eqb (cand_id x) (cand_id c)
                        then setAccepted true x else x)
                else if jstr_eqb (cand_id x) (cand_id c)
                     then setAccepted true x else x) l)
      = map (setAccepted true)
            (filter (fun x => jstr_eqb (cand_id x) (cand_id c)) l)).
    { induction l as [|x l IHl]; intro Huniq; [reflexivity|].
      simpl. destruct (jstr_eqb (cand_id x) (cand_id c)) eqn:E.
      - assert (x = c) by (apply Huniq; [now left|now apply jstr_eqb_eq]).
        subst x. simpl. rewrite jstr_eqb_refl. simpl. rewrite jstr_eqb_refl.
        simpl. f_equal. apply IHl. intros y Hy. apply Huniq. now right.
      - rewrite E. simpl.
        destruct (jstr_eqb (question_id x) (question_id c)) eqn:Eq; simpl.
        + apply IHl. intros y Hy. apply Huniq. now right.
        + rewrite Eq, andb_false_r. apply IHl. intros y Hy. apply Huniq. now right. }
    rewrite Hgen.
    + rewrite Hsingle. reflexivity.
    + intros x Hx Hid.
      assert (Hx' : In x (filter (fun y => jstr_eqb (cand_id y) (cand_id c))
                                 (answer_candidates db))).
      { apply filter_In. split; [exact Hx|]. now apply jstr_eqb_eq. }
      rewrite Hsingle in Hx'. destruct Hx' as [<-|[]]. reflexivity.
  - intros q' Hq' Hid. rewrite questions_updateQuestion in Hq'.
    simpl questions in Hq'. apply in_map_iff in Hq'.
    destruct Hq' as [q [Heq _]].
    destruct (jstr_eqb (id q) (question_id c)) eqn:E.
    + subst q'. split; reflexivity.
    + subst q'. apply jstr_eqb_neq in E. contradiction.
Qed.

End StoreFacts.

(* ================================================================== *)
(** ** Properties of the classification queue *)
(* ================================================================== *)

Module QueueFacts.
Import JS Analyzer AIClassifier.
Import Store(AIResult, mkAIResult).
Local Open Scope string_scope.
Local Open Scope list_scope.
Local Open Scope Z_scope.

(** *** Results and callbacks *)

Lemma tryBody_degraded {M : Type} (st : State) (attempt : nat)
      (messages : list M) (r : Reply) :
  succeeds r = false ->
  match tryBody st attempt messages r with
  | Return rs => rs = nulls messages
  | _ => True
  end.
Proof.
  intro H. destruct r as [|code hint payload]; simpl; [exact I|].
  destruct (code =? 429); [exact I|].
  destruct (code =? 529); [exact I|].
  destruct ((code <? 200) || (300 <=? code)) eqn:E; [exact I|].
  assert (Hin : (200 <=? code) && (code <? 300) = true).
  { apply orb_false_iff in E. destruct E as [E1 E2].
    apply andb_true_iff. split; [apply Z.leb_le|apply Z.ltb_lt];
      [apply Z.ltb_ge in E1|apply Z.leb_gt in E2]; assumption. }
  destruct payload as [| | |[[|parsed]|]]; simpl in H |- *; try exact I;
    try reflexivity; rewrite Hin in H; discriminate H.
Qed.

Lemma retryLoop_degraded {M : Type} (env : nat -> Attempt) (messages : list M) :
  (forall n, succeeds (reply (env n)) = false) ->
  forall fuel attempt st now posted,
    results (retryLoop env messages fuel attempt st now posted) = nulls messages.
Proof.
  intros Henv fuel. induction fuel as [|fuel IH]; intros attempt st now posted;
    [reflexivity|].
  simpl.
  pose proof (tryBody_degraded (withLastRequestTime st now) attempt messages
                               (reply (env attempt)) (Henv attempt)) as Ht.
  destruct (tryBody (withLastRequestTime st now) attempt messages
                    (reply (env attempt))) as [rs|b|b|].
  - simpl. exact Ht.
  - destruct (attempt <? _)%nat; [apply IH|reflexivity].
  - destruct (attempt <? _)%nat; [apply IH|reflexivity].
  - destruct (attempt <? _)%nat; [apply IH|reflexivity].
Qed.

Lemma callAPI_enabled {M : Type} (env : nat -> Attempt) (messages : list M)
      (st : State) (now : Z) :
  enabled st = true -> messages <> [] ->
  _callAPI env messages st now
  = retryLoop env messages (S (maxRetries st)) 0 (countApiCall st)
              (_waitForRateLimit st now) [].
Proof.
  intros Hen Hne. unfold _callAPI. rewrite Hen.
  destruct messages; [contradiction|reflexivity].
Qed.

Lemma callAPI_degraded {M : Type} (env : nat -> Attempt) (messages : list M)
      (st : State) (now : Z) :
  (forall n, succeeds (reply (env n)) = false) ->
  results (_callAPI env messages st now) = nulls messages
  \/ results (_callAPI env messages st now) = [].
Proof.
  intro Henv. unfold _callAPI.
  destruct (negb (enabled st) || (List.length messages =? 0)%nat);
    [right; reflexivity|left].
  apply retryLoop_degraded. exact Henv.
Qed.

Lemma nth_error_nulls {M : Type} (messages : list M) (i : nat) (r : AIResult) :
  nth_error (nulls messages) i <> Some (Some r).
Proof.
  unfold nulls. revert i. induction messages as [|x l IH]; intros [|i]; simpl;
    try discriminate. apply IH.
Qed.

Lemma callBack_no_result (batch : list Job) (results : list (option AIResult)) :
  (forall i r, nth_error results i <> Some (Some r)) ->
  forall i st calls, callBack batch i results st calls = (st, calls).
Proof.
  intro H. induction batch as [|item rest IH]; intros i st calls; [reflexivity|].
  simpl. destruct (nth_error results i) as [[r|]|] eqn:E.
  - exfalso. exact (H i r E).
  - apply IH.
  - apply IH.
Qed.

Lemma invocations_finishBatch (env : nat -> Attempt) (batch : list Job)
      (st : State) (now : Z) :
  invocations (finishBatch env batch st now)
  = snd (callBack batch 0 (results (_callAPI env batch st now))
                  (call_state (_callAPI env batch st now)) []).
Proof.
  unfold finishBatch.
  destruct (callBack batch 0 (results (_callAPI env batch st now))
                     (call_state (_callAPI env batch st now)) []) as [st' calls].
  reflexivity.
Qed.

Lemma processing_finishBatch (env : nat -> Attempt) (batch : list Job)
      (st : State) (now : Z) :
  processing (batch_state (finishBatch env batch st now)) = false.
Proof.
  unfold finishBatch.
  destruct (callBack batch 0 (results (_callAPI env batch st now))
                     (call_state (_callAPI env batch st now)) []) as [st' calls].
  reflexivity.
Qed.

(** C1, as the code has it: when no attempt of the call succeeds (each
    reply is a throttle or overload status, another non-2xx status, a
    network failure, a malformed body or a body that is not an array), the
    call yields no result for any job, [_processBatch] calls no completion
    callback at all (a callback is only ever called with a result) and it
    ends with the in-flight flag cleared.  Exceptions of an attempt are the
    [Throw] results the retry loop handles; the functions are total. *)
Theorem degraded_batch_calls_no_callback :
  forall (env : nat -> Attempt) (batch : list Job) (st : State) (now : Z),
    (forall n, succeeds (reply (env n)) = false) ->
    (enabled st = true -> batch <> [] ->
     results (_callAPI env batch st now) = map (fun _ => None) batch)
    /\ invocations (finishBatch env batch st now) = []
    /\ processing (batch_state (finishBatch env batch st now)) = false
    /\ invocations (_processBatch env st now) = [].
Proof.
  intros env batch st now Henv.
  assert (Hfin : forall b s, invocations (finishBatch env b s now) = []).
  { intros b s. rewrite invocations_finishBatch.
    rewrite callBack_no_result; [reflexivity|].
    intros i r. destruct (callAPI_degraded env b s now Henv) as [-> | ->].
    - apply nth_error_nulls.
    - destruct i; discriminate. }
  split; [|split; [apply Hfin|split; [apply processing_finishBatch|]]].
  - intros Hen Hne. rewrite (@callAPI_enabled _ env batch st now Hen Hne).
    apply retryLoop_degraded. exact Henv.
  - unfold _processBatch. destruct (takeBatch st) as [st' [b|]].
    + apply Hfin.
    + reflexivity.
Qed.

Lemma degraded_batch_calls_no_callback_witness :
  invocations (_processBatch throttled twoQueued 1000000) = [].
Proof.
  apply (degraded_batch_calls_no_callback throttled [jobA; jobB] twoQueued 1000000).
  intro n. reflexivity.
Defined.

(** C1 as stated fails: with every attempt throttled the retries are
    exhausted after four posts, and neither of the two jobs of the batch,
    both of which carry a callback, is called back. *)
Lemma throttled_batch_never_calls_back :
  map job_id (queue twoQueued) = [js "q_1"; js "q_2"]
  /\ forallb (fun j => match onClassified j with Some _ => true | None => false end)
             (queue twoQueued) = true
  /\ List.length (batch_posts (_processBatch throttled twoQueued 1000000)) = 4%nat
  /\ invocations (_processBatch throttled twoQueued 1000000) = [].
Proof. vm_compute. repeat split. Qed.

Lemma nth_error_skipn {A : Type} (l : list A) (i : nat) :
  nth_error l i = hd_error (skipn i l).
Proof.
  revert l. induction i as [|i IH]; intros [|x l]; simpl; try reflexivity.
  apply IH.
Qed.

Lemma skipn_S_tl {A : Type} (l : list A) (i : nat) :
  skipn (S i) l = tl (skipn i l).
Proof.
  revert l. induction i as [|i IH]; intros [|x l]; try reflexivity.
  change (skipn (S (S i)) (x :: l)) with (skipn (S i) l).
  change (skipn (S i) (x :: l)) with (skipn i l). apply IH.
Qed.

Lemma callBack_positional (batch : list Job) (results : list (option AIResult)) :
  forall i st calls,
    snd (callBack batch i results st calls)
    = calls ++ positional batch (skipn i results).
Proof.
  induction batch as [|item rest IH]; intros i st calls.
  - simpl. rewrite app_nil_r. reflexivity.
  - cbn [callBack]. rewrite nth_error_skipn.
    pose proof (skipn_S_tl results i) as Htl.
    destruct (skipn i results) as [|r rs] eqn:E; cbn [hd_error positional tl] in *.
    + rewrite IH, Htl. destruct rest; reflexivity.
    + destruct r as [result|]; [destruct (onClassified item) as [cb|]|].
      * destruct (cb (job_id item) result); rewrite IH, Htl, <- app_assoc;
          reflexivity.
      * rewrite IH, Htl. reflexivity.
      * rewrite IH, Htl. reflexivity.
Qed.

(** C6, as the code has it: a parsed body that is not an array fails the
    whole batch; a parsed array is applied position by position whatever
    its length (no length is compared): every element is normalized, the
    job at position [i] is called back with the element at position [i]
    when there is one and it is an object, the jobs beyond the end of the
    array get no callback and the elements beyond the end of the batch are
    dropped. *)
Theorem parsed_array_applied_by_position :
  forall (env : nat -> Attempt) (batch : list Job) (st : State) (now : Z)
         (statusCode : Z) (hint : option Q),
    enabled st = true ->
    batch <> [] ->
    200 <= statusCode < 300 ->
    (reply (env 0%nat) = Http statusCode hint (Text (Some NotArray)) ->
     results (_callAPI env batch st now) = map (fun _ => None) batch
     /\ invocations (finishBatch env batch st now) = [])
    /\ (forall parsed,
         reply (env 0%nat) = Http statusCode hint (Text (Some (IsArray parsed))) ->
         results (_callAPI env batch st now) = map normalize parsed
         /\ invocations (finishBatch env batch st now)
            = positional batch (map normalize parsed)).
Proof.
  intros env batch st now code hint Hen Hne Hcode.
  assert (H429 : (code =? 429) = false) by (apply Z.eqb_neq; lia).
  assert (H529 : (code =? 529) = false) by (apply Z.eqb_neq; lia).
  assert (H2xx : (code <? 200) || (300 <=? code) = false).
  { apply orb_false_iff. split; [apply Z.ltb_ge|apply Z.leb_gt]; lia. }
  split.
  - intro Hr.
    assert (Hres : results (_callAPI env batch st now) = nulls batch).
    { rewrite (@callAPI_enabled _ env batch st now Hen Hne).
      cbn [retryLoop]. rewrite Hr. cbn [tryBody].
      rewrite H429, H529, H2xx. reflexivity. }
    split; [exact Hres|].
    rewrite invocations_finishBatch, Hres.
    rewrite callBack_no_result; [reflexivity|].
    intros i r. apply nth_error_nulls.
  - intros parsed Hr.
    assert (Hres : results (_callAPI env batch st now) = map normalize parsed).
    { rewrite (@callAPI_enabled _ env batch st now Hen Hne).
      cbn [retryLoop]. rewrite Hr. cbn [tryBody].
      rewrite H429, H529, H2xx. reflexivity. }
    split; [exact Hres|].
    rewrite invocations_finishBatch, Hres, callBack_positional. reflexivity.
Qed.

Lemma parsed_array_applied_by_position_witness :
  invocations (finishBatch shortArray [jobA; jobB] (new true) 1000000)
  = positional [jobA; jobB] (map normalize [Some oneItem]).
Proof.
  apply (parsed_array_applied_by_position shortArray [jobA; jobB] (new true)
           1000000 200 None).
  - reflexivity.
  - intro H. discriminate H.
  - lia.
  - reflexivity.
Defined.

(** C6 as stated fails: the service answers a batch of two jobs with an
    array of one element; the first job is called back with that element
    and the second gets nothing, so the response is applied in part. *)
Lemma short_array_applied_in_part :
  map job_id (queue twoQueued) = [js "q_1"; js "q_2"]
  /\ map fst (invocations (_processBatch shortArray twoQueued 1000000))
     = [js "q_1"]
  /\ map snd (invocations (_processBatch shortArray twoQueued 1000000))
     = [normalize (Some oneItem)].
Proof. vm_compute. repeat split. Qed.

(** *** Spacing of the posts *)

Lemma batch_posts_finishBatch (env : nat -> Attempt) (batch : list Job)
      (st : State) (now : Z) :
  batch_posts (finishBatch env batch st now) = posts (_callAPI env batch st now).
Proof.
  unfold finishBatch.
  destruct (callBack batch 0 (results (_callAPI env batch st now))
                     (call_state (_callAPI env batch st now)) []) as [st' calls].
  reflexivity.
Qed.

Lemma spacedFrom_mono (gap : nat -> Z) (prev prev' : Z) (l : list (nat * Z)) :
  prev' <= prev -> spacedFrom gap prev l -> spacedFrom gap prev' l.
Proof.
  destruct l as [|p l]; [trivial|]. simpl. intros Hle [H1 H2]. split; [lia|exact H2].
Qed.

Lemma expBackoff_ext (st st' : State) (attempt : nat) :
  retryBaseDelayMs st' = retryBaseDelayMs st ->
  expBackoff st' attempt = expBackoff st attempt.
Proof. unfold expBackoff. intros ->. reflexivity. Qed.

Lemma tryBody_retryDelay {M : Type} (st0 st : State) (attempt : nat)
      (messages : list M) (r : Reply) :
  retryBaseDelayMs st = retryBaseDelayMs st0 ->
  match tryBody st attempt messages r with
  | Return _ => True
  | Retry429 b => retryDelay st0 attempt r = Some b
  | Retry529 b => retryDelay st0 attempt r = Some b
  | Throw => retryDelay st0 attempt r = Some (expBackoff st attempt)
  end.
Proof.
  intro Hbase. unfold retryDelay.
  pose proof (expBackoff_ext st0 st attempt Hbase) as He.
  destruct r as [|code hint payload]; simpl.
  - now rewrite He.
  - destruct (code =? 429).
    + rewrite He. reflexivity.
    + destruct (code =? 529); [now rewrite He|].
      destruct ((code <? 200) || (300 <=? code)); [now rewrite He|].
      destruct payload as [| | |[[|parsed]|]]; simpl; trivial; now rewrite He.
Qed.

Lemma retryLoop_acc {M : Type} (env : nat -> Attempt) (messages : list M) :
  forall fuel attempt st now posted,
    retryLoop env messages fuel attempt st now posted
    = mkCallOutcome
        (results (retryLoop env messages fuel attempt st now []))
        (call_state (retryLoop env messages fuel attempt st now []))
        (call_end (retryLoop env messages fuel attempt st now []))
        (posted ++ posts (retryLoop env messages fuel attempt st now [])).
Proof.
  induction fuel as [|fuel IH]; intros attempt st now posted.
  - simpl. rewrite app_nil_r. reflexivity.
  - cbn [retryLoop]. cbv zeta.
    destruct (tryBody (withLastRequestTime st now) attempt messages
                      (reply (env attempt))) as [rs|b|b|];
      try destruct (attempt <? _)%nat; try reflexivity;
      rewrite IH; symmetry; rewrite IH; simpl; rewrite <- app_assoc; reflexivity.
Qed.

Lemma retryLoop_config {M : Type} (env : nat -> Attempt) (messages : list M) :
  forall fuel attempt st now posted,
    rateLimitDelayMs (call_state (retryLoop env messages fuel attempt st now posted))
    = rateLimitDelayMs st
    /\ retryBaseDelayMs (call_state (retryLoop env messages fuel attempt st now posted))
       = retryBaseDelayMs st.
Proof.
  induction fuel as [|fuel IH]; intros attempt st now posted; [split; reflexivity|].
  cbn [retryLoop]. cbv zeta.
  destruct (tryBody (withLastRequestTime st now) attempt messages
                    (reply (env attempt))) as [rs|b|b|];
    try destruct (attempt <? _)%nat; try (split; reflexivity);
    match goal with
    | |- context [retryLoop env messages fuel ?a ?s ?n ?p] =>
        destruct (IH a s n p) as [H1 H2]; rewrite H1, H2; split; reflexivity
    end.
Qed.

Lemma callAPI_config {M : Type} (env : nat -> Attempt) (messages : list M)
      (st : State) (now : Z) :
  rateLimitDelayMs (call_state (_callAPI env messages st now)) = rateLimitDelayMs st
  /\ retryBaseDelayMs (call_state (_callAPI env messages st now))
     = retryBaseDelayMs st.
Proof.
  unfold _callAPI.
  destruct (negb (enabled st) || (List.length messages =? 0)%nat);
    [split; reflexivity|].
  destruct (retryLoop_config env messages (S (maxRetries st)) 0 (countApiCall st)
                             (_waitForRateLimit st now) []) as [H1 H2].
  rewrite H1, H2. split; reflexivity.
Qed.

Lemma waitForRateLimit_ge (st : State) (now : Z) :
  lastRequestTime st + rateLimitDelayMs st <= _waitForRateLimit st now.
Proof.
  unfold _waitForRateLimit, sleep.
  destruct (0 <? rateLimitDelayMs st - (now - lastRequestTime st)) eqn:E.
  - apply Z.ltb_lt in E. lia.
  - apply Z.ltb_ge in E. lia.
Qed.

Section Spacing.

Context {M : Type}.
Variable gap : nat -> Z.
Variable st0 : State.

Lemma retryLoop_spaced (env : nat -> Attempt) (messages : list M) :
  timely env -> gapFits gap st0 env ->
  forall fuel attempt st now prev rest,
    retryBaseDelayMs st = retryBaseDelayMs st0 ->
    prev + gap attempt <= now ->
    prev <= lastRequestTime st ->
    spacedFrom gap
      (lastRequestTime (call_state (retryLoop env messages fuel attempt st now [])))
      rest ->
    spacedFrom gap prev (posts (retryLoop env messages fuel attempt st now []) ++ rest).
Proof.
  intros Htime Hfit.
  induction fuel as [|fuel IH]; intros attempt st now prev rest Hbase Hgap Hprev Hrest.
  - simpl in *. apply (spacedFrom_mono gap (lastRequestTime st)); assumption.
  - cbn [retryLoop] in *. cbv zeta in *.
    pose proof (@tryBody_retryDelay M st0 (withLastRequestTime st now) attempt
                  messages (reply (env attempt)) Hbase) as Hd.
    pose proof (Htime attempt) as Hlat.
    destruct (tryBody (withLastRequestTime st now) attempt messages
                      (reply (env attempt))) as [rs|b|b|].
    + simpl in *. split; [exact Hgap|exact Hrest].
    + destruct (attempt <? _)%nat.
      * rewrite retryLoop_acc in Hrest |- *. cbn [posts call_state] in *.
        rewrite <- app_assoc. cbn [app spacedFrom fst snd]. split; [exact Hgap|].
        apply IH; try assumption.
        -- pose proof (Hfit attempt b Hd). unfold sleep. lia.
        -- simpl. unfold sleep. lia.
      * simpl in *. split; [exact Hgap|exact Hrest].
    + destruct (attempt <? _)%nat.
      * rewrite retryLoop_acc in Hrest |- *. cbn [posts call_state] in *.
        rewrite <- app_assoc. cbn [app spacedFrom fst snd]. split; [exact Hgap|].
        apply IH; try assumption.
        -- pose proof (Hfit attempt b Hd). unfold sleep. lia.
        -- simpl. lia.
      * simpl in *. split; [exact Hgap|exact Hrest].
    + destruct (attempt <? _)%nat.
      * rewrite retryLoop_acc in Hrest |- *. cbn [posts call_state] in *.
        rewrite <- app_assoc. cbn [app spacedFrom fst snd]. split; [exact Hgap|].
        apply IH; try assumption.
        -- pose proof (Hfit attempt _ Hd). unfold sleep. lia.
        -- simpl. lia.
      * simpl in *. split; [exact Hgap|exact Hrest].
Qed.

Lemma callAPI_spaced (env : nat -> Attempt) (messages : list M)
      (st : State) (now : Z) (rest : list (nat * Z)) :
  timely env -> gapFits gap st0 env ->
  retryBaseDelayMs st = retryBaseDelayMs st0 ->
  gap 0%nat <= rateLimitDelayMs st ->
  spacedFrom gap (lastRequestTime (call_state (_callAPI env messages st now))) rest ->
  spacedFrom gap (lastRequestTime st) (posts (_callAPI env messages st now) ++ rest).
Proof.
  intros Htime Hfit Hbase Hgap0. unfold _callAPI.
  destruct (negb (enabled st) || (List.length messages =? 0)%nat);
    [simpl; trivial|].
  intro Hrest. apply retryLoop_spaced; try assumption.
  - pose proof (waitForRateLimit_ge st now). simpl. lia.
  - simpl. lia.
Qed.


End Spacing.

Lemma expBackoff_covers (st : State) (n : nat) :
  rateLimitDelayMs st <= retryBaseDelayMs st ->
  rateLimitDelayMs st <= Z.max 0 (expBackoff st n).
Proof.
  intro H. unfold expBackoff.
  assert (1 <= 2 ^ Z.of_nat n) by (apply Z.pow_le_mono_r with (b := 0); lia).
  destruct (Z_le_gt_dec 0 (retryBaseDelayMs st)); [nia|lia].
Qed.

Lemma retryDelay_noHints (st : State) (env : nat -> Attempt) (n : nat) (b : Z) :
  noHints env ->
  retryDelay st n (reply (env n)) = Some b -> b = expBackoff st n.
Proof.
  intros Hno. specialize (Hno n). unfold retryDelay.
  destruct (reply (env n)) as [|code hint payload]; simpl.
  - congruence.
  - destruct hint as [h|]; [contradiction|]. simpl.
    destruct (code =? 429); [congruence|].
    destruct (code =? 529); [congruence|].
    destruct ((code <? 200) || (300 <=? code)); [congruence|].
    destruct payload as [| | |[[|parsed]|]]; simpl; congruence.
Qed.




(** *** Batch collection *)


Lemma queueMessage_eq (t : Z) (job : Job) (st : State) :
  queueMessage t job st
  = if negb (enabled st) then (st, None)
    else if negb (queueable job) then (st, None)
    else
      let st2 :=
        withBatchTimer (withQueue st (queue st ++ [job]))
                       (match batchTimer st with
                        | None => Some (t + batchDelayMs st)
                        | Some due => Some due
                        end) in
      if (batchSize st <=? List.length (queue st ++ [job]))%nat
      then takeBatch (withBatchTimer st2 None)
      else (st2, None).
Proof.
  unfold queueMessage, queueable.
  destruct st as [en q pr bs bd bt sts rl lr mr rb]; simpl.
  destruct en; simpl; [|reflexivity].
  destruct (truthyStr (job_body job)); simpl; [|reflexivity].
  destruct (List.length (trim (orStr (job_body job) [])) <? 3)%nat; simpl;
    [reflexivity|].
  destruct bt; reflexivity.
Qed.











End QueueFacts.

(* ================================================================== *)
(** ** Further properties of the analyzer *)
(* ================================================================== *)

Module AnalyzerMore.
Import JS Regex Analyzer AnalyzerNotions AnalyzerFacts.
Local Open Scope string_scope.
Local Open Scope list_scope.

Lemma clamp01_range (x : Q) : 0 <= clamp01 x <= 1.
Proof.
  unfold clamp01.
  destruct (Qmin_cases 1 x) as [[E H]|[E H]]; rewrite E;
    match goal with
    | |- context [Qmax 0 ?y] =>
        destruct (Qmax_cases 0 y) as [[E' H']|[E' H']]; rewrite E'
    end; split; lra.
Qed.

Lemma round2_hundredths (x : Q) :
  0 <= x <= 1 ->
  exists n : Z, (0 <= n <= 100)%Z /\ round2 x = (inject_Z n / 100)%Q.
Proof.
  intros [H0 H1]. exists (Math_round (x * 100)). split; [|reflexivity].
  unfold Math_round. split.
  - apply Z.le_trans with (Qfloor 0); [discriminate|].
    apply Qfloor_resp_le. lra.
  - apply Z.le_trans with (Qfloor (100 + (1 # 2))); [|discriminate].
    apply Qfloor_resp_le. lra.
Qed.

(** X1: the confidence [scoreAnswer] returns is a whole number of hundredths
    between 0 and 1, whatever the question, the candidate and the context. *)
Theorem confidence_is_a_percentage :
  forall (question : Question) (candidateMsg : Candidate) (o : Options),
    0 <= confidence (scoreAnswer question candidateMsg o) <= 1
    /\ exists n : Z,
         (0 <= n <= 100)%Z
         /\ confidence (scoreAnswer question candidateMsg o) == inject_Z n / 100.
Proof.
  intros q c o.
  assert (Hr : forall n : Z, (0 <= n <= 100)%Z -> 0 <= (inject_Z n / 100)%Q <= 1).
  { intros n Hn. unfold Qdiv, Qmult, Qle, Qinv, inject_Z. simpl.
    rewrite !Z.mul_1_r. exact Hn. }
  unfold scoreAnswer. destruct (aBodyOf c).
  - simpl. split; [split; discriminate|]. exists 0%Z. split; [lia|reflexivity].
  - destruct (round2_hundredths (clamp01 (fst (allSignals q c o)))
                                (clamp01_range _)) as [n [Hn E]].
    simpl confidence. rewrite E. split; [apply Hr; exact Hn|].
    exists n. split; [exact Hn|reflexivity].
Qed.

Lemma setHas_In (l : list jstr) (x : jstr) : setHas l x = true <-> In x l.
Proof.
  unfold setHas. rewrite existsb_exists. split.
  - intros [y [Hy E]]. apply jstr_eqb_eq in E. now subst.
  - intro H. exists x. split; [exact H|apply jstr_eqb_refl].
Qed.

Lemma dedupe_spec (l : list jstr) :
  forall seen,
    NoDup (dedupe seen l)
    /\ forall x, In x (dedupe seen l) <-> In x l /\ ~ In x seen.
Proof.
  induction l as [|w l IH]; intro seen; simpl.
  - split; [constructor|]. intro x. tauto.
  - destruct (setHas seen w) eqn:E.
    + destruct (IH seen) as [Hnd Hin]. split; [exact Hnd|].
      intro x. rewrite Hin. apply setHas_In in E. split.
      * intros [H1 H2]. split; [now right|exact H2].
      * intros [[->|H1] H2]; [contradiction|]. split; assumption.
    + destruct (IH (w :: seen)) as [Hnd Hin]. split.
      * constructor; [|exact Hnd]. rewrite Hin. intros [_ H]. apply H. now left.
      * intro x. simpl. rewrite Hin. simpl.
        assert (Hw : ~ In w seen).
        { intro H. apply setHas_In in H. congruence. }
        split.
        -- intros [->|[H1 H2]]; [split; [now left|exact Hw]|].
           split; [now right|]. intro H. apply H2. now right.
        -- intros [[->|H1] H2]; [now left|].
           destruct (list_eq_dec N.eq_dec w x) as [->|Hne]; [now left|].
           right. split; [exact H1|]. intros [H|H]; [contradiction|contradiction].
Qed.

Lemma NoDup_firstn_local {A : Type} (n : nat) (l : list A) :
  NoDup l -> NoDup (firstn n l).
Proof.
  revert l. induction n as [|n IH]; intros [|x l] H; simpl; try constructor.
  - inversion H; subst. intro Hin. apply H2.
    rewrite <- (firstn_skipn n l). apply in_or_app. now left.
  - inversion H; subst. apply IH. assumption.
Qed.

Lemma In_firstn_local {A : Type} (n : nat) (l : list A) (x : A) :
  In x (firstn n l) -> In x l.
Proof.
  intro H. rewrite <- (firstn_skipn n l). apply in_or_app. now left.
Qed.

Lemma splitWsAux_Forall (P : char -> Prop) (s : jstr) :
  forall cur insep,
    Forall P cur ->
    (forall c, In c s -> isSpace c = false -> P c) ->
    Forall (Forall P) (splitWsAux cur insep s).
Proof.
  induction s as [|x s IH]; intros cur insep Hcur Hs; simpl.
  - constructor; [|constructor]. apply Forall_rev. exact Hcur.
  - assert (Hs' : forall c, In c s -> isSpace c = false -> P c)
      by (intros c Hc; apply Hs; now right).
    destruct (isSpace x) eqn:E.
    + destruct insep.
      * apply IH; [constructor|exact Hs'].
      * constructor; [apply Forall_rev; exact Hcur|].
        apply IH; [constructor|exact Hs'].
    + apply IH; [|exact Hs']. constructor; [|exact Hcur].
      apply Hs; [now left|exact E].
Qed.

Lemma inRange_spec (lo hi c : N) :
  inRange lo hi c = true <-> (lo <= c <= hi)%N.
Proof.
  unfold inRange. rewrite andb_true_iff, !N.leb_le. tauto.
Qed.

Lemma lowerChar_not_upper (c : char) : isUpper (lowerChar c) = false.
Proof.
  unfold lowerChar. destruct (isUpper c) eqn:E; [|exact E].
  unfold isUpper in *. apply inRange_spec in E.
  destruct (inRange 65 90 (c + 32)%N) eqn:E'; [|reflexivity].
  apply inRange_spec in E'. lia.
Qed.

(** X2: the keywords extracted from a text: at most fifteen, without
    repetition, each of more than two code units, none a stop word, made of
    word characters none of which is an upper-case letter. *)
Theorem keywords_are_clean :
  forall (text : jstr),
    (List.length (_extractKeywords text) <= 15)%nat
    /\ NoDup (_extractKeywords text)
    /\ forall k, In k (_extractKeywords text) ->
                 (2 < List.length k)%nat
                 /\ ~ In k stopWords
                 /\ forall c, In c k -> isWord c = true /\ isUpper c = false.
Proof.
  intro text. unfold _extractKeywords. cbv zeta.
  set (cleaned := map _ (toLowerCase text)).
  match goal with |- context [dedupe [] ?w] => set (words := w) end.
  destruct (dedupe_spec words []) as [Hnd Hin].
  split; [apply firstn_le_length|]. split; [apply NoDup_firstn_local; exact Hnd|].
  intros k Hk. apply In_firstn_local in Hk. apply Hin in Hk. destruct Hk as [Hk _].
  subst words. apply filter_In in Hk. destruct Hk as [Hk Hf].
  apply andb_true_iff in Hf. destruct Hf as [Hlen Hstop].
  split; [apply Nat.ltb_lt; exact Hlen|]. split.
  - intro H. apply setHas_In in H. rewrite H in Hstop. discriminate.
  - assert (Hall : Forall (Forall (fun c => isWord c = true /\ isUpper c = false))
                          (splitWs cleaned)).
    { apply splitWsAux_Forall; [constructor|].
      intros c Hc Hsp. subst cleaned. apply in_map_iff in Hc.
      destruct Hc as [y [Hy Hyin]]. unfold toLowerCase in Hyin.
      apply in_map_iff in Hyin. destruct Hyin as [c0 [Hc0 _]]. subst y.
      destruct (isWord (lowerChar c0)) eqn:Ew; simpl in Hy.
      - subst c. split; [exact Ew|apply lowerChar_not_upper].
      - destruct (isSpace (lowerChar c0)) eqn:Es; subst c.
        + congruence.
        + discriminate Hsp. }
    rewrite Forall_forall in Hall. specialize (Hall k Hk).
    rewrite Forall_forall in Hall. exact Hall.
Qed.

Lemma Zpos_of_nat (n : nat) : n <> 0%nat -> Z.pos (Pos.of_nat n) = Z.of_nat n.
Proof.
  intro H. rewrite <- positive_nat_Z, Nat2Pos.id; [reflexivity|exact H].
Qed.

Lemma ratio_in_unit_interval (m n : nat) :
  (m <= n)%nat -> n <> 0%nat ->
  0 <= Qmake (Z.of_nat m) (Pos.of_nat n) <= 1.
Proof.
  intros Hle Hn. unfold Qle. simpl. rewrite (Zpos_of_nat n Hn). lia.
Qed.

Lemma filter_setHas_length (A B : list jstr) :
  NoDup A -> (List.length (filter (setHas B) A) <= List.length B)%nat.
Proof.
  intro H. apply NoDup_incl_length; [apply NoDup_filter; exact H|].
  intros x Hx. apply filter_In in Hx. apply setHas_In. tauto.
Qed.

(** X3: the keyword overlap of an answer whose keywords do not repeat is a
    fraction between 0 and 1, and the overlap is 0 as soon as the question
    or the answer has no keyword. *)
Theorem keyword_overlap_in_unit_interval :
  forall (questionKeywords answerKeywords : list jstr),
    (NoDup answerKeywords ->
     0 <= _keywordOverlapScore questionKeywords answerKeywords <= 1)
    /\ (questionKeywords = [] \/ answerKeywords = [] ->
        _keywordOverlapScore questionKeywords answerKeywords = 0).
Proof.
  intros qk ak. split.
  - intro Hnd. unfold _keywordOverlapScore.
    destruct qk as [|q qk]; [split; discriminate|].
    destruct ak as [|a ak]; [split; discriminate|].
    apply ratio_in_unit_interval.
    + apply filter_setHas_length. exact Hnd.
    + simpl. discriminate.
  - intros [-> | ->]; [reflexivity|]. destruct qk; reflexivity.
Qed.

Lemma keyword_overlap_in_unit_interval_witness :
  0 <= _keywordOverlapScore [js "report"; js "done"] [js "done"; js "sent"] <= 1.
Proof.
  apply (proj1 (keyword_overlap_in_unit_interval [js "report"; js "done"]
                  [js "done"; js "sent"])).
  repeat constructor; simpl; intuition discriminate.
Defined.

Lemma filter_setHas_comm (A B : list jstr) :
  NoDup A -> NoDup B ->
  List.length (filter (setHas B) A) = List.length (filter (setHas A) B).
Proof.
  intros HA HB. apply Nat.le_antisymm.
  - apply NoDup_incl_length; [apply NoDup_filter; exact HA|].
    intros x Hx. apply filter_In in Hx. destruct Hx as [H1 H2].
    apply filter_In. split; [now apply setHas_In|now apply setHas_In].
  - apply NoDup_incl_length; [apply NoDup_filter; exact HB|].
    intros x Hx. apply filter_In in Hx. destruct Hx as [H1 H2].
    apply filter_In. split; [now apply setHas_In|now apply setHas_In].
Qed.

Lemma jstr_eqb_sym (a b : jstr) : jstr_eqb a b = jstr_eqb b a.
Proof.
  destruct (jstr_eqb a b) eqn:E.
  - apply jstr_eqb_eq in E. subst. symmetry. apply jstr_eqb_refl.
  - destruct (jstr_eqb b a) eqn:E'; [|reflexivity].
    apply jstr_eqb_eq in E'. subst. rewrite jstr_eqb_refl in E. discriminate.
Qed.

(** X4: the similarity of two texts does not depend on their order and is a
    number between 0 and 1; it is 1 for a non-empty text and itself and 0
    as soon as one text is empty. *)
Theorem text_similarity_symmetric_bounded :
  forall (a b : jstr),
    _textSimilarity a b = _textSimilarity b a
    /\ 0 <= _textSimilarity a b <= 1
    /\ (a <> [] -> _textSimilarity a a = 1)
    /\ _textSimilarity a [] = 0 /\ _textSimilarity [] b = 0.
Proof.
  intros a b. split; [|split; [|split; [|split]]].
  - unfold _textSimilarity.
    destruct a as [|x a]; destruct b as [|y b]; try reflexivity.
    rewrite (jstr_eqb_sym (x :: a) (y :: b)).
    destruct (jstr_eqb (y :: b) (x :: a)); [reflexivity|].
    cbv zeta.
    set (a' := trim (collapseWs false (toLowerCase (x :: a)))).
    set (b' := trim (collapseWs false (toLowerCase (y :: b)))).
    rewrite (orb_comm (List.length b' <? 20)%nat), (orb_comm (includes b' a')).
    destruct (((List.length a' <? 20)%nat || (List.length b' <? 20)%nat)
              && (includes a' b' || includes b' a')); [reflexivity|].
    rewrite (orb_comm (List.length (dedupe [] (ngrams3 b')) =? 0)%nat).
    destruct ((List.length (dedupe [] (ngrams3 a')) =? 0)%nat
              || (List.length (dedupe [] (ngrams3 b')) =? 0)%nat); [reflexivity|].
    rewrite (filter_setHas_comm (dedupe [] (ngrams3 b')) (dedupe [] (ngrams3 a')));
      try apply dedupe_spec.
    rewrite (Nat.add_comm (List.length (dedupe [] (ngrams3 b')))).
    reflexivity.
  - unfold _textSimilarity.
    destruct a as [|x a]; [split; discriminate|].
    destruct b as [|y b]; [split; discriminate|].
    destruct (jstr_eqb (x :: a) (y :: b)); [split; discriminate|].
    cbv zeta.
    set (a' := trim (collapseWs false (toLowerCase (x :: a)))).
    set (b' := trim (collapseWs false (toLowerCase (y :: b)))).
    destruct (((List.length a' <? 20)%nat || (List.length b' <? 20)%nat)
              && (includes a' b' || includes b' a')); [split; discriminate|].
    destruct ((List.length (dedupe [] (ngrams3 a')) =? 0)%nat
              || (List.length (dedupe [] (ngrams3 b')) =? 0)%nat) eqn:Ez;
      [split; discriminate|].
    apply orb_false_iff in Ez. destruct Ez as [Ea Eb].
    apply Nat.eqb_neq in Ea. apply Nat.eqb_neq in Eb.
    set (A := dedupe [] (ngrams3 a')) in *. set (B := dedupe [] (ngrams3 b')) in *.
    assert (HA : NoDup A) by apply dedupe_spec.
    assert (HB : NoDup B) by apply dedupe_spec.
    pose proof (filter_setHas_length A B HA) as H1.
    assert (H2 : (List.length (filter (setHas B) A) <= List.length A)%nat)
      by apply filter_length_le.
    destruct (0 <? List.length A + List.length B
                   - List.length (filter (setHas B) A))%nat eqn:Eu;
      [|split; discriminate].
    apply ratio_in_unit_interval; lia.
  - intro Hne. unfold _textSimilarity. destruct a; [contradiction|].
    rewrite jstr_eqb_refl. reflexivity.
  - unfold _textSimilarity. destruct a; reflexivity.
  - reflexivity.
Qed.

Lemma trim_length (s : jstr) : (List.length (trim s) <= List.length s)%nat.
Proof.
  assert (Hd : forall l, (List.length (dropSpaces l) <= List.length l)%nat).
  { induction l as [|c l IH]; simpl; [lia|]. destruct (isSpace c); simpl; lia. }
  unfold trim. rewrite length_rev.
  apply Nat.le_trans with (List.length (rev (dropSpaces s))); [apply Hd|].
  rewrite length_rev. apply Hd.
Qed.

(** X5: a message whose trimmed body ends in a question mark is a question
    unless the exclusion list of [_isNonQuestion] rejects it: the type
    cascade ends in the catch-all for a trailing question mark. *)
Theorem trailing_question_mark_is_a_question :
  forall (this : Analyzer) (message : Message) (myId myLid : option jstr)
         (isGroupChat : bool),
    let text := trim (orStr (body message) []) in
    endsWith (trim (toLowerCase text)) (js "?") = true ->
    _isNonQuestion text = false ->
    exists qa, analyzeQuestion this message myId myLid isGroupChat = Some qa
               /\ isQuestion qa = true.
Proof.
  intros this message myId myLid g text Hq Hnon. unfold analyzeQuestion.
  fold text.
  assert (Hlen : (List.length text <? 3)%nat = false).
  { apply Nat.ltb_ge. unfold _isNonQuestion in Hnon. cbv zeta in Hnon.
    destruct (List.length (trim (toLowerCase text)) <? 5)%nat eqn:E;
      [discriminate|].
    apply Nat.ltb_ge in E. pose proof (trim_length (toLowerCase text)) as Ht.
    unfold toLowerCase in Ht at 2. rewrite length_map in Ht. lia. }
  rewrite Hlen, Hnon.
  assert (Hty : _classifyQuestionType text <> None).
  { unfold _classifyQuestionType. cbv zeta. rewrite Hq.
    repeat match goal with
           | |- (if ?c then _ else _) <> None => destruct c; [discriminate|]
           end.
    discriminate. }
  destruct (_classifyQuestionType text) as [ty|]; [|contradiction].
  eexists. split; reflexivity.
Qed.

Lemma trailing_question_mark_is_a_question_witness :
  exists qa,
    analyzeQuestion (setTrackName None)
                    (mkMessage false (Some (js "Invoice number 42?")) None false None)
                    None None true = Some qa
    /\ isQuestion qa = true.
Proof.
  apply (trailing_question_mark_is_a_question (setTrackName None)
           (mkMessage false (Some (js "Invoice number 42?")) None false None)
           None None true).
  - vm_compute. reflexivity.
  - vm_compute. reflexivity.
Defined.

(** X6: the flags of [analyze] are consistent: a question is reported exactly
    when an analysis is attached; a directed question is a question; in a
    group chat a directed question is a mention; in a one-to-one chat every
    question is directed; and of a message that is not the user's own, the
    direct-message flag is the negation of the group flag. *)
Theorem analyze_flags_consistent :
  forall (this : Analyzer) (message : Message) (myId myLid : option jstr)
         (isGroupChat : bool),
    let r := analyze this message myId myLid isGroupChat in
    (res_isQuestion r = true <-> res_questionAnalysis r <> None)
    /\ (res_isDirectedQuestion r = true -> res_isQuestion r = true)
    /\ (isGroupChat = true -> res_isDirectedQuestion r = true ->
        res_isMention r = true)
    /\ (isGroupChat = false -> res_isDirectedQuestion r = res_isQuestion r)
    /\ (fromMe message = false -> res_isDirectMessage r = negb isGroupChat)
    /\ (forall qa, res_questionAnalysis r = Some qa ->
                   isQuestion qa = true
                   /\ res_isDirectedQuestion r = directedAtMe qa).
Proof.
  intros this message myId myLid g r. subst r. unfold analyze, analyzeQuestion.
  destruct (fromMe message);
    [|destruct (List.length (trim (orStr (body message) [])) <? 3)%nat;
      [|destruct (_isNonQuestion (trim (orStr (body message) [])));
        [|destruct (_classifyQuestionType (trim (orStr (body message) [])))]]];
    unfold _isDirectedAtMe; simpl;
    repeat split; intros; subst; simpl in *;
    try discriminate; try congruence; try contradiction; try reflexivity;
    try (match goal with H : Some _ = Some _ |- _ => inversion H end; reflexivity).
Qed.

(** X7: an explicit mention of one of the user's ids counts whatever follows
    the [@]: a mentioned id that agrees with [myId] or [myLid] up to the
    first [@] makes the message a mention, whatever its body and whatever
    the tracked name. *)
Theorem mention_by_id :
  forall (this : Analyzer) (message : Message) (myId myLid : option jstr)
         (own mentioned : jstr) (ids : list jstr),
    myId = Some own \/ myLid = Some own ->
    own <> [] ->
    mentionedIds message = Some ids ->
    In mentioned ids ->
    beforeAt mentioned = beforeAt own ->
    isMention this message myId myLid = true.
Proof.
  intros this message myId myLid own x ids Hown Hne Hids Hin Heq.
  unfold isMention. rewrite Hids.
  destruct ids as [|i0 ids]; [contradiction|].
  apply orb_true_iff. left. apply orb_true_iff. left.
  apply existsb_exists. exists x. split; [exact Hin|].
  apply orb_true_iff. right. apply setHas_In. rewrite Heq.
  apply in_or_app.
  destruct own as [|c own]; [contradiction|].
  destruct Hown as [-> | ->]; [left|right]; simpl; tauto.
Qed.

Lemma mention_by_id_witness :
  isMention (setTrackName None)
            (mkMessage false (Some (js "see above")) (Some [js "15550001111@lid"])
                       false None)
            (Some (js "15550001111@c.us")) None = true.
Proof.
  apply (mention_by_id (setTrackName None)
           (mkMessage false (Some (js "see above")) (Some [js "15550001111@lid"])
                      false None)
           (Some (js "15550001111@c.us")) None
           (js "15550001111@c.us") (js "15550001111@lid") [js "15550001111@lid"]).
  - left. reflexivity.
  - intro H. discriminate H.
  - reflexivity.
  - left. reflexivity.
  - vm_compute. reflexivity.
Defined.

(** X8: without a tracked name (none, empty or blank) a message is a mention
    only through a mentioned id that is one of the user's ids, whole or up
    to the [@]; so with no own id known nothing is a mention. *)
Theorem blank_name_mentions_only_by_id :
  forall (name : option jstr) (message : Message) (myId myLid : option jstr),
    trim (orStr name []) = [] ->
    isMention (setTrackName name) message myId myLid = true ->
    exists ids mentioned,
      mentionedIds message = Some ids /\ In mentioned ids
      /\ (In mentioned (idForms myId ++ idForms myLid)
          \/ In (beforeAt mentioned) (idForms myId ++ idForms myLid)).
Proof.
  intros name message myId myLid Hblank H.
  assert (Hpat : namePatterns (setTrackName name) = []).
  { simpl. unfold _buildNamePatterns. destruct name as [n|]; [|reflexivity].
    destruct n as [|c n]; [reflexivity|]. simpl in Hblank.
    destruct (trim (c :: n)); [reflexivity|discriminate]. }
  unfold isMention, _matchesAnyNamePattern in H. rewrite Hpat in H.
  change (testAny [] (orStr (body message) [])) with false in H.
  change (testAny [] (orStr (quotedBody message) [])) with false in H.
  rewrite andb_false_r, !orb_false_r in H.
  destruct (mentionedIds message) as [[|i0 ids]|]; try discriminate.
  apply existsb_exists in H. destruct H as [x [Hx Hm]].
  exists (i0 :: ids), x. split; [reflexivity|]. split; [exact Hx|].
  apply orb_true_iff in Hm. destruct Hm as [Hm|Hm]; apply setHas_In in Hm; tauto.
Qed.

Lemma blank_name_mentions_only_by_id_witness :
  exists ids mentioned,
    mentionedIds (mkMessage false (Some (js "hi")) (Some [js "7@c.us"]) false None)
    = Some ids /\ In mentioned ids
    /\ (In mentioned (idForms (Some (js "7@lid")) ++ idForms None)
        \/ In (beforeAt mentioned) (idForms (Some (js "7@lid")) ++ idForms None)).
Proof.
  apply (blank_name_mentions_only_by_id (Some (js "   "))
           (mkMessage false (Some (js "hi")) (Some [js "7@c.us"]) false None)
           (Some (js "7@lid")) None).
  - vm_compute. reflexivity.
  - vm_compute. reflexivity.
Defined.

(** X9: priority and vocabulary: a text with urgency vocabulary and without
    low-urgency hedging is urgent whatever its type and addressee; a
    question is low only if it hedges and has neither urgency nor
    importance vocabulary. *)
Theorem priority_follows_vocabulary :
  forall (this : Analyzer) (text : jstr) (questionType : QuestionType)
         (message : Message) (myId myLid : option jstr) (isGroupChat : bool),
    let p := _classifyPriority this text questionType message myId myLid
                               isGroupChat in
    (test urgentWords (toLowerCase text) = true ->
     test lowWords (toLowerCase text) = false -> p = urgent)
    /\ (p = low ->
        test lowWords (toLowerCase text) = true
        /\ test urgentWords (toLowerCase text) = false
        /\ test highWords (toLowerCase text) = false).
Proof.
  intros this text ty message myId myLid g p. subst p.
  unfold _classifyPriority, priorityScore. cbv zeta.
  destruct (test urgentWords (toLowerCase text));
    destruct (test highWords (toLowerCase text));
    destruct (test lowWords (toLowerCase text));
    destruct (_isDirectedAtMe this message myId myLid g);
    destruct ty; vm_compute; split; intros; try discriminate; try reflexivity;
    repeat split; try reflexivity; try discriminate.
Qed.

Lemma upper_lowerChar (c : char) : upperChar (lowerChar c) = upperChar c.
Proof.
  unfold upperChar, lowerChar, isLower, isUpper.
  destruct (inRange 65 90 c) eqn:Eu.
  - apply inRange_spec in Eu.
    assert (H1 : inRange 97 122 (c + 32)%N = true) by (apply inRange_spec; lia).
    assert (H2 : inRange 97 122 c = false).
    { destruct (inRange 97 122 c) eqn:E; [|reflexivity].
      apply inRange_spec in E. lia. }
    rewrite H1, H2. lia.
  - reflexivity.
Qed.

Lemma isWord_lowerChar (c : char) : isWord (lowerChar c) = isWord c.
Proof.
  unfold lowerChar. destruct (isUpper c) eqn:Eu; [|reflexivity].
  unfold isWord. rewrite Eu. simpl.
  unfold isUpper in Eu. apply inRange_spec in Eu.
  assert (H1 : isLower (c + 32)%N = true) by (apply inRange_spec; lia).
  rewrite H1. rewrite orb_true_r. reflexivity.
Qed.

Lemma isWordAt_lower (o : option char) :
  isWordAt (option_map lowerChar o) = isWordAt o.
Proof. destruct o; simpl; [apply isWord_lowerChar|reflexivity]. Qed.

Lemma m_lower (r : re) :
  caseBlind r ->
  forall prev s k k',
    (forall p t, k' (option_map lowerChar p) (map lowerChar t) = k p t) ->
    m true r (option_map lowerChar prev) (map lowerChar s) k' = m true r prev s k.
Proof.
  induction 1 as [|c|p Hp|a b Ha IHa Hb IHb|a b Ha IHa Hb IHb|a Ha IHa| | |];
    intros prev s k k' Hk.
  - simpl. apply Hk.
  - destruct s as [|x s]; simpl; [reflexivity|].
    unfold chrMatch. rewrite upper_lowerChar.
    destruct (upperChar c =? upperChar x)%N; [apply (Hk (Some x))|reflexivity].
  - destruct s as [|x s]; simpl; [reflexivity|].
    rewrite Hp. destruct (p x); [apply (Hk (Some x))|reflexivity].
  - simpl. apply IHa. intros p t. apply IHb. exact Hk.
  - simpl. rewrite (IHa prev s k k' Hk), (IHb prev s k k' Hk). reflexivity.
  - cbn [m]. rewrite length_map.
    generalize (List.length s). intro n. revert prev s.
    induction n as [|n IHn]; intros prev s.
    + rewrite Hk. reflexivity.
    + rewrite Hk. f_equal. apply IHa. intros p t.
      rewrite !length_map. destruct (List.length t <? List.length s)%nat;
        [apply IHn|reflexivity].
  - simpl. rewrite isWordAt_lower.
    replace (isWordAt (hd_error (map lowerChar s))) with (isWordAt (hd_error s))
      by (destruct s; simpl; [reflexivity|symmetry; apply isWord_lowerChar]).
    destruct (xorb (isWordAt prev) (isWordAt (hd_error s))); [apply Hk|reflexivity].
  - destruct prev; simpl; [reflexivity|apply (Hk None)].
  - destruct s; simpl; [apply (Hk prev [])|reflexivity].
Qed.

Lemma searchFrom_lower (r : re) (s : jstr) :
  caseBlind r ->
  forall prev,
    searchFrom true r (option_map lowerChar prev) (map lowerChar s)
    = searchFrom true r prev s.
Proof.
  intro Hc. induction s as [|x s IH]; intro prev; cbn [searchFrom map].
  - pose proof (m_lower r Hc prev [] (fun _ _ => true) (fun _ _ => true)
                        (fun _ _ => eq_refl)) as H.
    cbn [map] in H. f_equal. exact H.
  - pose proof (m_lower r Hc prev (x :: s) (fun _ _ => true) (fun _ _ => true)
                        (fun _ _ => eq_refl)) as H.
    cbn [map] in H. f_equal; [exact H|apply (IH (Some x))].
Qed.

Lemma test_lower (p : regexp) (s : jstr) :
  ignoreCase p = true -> caseBlind (source p) ->
  test p (toLowerCase s) = test p s.
Proof.
  intros Hi Hc. unfold test, toLowerCase. rewrite Hi.
  apply (searchFrom_lower (source p) s Hc None).
Qed.

Lemma caseBlind_litJ (s : jstr) : caseBlind (litJ s).
Proof. induction s; simpl; repeat constructor; assumption. Qed.

Lemma namePatterns_caseBlind (name : option jstr) :
  Forall (fun p => ignoreCase p = true /\ caseBlind (source p))
         (namePatterns (setTrackName name)).
Proof.
  assert (Hn : forall s, ignoreCase (nameRegExp s) = true
                         /\ caseBlind (source (nameRegExp s))).
  { intro s. split; [reflexivity|]. simpl.
    repeat constructor. apply caseBlind_litJ. }
  simpl. unfold _buildNamePatterns. destruct name as [n|]; [|constructor].
  destruct n as [|c n]; [constructor|].
  destruct (trim (c :: n)); [constructor|].
  constructor; [apply Hn|]. apply Forall_forall. intros p Hp.
  apply in_map_iff in Hp. destruct Hp as [s [<- _]]. apply Hn.
Qed.

(** X10: mention detection does not depend on the letter case of the message:
    a message is a mention exactly when the same message with its body and
    quoted body in lower case is. *)
Theorem mention_ignores_case :
  forall (name : option jstr) (message : Message) (myId myLid : option jstr),
    isMention (setTrackName name) (lowerBodies message) myId myLid
    = isMention (setTrackName name) message myId myLid.
Proof.
  intros name message myId myLid.
  assert (Hany : forall s, _matchesAnyNamePattern (setTrackName name) (toLowerCase s)
                           = _matchesAnyNamePattern (setTrackName name) s).
  { intro s. unfold _matchesAnyNamePattern, testAny.
    pose proof (namePatterns_caseBlind name) as Hall.
    induction Hall as [|p ps [Hi Hc] _ IH]; [reflexivity|].
    simpl. rewrite (test_lower p s Hi Hc), IH. reflexivity. }
  assert (Hor : forall o, orStr (option_map toLowerCase o) [] = toLowerCase (orStr o [])).
  { intros [[|c s]|]; reflexivity. }
  assert (Htr : forall o, truthyStr (option_map toLowerCase o) = truthyStr o).
  { intros [[|c s]|]; reflexivity. }
  unfold isMention, lowerBodies. cbn [body mentionedIds hasQuotedMsg quotedBody].
  rewrite !Hor, !Hany, Htr. reflexivity.
Qed.

End AnalyzerMore.

(* ================================================================== *)
(** ** Further properties of the store *)
(* ================================================================== *)

Module StoreMore.
Import JS Analyzer Store StoreNotions AnalyzerFacts StoreFacts AnalyzerMore.
Local Open Scope string_scope.
Local Open Scope list_scope.

Lemma Forall2_map_right {A B : Type} (S : A -> B -> Prop) (g : B -> B)
      (l : list A) (l' : list B) :
  Forall2 S l l' -> (forall x y, S x y -> S x (g y)) -> Forall2 S l (map g l').
Proof.
  intros H Hg. induction H; simpl; constructor; auto.
Qed.

Lemma Forall2_impl_In {A B : Type} (S T : A -> B -> Prop) (l : list A) (l' : list B) :
  Forall2 S l l' -> (forall x y, In x l -> S x y -> T x y) -> Forall2 T l l'.
Proof.
  intros H. induction H; intro HT; constructor.
  - apply HT; [now left|assumption].
  - apply IHForall2. intros a b Ha. apply HT. now right.
Qed.

Lemma Forall2_refl_local {A : Type} (S : A -> A -> Prop) (l : list A) :
  (forall x, S x x) -> Forall2 S l l.
Proof. intro H. induction l; constructor; auto. Qed.

Lemma NoDup_map_injective {A B : Type} (f : A -> B) (l : list A) (x y : A) :
  NoDup (map f l) -> In x l -> In y l -> f x = f y -> x = y.
Proof.
  induction l as [|z l IH]; intros Hnd Hx Hy E; [contradiction|].
  simpl in Hnd. inversion Hnd as [|? ? Hnotin Hnd']; subst.
  destruct Hx as [->|Hx]; destruct Hy as [->|Hy].
  - reflexivity.
  - exfalso. apply Hnotin. rewrite E. now apply in_map.
  - exfalso. apply Hnotin. rewrite <- E. now apply in_map.
  - now apply IH.
Qed.

Section CheckFrame.

Variable a : AnswerCheck.
Variable now : Z.
Variable pend : list jstr.

Lemma checkOne_inv (db0 db : DB) (cid : jstr) (q : QuestionRow) :
  checkInv a pend db0 db -> In (id q) pend ->
  checkInv a pend db0 (checkOne a now cid q db).
Proof.
  intros [Hq [added [Hc Ha]]] Hin. unfold checkOne. cbv zeta.
  destruct ((_ <? 2000)%Z || _); [split; [exact Hq|exists added; tauto]|].
  set (sc := match analyzer a with Some _ => _ | None => _ end).
  destruct (Qle_bool (2 # 10) (confidence sc)) eqn:E2;
    [|split; [exact Hq|exists added; tauto]].
  set (row := mkCandidateRow _ _ _ _ _ _ _ _ _ _ _).
  assert (Hrow : recorded a pend row).
  { unfold recorded, row. simpl. repeat split; try assumption.
    now apply Qle_bool_iff. }
  assert (Hins : checkInv a pend db0 (insertCandidate row db)).
  { unfold insertCandidate.
    destruct (existsb _ (answer_candidates db));
      [split; [exact Hq|exists added; tauto]|].
    split; [exact Hq|]. exists (added ++ [row]). simpl. rewrite Hc, app_assoc.
    split; [reflexivity|]. apply Forall_app. split; [exact Ha|].
    constructor; [exact Hrow|constructor]. }
  destruct (Qle_bool (5 # 10) (confidence sc)); [|exact Hins].
  destruct Hins as [Hq' Hc']. split; [|exact Hc'].
  rewrite questions_updateQuestion. apply Forall2_map_right; [exact Hq'|].
  intros x y [Hid Hxy].
  destruct (jstr_eqb (id y) (id q)) eqn:Ey; [|split; assumption].
  apply jstr_eqb_eq in Ey. split; [exact Hid|]. right.
  split; [|reflexivity]. rewrite <- Hid, Ey. exact Hin.
Qed.

Lemma checkLoop_inv (newId : nat -> jstr) (db0 : DB) :
  forall pendingQs i db,
    checkInv a pend db0 db ->
    (forall q, In q pendingQs -> In (id q) pend) ->
    checkInv a pend db0 (checkLoop a now newId i pendingQs db).
Proof.
  induction pendingQs as [|q rest IH]; intros i db Hinv Hp; [exact Hinv|].
  simpl. apply IH.
  - apply checkOne_inv; [exact Hinv|]. apply Hp. now left.
  - intros q' Hq'. apply Hp. now right.
Qed.

End CheckFrame.

(** X11: the footprint of [checkForAnswers], the question ids being unique: it
    keeps the questions and their order; a question that is not open in the
    chat of the message is left as it is, and any other is left as it is or
    becomes answered; the candidates already recorded are kept, and each
    candidate it records belongs to the chat and to a question that was open
    in it, has a confidence of at least 0.2 and is accepted exactly when its
    confidence is at least 0.5. *)
Theorem check_for_answers_footprint :
  forall (a : AnswerCheck) (clock : Z) (newId : nat -> jstr) (db : DB),
    NoDup (map id (questions db)) ->
    let db' := checkForAnswers a clock newId db in
    Forall2 (fun q q' =>
               id q' = id q
               /\ (pendingIn a q = false -> q' = q)
               /\ (q' = q \/ status q' = answered))
            (questions db) (questions db')
    /\ exists added,
        answer_candidates db' = answer_candidates db ++ added
        /\ Forall (fun c =>
                     cand_chat_id c = chatId a
                     /\ 2 # 10 <= cand_confidence c
                     /\ is_accepted c = Qle_bool (5 # 10) (cand_confidence c)
                     /\ exists q, In q (questions db) /\ pendingIn a q = true
                                  /\ id q = question_id c)
                  added.
Proof.
  intros a clock newId db Hnd db'. subst db'.
  set (pendingQs := filter (pendingIn a) (questions db)).
  set (pend := map id pendingQs).
  assert (Hpend : forall x, In x pend ->
            exists q, In q (questions db) /\ pendingIn a q = true /\ id q = x).
  { intros x Hx. apply in_map_iff in Hx. destruct Hx as [q [E Hq]].
    apply filter_In in Hq. exists q. tauto. }
  assert (Hinv : checkInv a pend db (checkForAnswers a clock newId db)).
  { unfold checkForAnswers.
    assert (H0 : checkInv a pend db db).
    { split.
      - apply Forall2_refl_local. intro x. split; [reflexivity|now left].
      - exists []. rewrite app_nil_r. split; [reflexivity|constructor]. }
    destruct (negb (truthyStr (ac_body a))); [exact H0|].
    apply checkLoop_inv; [exact H0|].
    intros q Hq. apply in_map. exact Hq. }
  destruct Hinv as [Hq [added [Hc Ha]]]. split.
  - apply (Forall2_impl_In _ _ _ _ Hq). intros q q' Hin [Hid Ht].
    split; [exact Hid|]. split; [|tauto].
    intro Hnp. destruct Ht as [Ht|[Ht _]]; [exact Ht|].
    destruct (Hpend _ Ht) as [p [Hp [Hpp Hpid]]].
    rewrite (NoDup_map_injective id (questions db) p q Hnd Hp Hin Hpid) in Hpp.
    congruence.
  - exists added. split; [exact Hc|].
    apply Forall_impl with (2 := Ha). intros c (H1 & H2 & H3 & H4).
    repeat split; try assumption. apply Hpend. exact H2.
Qed.

Lemma check_for_answers_footprint_witness :
  exists added,
    answer_candidates (checkForAnswers (message "Bob" "yes it is done" 1060000) 0
                                       (fun _ => js "ac_1") db0)
    = answer_candidates db0 ++ added
    /\ Forall (fun c =>
                 cand_chat_id c = chatId (message "Bob" "yes it is done" 1060000)
                 /\ 2 # 10 <= cand_confidence c
                 /\ is_accepted c = Qle_bool (5 # 10) (cand_confidence c)
                 /\ exists q, In q (questions db0)
                              /\ pendingIn (message "Bob" "yes it is done" 1060000) q
                                 = true
                              /\ id q = question_id c)
              added.
Proof.
  apply (check_for_answers_footprint (message "Bob" "yes it is done" 1060000) 0
           (fun _ => js "ac_1") db0).
  vm_compute. repeat constructor. intros [].
Defined.

Lemma filter_map_commute {A : Type} (p : A -> bool) (h : A -> A) (l : list A) :
  (forall x, p (h x) = p x) -> filter p (map h l) = map h (filter p l).
Proof.
  intro H. induction l as [|x l IH]; simpl; [reflexivity|].
  rewrite H. destruct (p x); simpl; now rewrite IH.
Qed.

Lemma accept_eq (cid : jstr) (db : DB) :
  acceptAnswerCandidate cid db
  = match single (filter (fun c => jstr_eqb (cand_id c) cid)
                         (answer_candidates db)) with
    | None => db
    | Some c =>
        updateQuestion (question_id c) (markManuallyAccepted cid c)
          (mkDB (questions db)
                (map (acceptMark cid (question_id c)) (answer_candidates db)))
    end.
Proof.
  unfold acceptAnswerCandidate.
  destruct (single _) as [c|]; [|reflexivity].
  f_equal. f_equal. rewrite map_map. apply map_ext. intro x. unfold acceptMark.
  destruct (jstr_eqb (cand_id x) cid) eqn:E.
  - change (cand_id (setAccepted true x)) with (cand_id x). rewrite E. reflexivity.
  - rewrite E. reflexivity.
Qed.

Lemma acceptMark_twice (cid qc : jstr) (x : CandidateRow) :
  acceptMark cid qc (acceptMark cid qc x) = acceptMark cid qc x.
Proof.
  unfold acceptMark. destruct (jstr_eqb (cand_id x) cid) eqn:E.
  - change (cand_id (setAccepted true x)) with (cand_id x). rewrite E. reflexivity.
  - destruct (jstr_eqb (question_id x) qc) eqn:Eq.
    + change (cand_id (setAccepted false x)) with (cand_id x).
      change (question_id (setAccepted false x)) with (question_id x).
      rewrite E, Eq. reflexivity.
    + rewrite E, Eq. reflexivity.
Qed.

Lemma acceptMark_id (cid qc : jstr) (x : CandidateRow) :
  cand_id (acceptMark cid qc x) = cand_id x
  /\ question_id (acceptMark cid qc x) = question_id x.
Proof.
  unfold acceptMark. destruct (jstr_eqb (cand_id x) cid);
    [split; reflexivity|].
  destruct (jstr_eqb (question_id x) qc); split; reflexivity.
Qed.

(** X12: accepting a candidate twice is accepting it once; accepting an id that
    no candidate or more than one candidate carries changes nothing. *)
Theorem accept_is_idempotent :
  forall (candidateId : jstr) (db : DB),
    acceptAnswerCandidate candidateId (acceptAnswerCandidate candidateId db)
    = acceptAnswerCandidate candidateId db
    /\ (List.length (filter (fun c => jstr_eqb (cand_id c) candidateId)
                            (answer_candidates db)) <> 1%nat ->
        acceptAnswerCandidate candidateId db = db).
Proof.
  intros cid db. split.
  - rewrite (accept_eq cid db).
    destruct (filter (fun c => jstr_eqb (cand_id c) cid) (answer_candidates db))
      as [|c [|c' rest]] eqn:Ef; simpl single; cbv iota beta.
    + rewrite accept_eq, Ef. reflexivity.
    + assert (Hc : jstr_eqb (cand_id c) cid = true).
      { assert (Hin : In c (filter (fun c => jstr_eqb (cand_id c) cid)
                                   (answer_candidates db)))
          by (rewrite Ef; now left).
        apply filter_In in Hin. tauto. }
      rewrite accept_eq. unfold updateQuestion at 2. simpl answer_candidates.
      rewrite (filter_map_commute (fun c0 => jstr_eqb (cand_id c0) cid)
                                  (acceptMark cid (question_id c))).
      2:{ intro x. destruct (acceptMark_id cid (question_id c) x) as [-> _].
          reflexivity. }
      rewrite Ef. simpl map. simpl single. cbv iota beta.
      destruct (acceptMark_id cid (question_id c) c) as [_ Hq]. rewrite Hq.
      unfold updateQuestion. simpl. rewrite !map_map. f_equal.
      * apply map_ext. intro q.
        destruct (jstr_eqb (id q) (question_id c)) eqn:E; simpl; rewrite E;
          [|reflexivity].
        unfold acceptMark. rewrite Hc. reflexivity.
      * apply map_ext. intro x. apply acceptMark_twice.
    + rewrite accept_eq, Ef. reflexivity.
  - intro H. unfold acceptAnswerCandidate.
    destruct (filter (fun c => jstr_eqb (cand_id c) cid) (answer_candidates db))
      as [|c [|c' rest]]; simpl in *; try reflexivity. contradiction.
Qed.

Lemma updateQuestion_compose (qid : jstr) (f g : QuestionRow -> QuestionRow) (db : DB) :
  (forall q, id (g q) = id q) ->
  updateQuestion qid f (updateQuestion qid g db)
  = updateQuestion qid (fun q => f (g q)) db.
Proof.
  intro Hg. unfold updateQuestion. simpl. rewrite map_map. f_equal.
  apply map_ext. intro q. destruct (jstr_eqb (id q) qid) eqn:E.
  - rewrite Hg, E. reflexivity.
  - rewrite E. reflexivity.
Qed.

(** X13: reopening forgets how the question was resolved: reopening after a
    dismissal, after a manual resolution or after another reopening gives
    the same store as reopening alone. *)
Theorem reopen_absorbs_resolution :
  forall (questionId : jstr) (actor : option jstr) (now : Z) (db : DB),
    reopenQuestion questionId (dismissQuestion questionId actor now db)
    = reopenQuestion questionId db
    /\ reopenQuestion questionId (markQuestionAnswered questionId actor now db)
       = reopenQuestion questionId db
    /\ reopenQuestion questionId (reopenQuestion questionId db)
       = reopenQuestion questionId db.
Proof.
  intros qid actor now db.
  unfold reopenQuestion, dismissQuestion, markQuestionAnswered.
  repeat split; rewrite updateQuestion_compose; reflexivity.
Qed.

Lemma filter_map_fixed {A : Type} (p : A -> bool) (g : A -> A) (l : list A) :
  (forall x, In x l -> p (g x) = p x /\ (p x = true -> g x = x)) ->
  filter p (map g l) = filter p l.
Proof.
  induction l as [|x l IH]; intro H; [reflexivity|]. simpl.
  destruct (H x (or_introl eq_refl)) as [H1 H2]. rewrite H1.
  destruct (p x) eqn:E.
  - rewrite (H2 eq_refl). f_equal. apply IH. intros y Hy. apply H. now right.
  - apply IH. intros y Hy. apply H. now right.
Qed.

(** X14: accepting a candidate by hand is exclusive and local, the candidate
    ids being distinct: of the candidates of its question it alone is
    accepted afterwards, and the question is answered and refers to it;
    the accepted candidates of every other question and every other
    question are as they were. *)
Theorem accepting_is_exclusive_and_local :
  forall (db : DB) (c : CandidateRow) (other : jstr),
    NoDup (map cand_id (answer_candidates db)) ->
    In c (answer_candidates db) ->
    let db' := acceptAnswerCandidate (cand_id c) db in
    acceptedFor (question_id c) db' = [setAccepted true c]
    /\ (forall q', In q' (questions db') -> id q' = question_id c ->
                   status q' = answered /\ answer_id q' = Some (cand_id c)
                   /\ manually_resolved q' = true)
    /\ (other <> question_id c ->
        acceptedFor other db' = acceptedFor other db
        /\ filter (fun q => jstr_eqb (id q) other) (questions db')
           = filter (fun q => jstr_eqb (id q) other) (questions db)).
Proof.
  intros db c other Hnd Hin db'.
  destruct (manual_accept_exactly_one db c Hnd Hin) as [H1 H2].
  fold db' in H1, H2. split; [exact H1|].
  assert (Hsingle := filter_by_unique_id _ c Hnd Hin).
  assert (Hdb' : db' = updateQuestion (question_id c)
                         (markManuallyAccepted (cand_id c) c)
                         (mkDB (questions db)
                               (map (acceptMark (cand_id c) (question_id c))
                                    (answer_candidates db)))).
  { unfold db'. rewrite accept_eq, Hsingle. reflexivity. }
  split.
  - intros q' Hq' Hid. destruct (H2 q' Hq' Hid) as [A B].
    split; [exact A|]. split; [exact B|].
    rewrite Hdb', questions_updateQuestion in Hq'. cbn [questions] in Hq'.
    apply in_map_iff in Hq'. destruct Hq' as [q [E _]].
    destruct (jstr_eqb (id q) (question_id c)) eqn:Eq; subst q'; [reflexivity|].
    rewrite Hid, jstr_eqb_refl in Eq. discriminate.
  - intro Hother. rewrite Hdb'. split.
    + unfold acceptedFor, updateQuestion. cbn [answer_candidates].
      apply filter_map_fixed. intros x Hx. unfold acceptMark.
      destruct (jstr_eqb (cand_id x) (cand_id c)) eqn:E.
      * apply jstr_eqb_eq in E.
        assert (x = c) by (eapply NoDup_map_injective; eauto). subst x.
        cbn [setAccepted is_accepted question_id].
        rewrite (proj2 (jstr_eqb_neq _ _) (fun H => Hother (eq_sym H))).
        rewrite !andb_false_r. split; [reflexivity|discriminate].
      * destruct (jstr_eqb (question_id x) (question_id c)) eqn:Eq.
        -- apply jstr_eqb_eq in Eq. cbn [setAccepted is_accepted question_id].
           rewrite Eq, (proj2 (jstr_eqb_neq _ _) (fun H => Hother (eq_sym H))).
           rewrite !andb_false_r. split; [reflexivity|discriminate].
        -- split; reflexivity.
    + rewrite questions_updateQuestion. cbn [questions].
      apply filter_map_fixed. intros q Hq.
      destruct (jstr_eqb (id q) (question_id c)) eqn:Eq.
      * apply jstr_eqb_eq in Eq. cbn [markManuallyAccepted id].
        rewrite Eq, (proj2 (jstr_eqb_neq _ _) (fun H => Hother (eq_sym H))).
        split; [reflexivity|discriminate].
      * split; reflexivity.
Qed.


Lemma hd_error_In {A : Type} (l : list A) (x : A) : hd_error l = Some x -> In x l.
Proof. destruct l; simpl; [discriminate|]. intro H. left. congruence. Qed.

Lemma accepting_is_exclusive_and_local_witness :
  exists c, In c (answer_candidates db3)
            /\ acceptedFor (question_id c) (acceptAnswerCandidate (cand_id c) db3)
               = [setAccepted true c].
Proof.
  assert (Hnd : NoDup (map cand_id (answer_candidates db3))).
  { assert (H : map cand_id (answer_candidates db3) = [js "ac_1"; js "ac_2"])
      by (vm_compute; reflexivity).
    rewrite H. clear H. repeat constructor; simpl; intuition discriminate. }
  assert (Hc : exists c, hd_error (answer_candidates db3) = Some c).
  { vm_compute. eexists. reflexivity. }
  destruct Hc as [c Hc]. apply hd_error_In in Hc.
  exists c. split; [exact Hc|].
  exact (proj1 (accepting_is_exclusive_and_local db3 c [] Hnd Hc)).
Defined.

End StoreMore.

(* ================================================================== *)
(** ** Further properties of the classifier *)
(* ================================================================== *)

Module QueueMore.
Import JS Analyzer Store AIClassifier OnDemand AnalyzerFacts QueueFacts AnalyzerMore.
Local Open Scope string_scope.
Local Open Scope list_scope.
Local Open Scope Z_scope.

(** What a run of the retry loop leaves behind, whatever the service
    replies. *)
Lemma retryLoop_shape {M : Type} (env : nat -> Attempt) (messages : list M) :
  forall fuel attempt st now posted,
    let out := retryLoop env messages fuel attempt st now posted in
    (exists k, (k <= fuel)%nat /\ (fuel <> 0%nat -> k <> 0%nat)
                  /\ map fst (posts out) = map fst posted ++ seq attempt k)
    /\ apiCalls (stats (call_state out)) = apiCalls (stats st)
    /\ classified (stats (call_state out)) = classified (stats st)
    /\ (errors (stats (call_state out)) = errors (stats st)
        \/ (errors (stats (call_state out)) = S (errors (stats st))
            /\ results out = nulls messages))
    /\ queue (call_state out) = queue st
    /\ processing (call_state out) = processing st
    /\ batchTimer (call_state out) = batchTimer st
    /\ enabled (call_state out) = enabled st
    /\ batchSize (call_state out) = batchSize st
    /\ maxRetries (call_state out) = maxRetries st.
Proof.
  induction fuel as [|fuel IH]; intros attempt st now posted.
  - cbn [retryLoop]. cbv zeta. cbn [results posts call_state].
    split.
    { exists 0%nat. repeat split; try lia. simpl. now rewrite app_nil_r. }
    repeat split; auto.
  - cbn [retryLoop]. cbv zeta.
    assert (Hone : map fst (posted ++ [(attempt, now)])
                   = map fst posted ++ seq attempt 1).
    { rewrite map_app. reflexivity. }
    assert (Hstop : forall rs st1 now1,
               apiCalls (stats st1) = apiCalls (stats st) ->
               classified (stats st1) = classified (stats st) ->
               (errors (stats st1) = errors (stats st)
                \/ (errors (stats st1) = S (errors (stats st))
                    /\ rs = nulls messages)) ->
               queue st1 = queue st -> processing st1 = processing st ->
               batchTimer st1 = batchTimer st -> enabled st1 = enabled st ->
               batchSize st1 = batchSize st -> maxRetries st1 = maxRetries st ->
               let out := mkCallOutcome rs st1 now1 (posted ++ [(attempt, now)]) in
               (exists k, (k <= S fuel)%nat /\ (S fuel <> 0%nat -> k <> 0%nat)
                             /\ map fst (posts out) = map fst posted ++ seq attempt k)
               /\ apiCalls (stats (call_state out)) = apiCalls (stats st)
               /\ classified (stats (call_state out)) = classified (stats st)
               /\ (errors (stats (call_state out)) = errors (stats st)
                   \/ (errors (stats (call_state out)) = S (errors (stats st))
                       /\ results out = nulls messages))
               /\ queue (call_state out) = queue st
               /\ processing (call_state out) = processing st
               /\ batchTimer (call_state out) = batchTimer st
               /\ enabled (call_state out) = enabled st
               /\ batchSize (call_state out) = batchSize st
               /\ maxRetries (call_state out) = maxRetries st).
    { intros rs st1 now1 H2 H3 H4 H5 H6 H7 H8 H9 H10. cbv zeta.
      cbn [results posts call_state]. split.
      { exists 1%nat. repeat split; try lia. exact Hone. }
      repeat split; assumption. }
    assert (Hgo : forall st1 now1,
               apiCalls (stats st1) = apiCalls (stats st) ->
               classified (stats st1) = classified (stats st) ->
               errors (stats st1) = errors (stats st) ->
               queue st1 = queue st -> processing st1 = processing st ->
               batchTimer st1 = batchTimer st -> enabled st1 = enabled st ->
               batchSize st1 = batchSize st -> maxRetries st1 = maxRetries st ->
               let out := retryLoop env messages fuel (S attempt) st1 now1
                                    (posted ++ [(attempt, now)]) in
               (exists k, (k <= S fuel)%nat /\ (S fuel <> 0%nat -> k <> 0%nat)
                             /\ map fst (posts out) = map fst posted ++ seq attempt k)
               /\ apiCalls (stats (call_state out)) = apiCalls (stats st)
               /\ classified (stats (call_state out)) = classified (stats st)
               /\ (errors (stats (call_state out)) = errors (stats st)
                   \/ (errors (stats (call_state out)) = S (errors (stats st))
                       /\ results out = nulls messages))
               /\ queue (call_state out) = queue st
               /\ processing (call_state out) = processing st
               /\ batchTimer (call_state out) = batchTimer st
               /\ enabled (call_state out) = enabled st
               /\ batchSize (call_state out) = batchSize st
               /\ maxRetries (call_state out) = maxRetries st).
    { intros st1 now1 H2 H3 H4 H5 H6 H7 H8 H9 H10. cbv zeta.
      destruct (IH (S attempt) st1 now1 (posted ++ [(attempt, now)]))
        as ((k & Hk & _ & Hp) & I3 & I4 & I5 & I6 & I7 & I8 & I9 & I10 & I11).
      split.
      { exists (S k). repeat split; try lia.
        rewrite Hp, Hone, <- app_assoc. reflexivity. }
      rewrite I3, I4, I6, I7, I8, I9, I10, I11, H2, H3, H5, H6, H7, H8, H9, H10.
      repeat split; try reflexivity.
      destruct I5 as [I5|[I5 I5']]; [left|right; split]; congruence. }
    destruct (tryBody (withLastRequestTime st now) attempt messages
                      (reply (env attempt))) as [rs|b|b|].
    + apply Hstop; auto.
    + destruct (attempt <? _)%nat.
      * apply Hgo; reflexivity.
      * apply Hstop; auto.
    + destruct (attempt <? _)%nat.
      * apply Hgo; reflexivity.
      * apply Hstop; auto.
    + destruct (attempt <? _)%nat.
      * apply Hgo; reflexivity.
      * apply Hstop; auto.
Qed.

Lemma callAPI_off {M : Type} (env : nat -> Attempt) (messages : list M)
      (st : State) (now : Z) :
  enabled st = false \/ messages = [] ->
  _callAPI env messages st now = mkCallOutcome [] st now [].
Proof.
  intros [H| ->]; unfold _callAPI.
  - rewrite H. reflexivity.
  - rewrite orb_true_r. reflexivity.
Qed.

Lemma callAPI_cases {M : Type} (env : nat -> Attempt) (messages : list M)
      (st : State) (now : Z) :
  (enabled st = true /\ messages <> []
   /\ _callAPI env messages st now
      = retryLoop env messages (S (maxRetries st)) 0 (countApiCall st)
                  (_waitForRateLimit st now) [])
  \/ ((enabled st = false \/ messages = [])
      /\ _callAPI env messages st now = mkCallOutcome [] st now []).
Proof.
  destruct (enabled st) eqn:E.
  - destruct messages as [|m ms].
    + right. split; [now right|]. apply callAPI_off. now right.
    + left. split; [reflexivity|]. split; [discriminate|].
      apply callAPI_enabled; [exact E|discriminate].
  - right. split; [now left|]. apply callAPI_off. now left.
Qed.

(** X15: a call of the service posts at most [maxRetries + 1] times, the
    attempts numbered from 0; it counts as one API call however many
    attempts it makes, counts at most one error, and then has no result for
    any message; it posts nothing exactly when the classifier is disabled
    or there is no message; it leaves the queue, the in-flight flag and the
    batch timer alone. *)
Theorem call_posts_and_counters :
  forall (M : Type) (env : nat -> Attempt) (messages : list M) (st : State)
         (now : Z),
    let out := _callAPI env messages st now in
    (List.length (posts out) <= S (maxRetries st))%nat
    /\ map fst (posts out) = seq 0 (List.length (posts out))
    /\ (posts out = [] <-> enabled st = false \/ messages = [])
    /\ apiCalls (stats (call_state out))
       = (if enabled st && negb (List.length messages =? 0)%nat
          then S (apiCalls (stats st)) else apiCalls (stats st))
    /\ (errors (stats (call_state out)) = errors (stats st)
        \/ (errors (stats (call_state out)) = S (errors (stats st))
            /\ results out = map (fun _ => None) messages))
    /\ classified (stats (call_state out)) = classified (stats st)
    /\ queue (call_state out) = queue st
    /\ processing (call_state out) = processing st
    /\ batchTimer (call_state out) = batchTimer st.
Proof.
  intros M env messages st now out. subst out.
  destruct (callAPI_cases env messages st now) as [(He & Hm & ->)|(Hoff & ->)].
  - pose proof (retryLoop_shape env messages (S (maxRetries st)) 0 (countApiCall st)
                                (_waitForRateLimit st now) []) as H.
    cbv zeta in H.
    remember (retryLoop env messages (S (maxRetries st)) 0 (countApiCall st)
                        (_waitForRateLimit st now) []) as out.
    destruct H as ((k & Hk & Hk0 & Hp) & I3 & I4 & I5 & I6 & I7 & I8 & _).
    change (map fst [] ++ seq 0 k) with (seq 0 k) in Hp.
    assert (Hlen : List.length (posts out) = k).
    { rewrite <- (length_map fst), Hp. apply length_seq. }
    rewrite Hlen. split; [exact Hk|]. split; [exact Hp|]. split.
    { split.
      - intro H. rewrite H in Hlen. simpl in Hlen. exfalso. apply Hk0; congruence.
      - intros [H|H]; congruence. }
    split.
    { rewrite He. destruct messages; [congruence|]. simpl. exact I3. }
    split; [exact I5|]. repeat split; assumption.
  - cbn [posts results call_state List.length]. split; [lia|].
    split; [reflexivity|]. split; [tauto|]. split.
    { destruct Hoff as [H| ->]; [rewrite H; reflexivity|].
      simpl. rewrite andb_false_r. reflexivity. }
    split; [now left|]. repeat split.
Qed.

Lemma tryBody_Return_any {M : Type} (st st' : State) (a a' : nat)
      (messages : list M) (r : Reply) (rs : list (option AIResult)) :
  tryBody st a messages r = Return rs -> tryBody st' a' messages r = Return rs.
Proof.
  destruct r as [|code hint payload]; simpl; [discriminate|].
  destruct (code =? 429); [discriminate|].
  destruct (code =? 529); [discriminate|].
  destruct ((code <? 200) || (300 <=? code)); [discriminate|].
  destruct payload as [| | |[[|parsed]|]]; try discriminate; auto.
Qed.

Lemma tryBody_Return_delay {M : Type} (st st' : State) (a a' : nat)
      (messages : list M) (r : Reply) (rs : list (option AIResult)) :
  tryBody st a messages r = Return rs -> retryDelay st' a' r = None.
Proof.
  unfold retryDelay.
  destruct r as [|code hint payload]; simpl; [discriminate|].
  destruct (code =? 429); [discriminate|].
  destruct (code =? 529); [discriminate|].
  destruct ((code <? 200) || (300 <=? code)); [discriminate|].
  destruct payload as [| | |[[|parsed]|]]; try discriminate; auto.
Qed.

Lemma retryLoop_recovers {M : Type} (env : nat -> Attempt) (messages : list M)
      (st0 : State) :
  forall k fuel attempt st now posted rs,
    (k < fuel)%nat ->
    (attempt + k <= maxRetries st0)%nat ->
    maxRetries st = maxRetries st0 ->
    (forall n, (attempt <= n < attempt + k)%nat ->
               retryDelay st0 n (reply (env n)) <> None) ->
    tryBody st0 (attempt + k) messages (reply (env (attempt + k)%nat)) = Return rs ->
    let out := retryLoop env messages fuel attempt st now posted in
    results out = rs
    /\ List.length (posts out) = (List.length posted + S k)%nat
    /\ errors (stats (call_state out)) = errors (stats st).
Proof.
  induction k as [|k IH]; intros fuel attempt st now posted rs Hf Ha Hm Hretry Hret;
    (destruct fuel as [|fuel]; [lia|]); cbn [retryLoop]; cbv zeta.
  - rewrite Nat.add_0_r in Hret.
    rewrite (tryBody_Return_any st0 (withLastRequestTime st now) attempt attempt messages _ rs Hret).
    cbn [results posts call_state]. rewrite length_app. simpl. auto.
  - assert (Hlt : (attempt <? maxRetries (withLastRequestTime st now))%nat = true).
    { apply Nat.ltb_lt. simpl. lia. }
    assert (Hnot : forall rs', tryBody (withLastRequestTime st now) attempt messages
                                       (reply (env attempt)) <> Return rs').
    { intros rs' H. apply (Hretry attempt); [lia|].
      exact (tryBody_Return_delay _ st0 _ attempt _ _ _ H). }
    assert (Hgo : forall st1 now1,
               maxRetries st1 = maxRetries st0 ->
               errors (stats st1) = errors (stats st) ->
               let out := retryLoop env messages fuel (S attempt) st1 now1
                                    (posted ++ [(attempt, now)]) in
               results out = rs
               /\ List.length (posts out) = (List.length posted + S (S k))%nat
               /\ errors (stats (call_state out)) = errors (stats st)).
    { intros st1 now1 H1 H2. cbv zeta.
      destruct (IH fuel (S attempt) st1 now1 (posted ++ [(attempt, now)]) rs)
        as (R1 & R2 & R3); try lia; try assumption.
      - intros n Hn. apply Hretry. lia.
      - replace (S attempt + k)%nat with (attempt + S k)%nat by lia. exact Hret.
      - split; [exact R1|]. split; [|congruence].
        rewrite R2, length_app. simpl. lia. }
    destruct (tryBody (withLastRequestTime st now) attempt messages
                      (reply (env attempt))) as [rs'|b|b|] eqn:E.
    + exfalso. exact (Hnot rs' eq_refl).
    + rewrite Hlt. apply Hgo; simpl; auto.
    + rewrite Hlt. apply Hgo; simpl; auto.
    + rewrite Hlt. apply Hgo; simpl; auto.
Qed.

Lemma retryLoop_exhausts {M : Type} (env : nat -> Attempt) (messages : list M)
      (st0 : State) :
  forall fuel attempt st now posted,
    (attempt + fuel = S (maxRetries st0))%nat ->
    (fuel <> 0)%nat ->
    maxRetries st = maxRetries st0 ->
    (forall n, (attempt <= n <= maxRetries st0)%nat ->
               retryDelay st0 n (reply (env n)) <> None) ->
    let out := retryLoop env messages fuel attempt st now posted in
    results out = nulls messages
    /\ List.length (posts out) = (List.length posted + fuel)%nat
    /\ errors (stats (call_state out)) = S (errors (stats st)).
Proof.
  induction fuel as [|fuel IH]; intros attempt st now posted Hf Hne Hm Hretry;
    [congruence|]; cbn [retryLoop]; cbv zeta.
  assert (Hnot : forall rs', tryBody (withLastRequestTime st now) attempt messages
                                     (reply (env attempt)) <> Return rs').
  { intros rs' H. apply (Hretry attempt); [lia|].
    exact (tryBody_Return_delay _ st0 _ attempt _ _ _ H). }
  assert (Hstop : (attempt <? maxRetries (withLastRequestTime st now))%nat = false ->
                  let out := mkCallOutcome (nulls messages)
                               (countError (withLastRequestTime st now))
                               (now + latency (env attempt))
                               (posted ++ [(attempt, now)]) in
                  results out = nulls messages
                  /\ List.length (posts out) = (List.length posted + S fuel)%nat
                  /\ errors (stats (call_state out)) = S (errors (stats st))).
  { intro H. apply Nat.ltb_ge in H. simpl in H. cbv zeta.
    cbn [results posts call_state]. rewrite length_app. simpl.
    repeat split; lia. }
  assert (Hgo : forall st1 now1,
             (attempt <? maxRetries (withLastRequestTime st now))%nat = true ->
             maxRetries st1 = maxRetries st0 ->
             errors (stats st1) = errors (stats st) ->
             let out := retryLoop env messages fuel (S attempt) st1 now1
                                  (posted ++ [(attempt, now)]) in
             results out = nulls messages
             /\ List.length (posts out) = (List.length posted + S fuel)%nat
             /\ errors (stats (call_state out)) = S (errors (stats st))).
  { intros st1 now1 H H1 H2. apply Nat.ltb_lt in H. simpl in H. cbv zeta.
    destruct (IH (S attempt) st1 now1 (posted ++ [(attempt, now)]))
      as (R1 & R2 & R3); try lia; try assumption.
    - intros n Hn. apply Hretry. lia.
    - split; [exact R1|]. split; [|congruence].
      rewrite R2, length_app. simpl. lia. }
  destruct (tryBody (withLastRequestTime st now) attempt messages
                    (reply (env attempt))) as [rs'|b|b|] eqn:E.
  - exfalso. exact (Hnot rs' eq_refl).
  - destruct (attempt <? _)%nat eqn:L; [apply Hgo|apply Hstop]; simpl; auto.
  - destruct (attempt <? _)%nat eqn:L; [apply Hgo|apply Hstop]; simpl; auto.
  - destruct (attempt <? _)%nat eqn:L; [apply Hgo|apply Hstop]; simpl; auto.
Qed.

(** X16: a call retries every attempt that does not return, whatever made it
    fail, and returns what the first returning attempt returns, without
    counting an error, when that attempt is among the [maxRetries + 1]
    allowed; when none of them returns it has posted [maxRetries + 1] times,
    counts one error and has no result for any message. *)
Theorem retries_until_an_attempt_returns :
  forall (M : Type) (env : nat -> Attempt) (messages : list M) (st : State)
         (now : Z),
    enabled st = true ->
    messages <> [] ->
    let out := _callAPI env messages st now in
    (forall k rs,
        (k <= maxRetries st)%nat ->
        (forall n, (n < k)%nat -> retryDelay st n (reply (env n)) <> None) ->
        tryBody st k messages (reply (env k)) = Return rs ->
        results out = rs
        /\ List.length (posts out) = S k
        /\ errors (stats (call_state out)) = errors (stats st))
    /\ ((forall n, (n <= maxRetries st)%nat ->
                   retryDelay st n (reply (env n)) <> None) ->
        results out = map (fun _ => None) messages
        /\ List.length (posts out) = S (maxRetries st)
        /\ errors (stats (call_state out)) = S (errors (stats st))).
Proof.
  intros M env messages st now He Hm out. subst out.
  rewrite (callAPI_enabled env messages st now He Hm). split.
  - intros k rs Hk Hretry Hret.
    apply (retryLoop_recovers env messages st k (S (maxRetries st)) 0
             (countApiCall st) (_waitForRateLimit st now) [] rs); auto; try lia.
    intros n Hn. apply Hretry. lia.
  - intro Hretry.
    apply (retryLoop_exhausts env messages st (S (maxRetries st)) 0
             (countApiCall st) (_waitForRateLimit st now) []); auto.
    intros n Hn. apply Hretry. lia.
Qed.

Lemma retries_until_an_attempt_returns_witness :
  results (_callAPI hinted [jobA; jobB] (new true) 1000000)
  = map normalize [Some oneItem]
  /\ List.length (posts (_callAPI hinted [jobA; jobB] (new true) 1000000)) = 2%nat
  /\ errors (stats (call_state (_callAPI hinted [jobA; jobB] (new true) 1000000)))
     = errors (stats (new true)).
Proof.
  refine (proj1 (retries_until_an_attempt_returns Job hinted [jobA; jobB] (new true)
                   1000000 eq_refl _) 1%nat (map normalize [Some oneItem]) _ _ _).
  - discriminate.
  - simpl. lia.
  - intros n Hn. assert (n = 0%nat) as -> by lia. vm_compute. discriminate.
  - reflexivity.
Defined.

Lemma invocations_positional (env : nat -> Attempt) (batch : list Job)
      (st : State) (now : Z) :
  invocations (finishBatch env batch st now)
  = positional batch (results (_callAPI env batch st now)).
Proof.
  rewrite invocations_finishBatch, callBack_positional. reflexivity.
Qed.

Lemma positional_In (batch : list Job) :
  forall (rs : list (option AIResult)) (inv : Invocation),
    In inv (positional batch rs) ->
    exists j r, In j batch /\ job_id j = fst inv /\ onClassified j <> None
                /\ snd inv = Some r /\ In (Some r) rs.
Proof.
  induction batch as [|item batch IH]; intros rs inv H; [destruct H|].
  destruct rs as [|r rs]; [destruct H|]. cbn [positional] in H.
  assert (Hrec : In inv (positional batch rs) ->
                 exists j r0, In j (item :: batch) /\ job_id j = fst inv
                              /\ onClassified j <> None /\ snd inv = Some r0
                              /\ In (Some r0) (r :: rs)).
  { intro H'. destruct (IH rs inv H') as (j & r0 & A & B & C & D & E).
    exists j, r0. repeat split; auto; now right. }
  destruct r as [result|]; [|auto].
  destruct (onClassified item) as [cb|] eqn:Ecb; [|auto].
  destruct H as [<-|H]; [|auto].
  exists item, result. simpl. repeat split; auto. congruence.
Qed.

Lemma positional_ids (batch : list Job) :
  forall (rs : list (option AIResult)) (x : jstr),
    In x (map fst (positional batch rs)) -> In x (map job_id batch).
Proof.
  intros rs x H. apply in_map_iff in H. destruct H as [inv [<- H]].
  destruct (positional_In batch rs inv H) as (j & r & A & B & _).
  rewrite <- B. now apply in_map.
Qed.

Lemma positional_NoDup (batch : list Job) :
  forall rs : list (option AIResult),
    NoDup (map job_id batch) -> NoDup (map fst (positional batch rs)).
Proof.
  induction batch as [|item batch IH]; intros rs H; [constructor|].
  destruct rs as [|r rs]; [constructor|]. cbn [positional].
  inversion H as [|? ? Hnot Hrest]; subst.
  destruct r as [result|]; [|now apply IH].
  destruct (onClassified item); [|now apply IH].
  simpl. constructor; [|now apply IH].
  intro Hin. apply Hnot. exact (positional_ids batch rs _ Hin).
Qed.

(** X17: whatever the service replies, a completion callback is only ever
    called for a job of the batch that has one, with a result that is not
    [null] and is one of the results the call to the service returned; no
    more callbacks are called than the batch has jobs, and when the job ids
    are distinct no job is called back twice. *)
Theorem callbacks_only_for_jobs_with_results :
  forall (env : nat -> Attempt) (batch : list Job) (st : State) (now : Z),
    Forall (fun inv : Invocation =>
              exists j r, In j batch /\ job_id j = fst inv
                          /\ onClassified j <> None
                          /\ snd inv = Some r
                          /\ In (Some r) (results (_callAPI env batch st now)))
           (invocations (finishBatch env batch st now))
    /\ (List.length (invocations (finishBatch env batch st now))
        <= List.length batch)%nat
    /\ (NoDup (map job_id batch) ->
        NoDup (map fst (invocations (finishBatch env batch st now)))).
Proof.
  intros env batch st now. rewrite invocations_positional. split; [|split].
  - apply Forall_forall. intros inv H.
    exact (positional_In batch _ inv H).
  - generalize (results (_callAPI env batch st now)).
    induction batch as [|item batch IH]; intros rs; [simpl; lia|].
    destruct rs as [|r rs]; [simpl; lia|]. cbn [positional].
    specialize (IH rs).
    destruct r; [|simpl; lia]. destruct (onClassified item); simpl; lia.
  - apply positional_NoDup.
Qed.

Lemma nulls_length {M M' : Type} (m : list M) (m' : list M') :
  List.length m = List.length m' -> nulls m = nulls m'.
Proof.
  revert m'. induction m as [|x m IH]; intros [|x' m'] H; try discriminate;
    [reflexivity|]. simpl in *. f_equal. apply IH. lia.
Qed.

Lemma tryBody_messages {M M' : Type} (st : State) (a : nat) (m : list M)
      (m' : list M') (r : Reply) :
  List.length m = List.length m' -> tryBody st a m r = tryBody st a m' r.
Proof.
  intro H. destruct r as [|code hint payload]; simpl; [reflexivity|].
  destruct (code =? 429); [reflexivity|].
  destruct (code =? 529); [reflexivity|].
  destruct ((code <? 200) || (300 <=? code)); [reflexivity|].
  destruct payload as [| | |[[|parsed]|]]; try reflexivity.
  now rewrite (nulls_length m m' H).
Qed.

Lemma retryLoop_messages {M M' : Type} (env : nat -> Attempt) (m : list M)
      (m' : list M') :
  List.length m = List.length m' ->
  forall fuel attempt st now posted,
    retryLoop env m fuel attempt st now posted
    = retryLoop env m' fuel attempt st now posted.
Proof.
  intro H. induction fuel as [|fuel IH]; intros attempt st now posted;
    cbn [retryLoop]; cbv zeta; rewrite (nulls_length m m' H); [reflexivity|].
  rewrite (tryBody_messages _ _ m m' _ H).
  destruct (tryBody _ _ m' _); try reflexivity;
    destruct (attempt <? _)%nat; try reflexivity; apply IH.
Qed.

Lemma callAPI_messages {M M' : Type} (env : nat -> Attempt) (m : list M)
      (m' : list M') (st : State) (now : Z) :
  List.length m = List.length m' ->
  _callAPI env m st now = _callAPI env m' st now.
Proof.
  intro H. unfold _callAPI. rewrite H.
  destruct (negb (enabled st) || _); [reflexivity|].
  apply retryLoop_messages. exact H.
Qed.

Lemma positional_sameJobs (b b' : list Job) :
  sameJobs b b' ->
  forall rs : list (option AIResult), positional b rs = positional b' rs.
Proof.
  induction 1 as [|j j' b b' [Hid Hcb] _ IH]; intros rs; [reflexivity|].
  destruct rs as [|r rs]; [reflexivity|]. cbn [positional].
  rewrite (IH rs), Hid. destruct r; [|reflexivity].
  destruct (onClassified j) eqn:E, (onClassified j') eqn:E'; try reflexivity.
  - destruct Hcb as [_ Hcb]. discriminate (Hcb eq_refl).
  - destruct Hcb as [Hcb _]. discriminate (Hcb eq_refl).
Qed.

(** What the loop over the batch does to the instance. *)
Lemma callBack_state (batch : list Job) (rs : list (option AIResult)) :
  forall i st calls,
    let st' := fst (callBack batch i rs st calls) in
    (errors (stats st') = errors (stats st)
     /\ apiCalls (stats st') = apiCalls (stats st)
     /\ queue st' = queue st
     /\ lastRequestTime st' = lastRequestTime st
     /\ rateLimitDelayMs st' = rateLimitDelayMs st)
    /\ (classified (stats st) <= classified (stats st')
        <= classified (stats st) + List.length (positional batch (skipn i rs)))%nat
    /\ ((forall j cb x r, In j batch -> onClassified j = Some cb -> cb x r = Threw) ->
        classified (stats st') = classified (stats st))
    /\ ((forall j cb x r, In j batch -> onClassified j = Some cb -> cb x r = Returned) ->
        classified (stats st')
        = (classified (stats st) + List.length (positional batch (skipn i rs)))%nat).
Proof.
  induction batch as [|item batch IH]; intros i st calls; cbv zeta.
  - simpl. repeat split; lia.
  - cbn [callBack]. rewrite nth_error_skipn.
    assert (Hin : forall (P : Job -> Prop),
               (forall j, In j (item :: batch) -> P j) ->
               forall j, In j batch -> P j).
    { intros P H j Hj. apply H. now right. }
    destruct (skipn i rs) as [|r rest] eqn:Es.
    + cbn [hd_error positional].
      destruct (IH (S i) st calls) as (A & B & C & D).
      rewrite skipn_S_tl, Es in B, D. cbn [tl] in B, D.
      assert (Hnil : positional batch (@nil (option AIResult)) = []).
      { destruct batch; reflexivity. }
      rewrite Hnil in B, D.
      split; [exact A|]. split; [exact B|]. split.
      * intro H. apply C. intros j cb x r Hj. apply H. now right.
      * intro H. apply D. intros j cb x r Hj. apply H. now right.
    + cbn [hd_error positional].
      destruct r as [result|].
      * destruct (onClassified item) as [cb|] eqn:Ecb.
        -- destruct (cb (job_id item) result) eqn:Eout.
           ++ destruct (IH (S i) (countClassified st)
                           (calls ++ [(job_id item, Some result)]))
                as (A & B & C & D).
              rewrite skipn_S_tl, Es in B, D. cbn [tl] in B, D.
              simpl in A, B, C, D. cbn [List.length].
              split; [exact A|]. split; [lia|]. split.
              ** intro H. rewrite (H item cb (job_id item) result) in Eout;
                   [discriminate|now left|exact Ecb].
              ** intro H. rewrite D; [lia|].
                 intros j cb' x r Hj. apply H. now right.
           ++ destruct (IH (S i) st (calls ++ [(job_id item, Some result)]))
                as (A & B & C & D).
              rewrite skipn_S_tl, Es in B, D. cbn [tl] in B, D.
              cbn [List.length].
              split; [exact A|]. split; [lia|]. split.
              ** intro H. apply C. intros j cb' x r Hj. apply H. now right.
              ** intro H. rewrite (H item cb (job_id item) result) in Eout;
                   [discriminate|now left|exact Ecb].
        -- destruct (IH (S i) st calls) as (A & B & C & D).
           rewrite skipn_S_tl, Es in B, D. cbn [tl] in B, D.
           split; [exact A|]. split; [exact B|]. split.
           ** intro H. apply C. intros j cb x r Hj. apply H. now right.
           ** intro H. apply D. intros j cb x r Hj. apply H. now right.
      * destruct (IH (S i) st calls) as (A & B & C & D).
        rewrite skipn_S_tl, Es in B, D. cbn [tl] in B, D.
        split; [exact A|]. split; [exact B|]. split.
        -- intro H. apply C. intros j cb x r Hj. apply H. now right.
        -- intro H. apply D. intros j cb x r Hj. apply H. now right.
Qed.

Lemma sameJobs_length (b b' : list Job) :
  sameJobs b b' -> List.length b = List.length b'.
Proof. induction 1; simpl; congruence. Qed.

(** The loop over the batch when callbacks may reject with nothing: it
    calls back a prefix of the positions, counts at most one error and one
    [classified] at most per callback called. *)
Lemma callBackAll_shape (nullish : Job -> AIResult -> bool) (batch : list Job)
      (rs : list (option AIResult)) :
  forall i st calls,
    let out := callBackAll nullish batch i rs st calls in
    (exists pre rest,
        positional batch (skipn i rs) = pre ++ rest
        /\ snd out = calls ++ pre
        /\ (classified (stats st) <= classified (stats (fst out))
            <= classified (stats st) + List.length pre)%nat)
    /\ (errors (stats st) <= errors (stats (fst out)) <= S (errors (stats st)))%nat.
Proof.
  induction batch as [|item batch IH]; intros i st calls; cbv zeta.
  - simpl. split; [|lia]. exists [], []. simpl. rewrite app_nil_r.
    repeat split; try reflexivity; lia.
  - cbn [callBackAll]. rewrite nth_error_skipn.
    pose proof (skipn_S_tl rs i) as Htl.
    assert (Hnil : positional batch (@nil (option AIResult)) = []).
    { destruct batch; reflexivity. }
    destruct (skipn i rs) as [|r rest] eqn:Es; cbn [hd_error positional tl] in *.
    + destruct (IH (S i) st calls) as ((pre & suf & P1 & P2 & P3) & E).
      rewrite Htl, Hnil in P1. split; [|exact E].
      exists pre, suf. auto.
    + destruct r as [result|].
      * destruct (onClassified item) as [cb|] eqn:Ecb.
        -- destruct (cb (job_id item) result) eqn:Eout.
           ++ destruct (IH (S i) (countClassified st)
                           (calls ++ [(job_id item, Some result)]))
                as ((pre & suf & P1 & P2 & P3) & E).
              rewrite Htl in P1. simpl in P3, E. split; [|exact E].
              exists ((job_id item, Some result) :: pre), suf.
              rewrite P1, P2, <- app_assoc. cbn [List.length].
              repeat split; auto; lia.
           ++ destruct (nullish item result).
              ** cbn [fst snd]. split; [|simpl; lia].
                 exists [(job_id item, Some result)],
                        (positional batch rest).
                 simpl. repeat split; auto; lia.
              ** destruct (IH (S i) st (calls ++ [(job_id item, Some result)]))
                   as ((pre & suf & P1 & P2 & P3) & E).
                 rewrite Htl in P1. split; [|exact E].
                 exists ((job_id item, Some result) :: pre), suf.
                 rewrite P1, P2, <- app_assoc. cbn [List.length].
                 repeat split; auto; lia.
        -- destruct (IH (S i) st calls) as ((pre & suf & P1 & P2 & P3) & E).
           rewrite Htl in P1. split; [|exact E]. exists pre, suf. auto.
      * destruct (IH (S i) st calls) as ((pre & suf & P1 & P2 & P3) & E).
        rewrite Htl in P1. split; [|exact E]. exists pre, suf. auto.
Qed.

(** With no callback that rejects with nothing, the loop is [callBack]. *)
Lemma callBackAll_callBack (nullish : Job -> AIResult -> bool) :
  (forall j r, nullish j r = false) ->
  forall batch i rs st calls,
    callBackAll nullish batch i rs st calls = callBack batch i rs st calls.
Proof.
  intro Hn. induction batch as [|item batch IH]; intros i rs st calls;
    [reflexivity|].
  cbn [callBackAll callBack].
  destruct (nth_error rs i) as [[result|]|]; try apply IH.
  destruct (onClassified item) as [cb|]; try apply IH.
  rewrite Hn. destruct (cb (job_id item) result); apply IH.
Qed.

Lemma finishBatchAll_parts (nullish : Job -> AIResult -> bool) (took : Z)
      (env : nat -> Attempt) (batch : list Job) (st : State) (now : Z) :
  let out := _callAPI env batch st now in
  let back := callBackAll nullish batch 0 (results out) (call_state out) [] in
  batch_state (finishBatchAll nullish took env batch st now)
  = withProcessing (fst back) false
  /\ invocations (finishBatchAll nullish took env batch st now) = snd back
  /\ batch_posts (finishBatchAll nullish took env batch st now) = posts out.
Proof.
  cbv zeta. unfold finishBatchAll.
  destruct (callBackAll nullish batch 0 (results (_callAPI env batch st now))
                        (call_state (_callAPI env batch st now)) [])
    as [st' calls].
  simpl. auto.
Qed.

(** A callback that rejects with [null] makes the run count an error; one
    that throws an Error does not. *)
Example rejection_with_nothing_counts_an_error :
  errors (stats (batch_state (finishBatchAll (fun _ _ => true) 0 shortArray
                                             [jobThrows] (new true) 1000000)))
  = 1%nat
  /\ errors (stats (batch_state (finishBatchAll (fun _ _ => false) 0 shortArray
                                                [jobThrows] (new true) 1000000)))
     = 0%nat.
Proof. vm_compute. split; reflexivity. Qed.

Lemma finishBatch_parts (env : nat -> Attempt) (batch : list Job) (st : State)
      (now : Z) :
  let out := _callAPI env batch st now in
  let st' := fst (callBack batch 0 (results out) (call_state out) []) in
  batch_state (finishBatch env batch st now) = withProcessing st' false
  /\ batch_end (finishBatch env batch st now) = call_end out
  /\ reschedule (finishBatch env batch st now)
     = (if (0 <? List.length (queue st'))%nat
        then Some (Z.max 200 (rateLimitDelayMs st'
                              - (call_end out - lastRequestTime st')))
        else None).
Proof.
  cbv zeta. unfold finishBatch.
  destruct (callBack batch 0 (results (_callAPI env batch st now))
                     (call_state (_callAPI env batch st now)) []) as [st' calls].
  simpl. auto.
Qed.

(** X18: what a callback does stays with its job.  The model of
    [_processBatch] here lets the awaited callbacks take time and lets a
    callback reject with [null] or [undefined], which makes the handler of
    the callback error throw in turn, so that the batch counts one error and
    calls back no later job.  Whatever the callbacks do, two batches that
    differ only in what their callbacks do are posted at the same times,
    the jobs called back are the first of those with a result, each with its
    own result, at most one error is added to those of the call to the
    service, and [classified] grows by at most the number of callbacks
    called.  When no callback rejects with [null] or [undefined], both
    batches call back the same jobs with the same results and count the same
    errors, those of the call to the service: a callback that throws is not
    counted as an error and stops no later callback; [classified] counts
    the callbacks that returned: it is unchanged when all throw, and grows
    by the number of callbacks called when all return. *)
Theorem callback_failures_are_isolated :
  forall (nullish : Job -> AIResult -> bool) (took : Z) (env : nat -> Attempt)
         (batch batch' : list Job) (st : State) (now : Z),
    sameJobs batch batch' ->
    let call := _callAPI env batch st now in
    let out := finishBatchAll nullish took env batch st now in
    let out' := finishBatchAll nullish took env batch' st now in
    batch_posts out' = batch_posts out
    /\ processing (batch_state out) = false
    /\ (exists rest, positional batch (results call) = invocations out ++ rest)
    /\ (errors (stats (call_state call)) <= errors (stats (batch_state out))
        <= S (errors (stats (call_state call))))%nat
    /\ (classified (stats st) <= classified (stats (batch_state out))
        <= classified (stats st) + List.length (invocations out))%nat
    /\ ((forall j r, nullish j r = false) ->
        invocations out' = invocations out
        /\ invocations out = positional batch (results call)
        /\ errors (stats (batch_state out')) = errors (stats (batch_state out))
        /\ errors (stats (batch_state out)) = errors (stats (call_state call))
        /\ ((forall j cb x r,
                In j batch -> onClassified j = Some cb -> cb x r = Threw) ->
            classified (stats (batch_state out)) = classified (stats st))
        /\ ((forall j cb x r,
                In j batch -> onClassified j = Some cb -> cb x r = Returned) ->
            classified (stats (batch_state out))
            = (classified (stats st) + List.length (invocations out))%nat)
        /\ batch_state out = batch_state (finishBatch env batch st now)).
Proof.
  intros nullish took env batch batch' st now Hsame call out out'.
  subst call out out'.
  pose proof (sameJobs_length _ _ Hsame) as Hlen.
  destruct (finishBatchAll_parts nullish took env batch st now) as (S1 & I1 & P1).
  destruct (finishBatchAll_parts nullish took env batch' st now) as (S2 & I2 & P2).
  rewrite S1, S2, I1, I2, P1, P2.
  rewrite <- (callAPI_messages env batch batch' st now Hlen).
  set (o := _callAPI env batch st now).
  assert (Hc : classified (stats (call_state o)) = classified (stats st)).
  { destruct (callAPI_cases env batch st now) as [(_ & _ & Ho)|(_ & Ho)];
      unfold o; rewrite Ho; [|reflexivity].
    apply (retryLoop_shape env batch (S (maxRetries st)) 0 (countApiCall st)
                           (_waitForRateLimit st now) []). }
  destruct (callBackAll_shape nullish batch (results o) 0 (call_state o) [])
    as ((pre & suf & Q1 & Q2 & Q3) & E).
  cbn [skipn app] in Q1, Q2. rewrite Hc in Q3.
  split; [reflexivity|]. split; [reflexivity|]. split.
  { exists suf. rewrite Q2. exact Q1. }
  split; [exact E|]. split.
  { rewrite Q2. exact Q3. }
  intro Hn. rewrite !(callBackAll_callBack nullish Hn), !callBack_positional.
  cbn [skipn app].
  destruct (callBack_state batch (results o) 0 (call_state o) [])
    as ((A1 & _) & B & C & D).
  destruct (callBack_state batch' (results o) 0 (call_state o) [])
    as ((A1' & _) & _).
  cbn [skipn] in B, D. rewrite Hc in B, C, D.
  split; [symmetry; now apply positional_sameJobs|].
  split; [reflexivity|].
  simpl. rewrite A1, A1'.
  split; [reflexivity|]. split; [reflexivity|].
  split; [exact C|]. split; [exact D|].
  destruct (finishBatch_parts env batch st now) as (-> & _). reflexivity.
Qed.

Lemma callback_failures_are_isolated_witness :
  invocations (finishBatchAll (fun _ _ => false) 250 shortArray [jobThrows]
                              (new true) 1000000)
  = invocations (finishBatchAll (fun _ _ => false) 250 shortArray [jobA]
                                (new true) 1000000).
Proof.
  refine (proj1 (proj2 (proj2 (proj2 (proj2 (proj2
            (callback_failures_are_isolated (fun _ _ => false) 250 shortArray
               [jobA] [jobThrows] (new true) 1000000 _))))) _)).
  - repeat constructor; simpl; intuition discriminate.
  - reflexivity.
Defined.

Lemma takeBatch_keeps (st st1 : State) (d : option (list Job)) :
  takeBatch st = (st1, d) ->
  batchOf d ++ queue st1 = queue st
  /\ enabled st1 = enabled st /\ batchSize st1 = batchSize st
  /\ (List.length (batchOf d) <= batchSize st)%nat
  /\ (processing st = true -> d = None /\ processing st1 = true)
  /\ (d <> None -> processing st1 = true).
Proof.
  unfold takeBatch. destruct (processing st) eqn:P; simpl.
  - intro H. inversion H; subst. simpl.
    repeat split; auto; try lia; try congruence.
  - destruct (List.length (queue st) =? 0)%nat; intro H; inversion H; subst; simpl.
    + repeat split; auto; try lia; try congruence.
    + rewrite firstn_skipn. repeat split; auto; try congruence.
      rewrite length_firstn. lia.
Qed.

Lemma queueMessage_keeps (t : Z) (job : Job) (st st1 : State)
      (d : option (list Job)) :
  queueMessage t job st = (st1, d) ->
  batchOf d ++ queue st1
  = queue st ++ (if enabled st then if queueable job then [job] else [] else [])
  /\ enabled st1 = enabled st /\ batchSize st1 = batchSize st
  /\ (List.length (batchOf d) <= batchSize st)%nat
  /\ (processing st = true -> d = None /\ processing st1 = true)
  /\ (d <> None -> processing st1 = true).
Proof.
  rewrite queueMessage_eq. destruct (enabled st) eqn:E; simpl.
  2:{ intro H. inversion H; subst. simpl. rewrite app_nil_r.
      repeat split; auto; try lia; try congruence. }
  destruct (queueable job) eqn:Q; simpl.
  2:{ intro H. inversion H; subst. simpl. rewrite app_nil_r.
      repeat split; auto; try lia; try congruence. }
  destruct (batchSize st <=? List.length (queue st ++ [job]))%nat.
  - intro H. apply takeBatch_keeps in H. simpl in H. rewrite E in H. exact H.
  - intro H. inversion H; subst. simpl.
    repeat split; auto; try lia; try congruence.
Qed.

Lemma step_keeps (t : Z) (e : Event) (st st1 : State) (d : option (list Job)) :
  step t e st = Some (st1, d) ->
  batchOf d ++ queue st1 = queue st ++ accepted st [(t, e)]
  /\ enabled st1 = enabled st /\ batchSize st1 = batchSize st
  /\ (List.length (batchOf d) <= batchSize st)%nat
  /\ (processing st = true -> d = None /\ processing st1 = true)
  /\ (d <> None -> processing st1 = true).
Proof.
  destruct e as [job|]; simpl.
  - intro H. inversion H as [H']. apply queueMessage_keeps in H'.
    unfold accepted. simpl. rewrite app_nil_r. exact H'.
  - destruct (batchTimer st) as [due|]; [|discriminate].
    destruct (due <=? t); [|discriminate].
    intro H. inversion H as [H']. unfold batchTimerFired in H'.
    apply takeBatch_keeps in H'. simpl in H'.
    unfold accepted. simpl. destruct (enabled st); rewrite app_nil_r; exact H'.
Qed.

Lemma accepted_cons (st st1 : State) (te : Z * Event) (sched : list (Z * Event)) :
  enabled st1 = enabled st ->
  accepted st (te :: sched) = accepted st [te] ++ accepted st1 sched.
Proof.
  intro H. unfold accepted. rewrite H. destruct (enabled st); [|reflexivity].
  simpl. now rewrite app_nil_r.
Qed.

(** X19: queueing and dispatching neither lose, duplicate nor reorder jobs:
    after any run of [queueMessage] calls and timer expiries, the batches
    dispatched, in order, followed by the queue are the jobs queued before
    followed by the accepted jobs in arrival order.  No batch is longer than
    [batchSize], and while a batch is in flight no other is dispatched: the
    jobs wait in the queue. *)
Theorem jobs_are_dispatched_in_arrival_order :
  forall (sched : list (Z * Event)) (st st' : State) (log : list (Z * list Job)),
    run sched st = Some (st', log) ->
    List.concat (map snd log) ++ queue st' = queue st ++ accepted st sched
    /\ Forall (fun d => (List.length (snd d) <= batchSize st)%nat) log
    /\ (List.length log <= 1)%nat
    /\ (processing st = true -> log = [] /\ processing st' = true)
    /\ (log <> [] -> processing st' = true).
Proof.
  induction sched as [|[t e] sched IH]; intros st st' log H.
  - simpl in H. inversion H; subst. unfold accepted. simpl.
    destruct (enabled st'); rewrite app_nil_r;
      repeat split; auto; try lia; try congruence.
  - cbn [run] in H. destruct (step t e st) as [[st1 d]|] eqn:Es; [|discriminate].
    destruct (run sched st1) as [[st2 log2]|] eqn:Er; [|discriminate].
    inversion H; subst st2 log. clear H.
    destruct (step_keeps _ _ _ _ _ Es) as (K1 & K2 & K3 & K4 & K5 & K6).
    destruct (IH _ _ _ Er) as (R1 & R2 & R3 & R4 & R5).
    rewrite (accepted_cons st st1 (t, e) sched K2), app_assoc, <- K1,
      <- app_assoc, <- R1, app_assoc.
    rewrite K3 in R2.
    destruct d as [batch|]; simpl in *.
    + destruct (R4 (K6 ltac:(discriminate))) as [-> Hp]. simpl.
      rewrite !app_nil_r. split; [reflexivity|]. split.
      { constructor; [exact K4|constructor]. }
      split; [lia|]. split.
      { intro P. destruct (K5 P) as [? _]. discriminate. }
      intros _. exact Hp.
    + split; [reflexivity|]. split; [exact R2|]. split; [exact R3|]. split.
      { intro P. destruct (K5 P) as [_ P1]. exact (R4 P1). }
      exact R5.
Qed.

Lemma jobs_are_dispatched_in_arrival_order_witness :
  exists st' log,
    run (enqueueAll (nineJobs ++ [(1000900, tenthJob); (1001000, jobA)]))
        (new true) = Some (st', log)
    /\ List.concat (map snd log) ++ queue st'
       = queue (new true)
         ++ accepted (new true)
              (enqueueAll (nineJobs ++ [(1000900, tenthJob); (1001000, jobA)])).
Proof.
  destruct (run (enqueueAll (nineJobs ++ [(1000900, tenthJob); (1001000, jobA)]))
                (new true)) as [[st' log]|] eqn:E.
  - exists st', log. split; [reflexivity|].
    exact (proj1 (jobs_are_dispatched_in_arrival_order _ _ _ _ E)).
  - vm_compute in E. discriminate.
Defined.


(** X20: what classifying one message on demand returns is what the queue
    passes to the callback of a batch made of that one message, whatever the
    service replies: the same result, or no callback when it returns [null],
    after the same posts at the same times. *)
Theorem classify_one_agrees_with_the_queue :
  forall (M : Type) (env : nat -> Attempt) (m : M) (j : Job) (st : State)
         (now : Z),
    invocations (finishBatch env [j] st now)
    = match fst (classifyOne env m st now), onClassified j with
      | Some r, Some _ => [(job_id j, Some r)]
      | _, _ => []
      end
    /\ batch_posts (finishBatch env [j] st now)
       = posts (snd (classifyOne env m st now)).
Proof.
  intros M env m j st now.
  rewrite invocations_positional, batch_posts_finishBatch.
  rewrite (callAPI_messages env [j] [m] st now eq_refl).
  unfold classifyOne. destruct (enabled st) eqn:E; simpl negb; cbv iota.
  - cbn [fst snd].
    destruct (results (_callAPI env [m] st now)) as [|[r|] rs]; cbn [positional].
    + repeat split.
    + destruct (onClassified j); repeat split.
    + repeat split.
  - rewrite (callAPI_off env [m] st now (or_introl E)). simpl. repeat split.
Qed.

Lemma chunkLoop_acc {M : Type} (envs : nat -> nat -> Attempt) :
  forall fuel call (rest : list M) st now acc posted,
    chunkLoop envs fuel call rest st now acc posted
    = match chunkLoop envs fuel call rest st now [] [] with
      | Some out => Some (mkCallOutcome (acc ++ results out) (call_state out)
                                        (call_end out) (posted ++ posts out))
      | None => None
      end.
Proof.
  induction fuel as [|fuel IH]; intros call rest st now acc posted.
  - destruct rest; simpl; [now rewrite !app_nil_r|reflexivity].
  - destruct rest as [|m rest]; [simpl; now rewrite !app_nil_r|].
    cbn [chunkLoop]. cbv zeta.
    rewrite IH. symmetry. rewrite IH. symmetry.
    destruct (chunkLoop envs fuel (S call) _ _ _ [] []) as [out|]; [|reflexivity].
    cbn [results posts call_state call_end]. change (@nil (option AIResult) ++ ?x) with x.
    rewrite <- !app_assoc. reflexivity.
Qed.

Lemma callAPI_keeps {M : Type} (env : nat -> Attempt) (messages : list M)
      (st : State) (now : Z) :
  enabled (call_state (_callAPI env messages st now)) = enabled st
  /\ batchSize (call_state (_callAPI env messages st now)) = batchSize st
  /\ maxRetries (call_state (_callAPI env messages st now)) = maxRetries st.
Proof.
  destruct (callAPI_cases env messages st now) as [(_ & _ & ->)|(_ & ->)].
  - destruct (retryLoop_shape env messages (S (maxRetries st)) 0 (countApiCall st)
                              (_waitForRateLimit st now) [])
      as (_ & _ & _ & _ & _ & _ & _ & A & B & C).
    auto.
  - auto.
Qed.

Lemma callAPI_apiCalls {M : Type} (env : nat -> Attempt) (messages : list M)
      (st : State) (now : Z) :
  enabled st = true -> messages <> [] ->
  apiCalls (stats (call_state (_callAPI env messages st now)))
  = S (apiCalls (stats st)).
Proof.
  intros He Hm. rewrite (callAPI_enabled env messages st now He Hm).
  apply (retryLoop_shape env messages (S (maxRetries st)) 0 (countApiCall st)
                         (_waitForRateLimit st now) []).
Qed.

Lemma callAPI_all_degraded {M : Type} (env : nat -> Attempt) (messages : list M)
      (st : State) (now : Z) :
  enabled st = true -> messages <> [] ->
  (forall n, succeeds (reply (env n)) = false) ->
  results (_callAPI env messages st now) = nulls messages.
Proof.
  intros He Hm Hd. rewrite (callAPI_enabled env messages st now He Hm).
  now apply retryLoop_degraded.
Qed.

Lemma chunkLoop_runs {M : Type} (envs : nat -> nat -> Attempt) :
  forall fuel call (rest : list M) st now,
    enabled st = true ->
    (0 < batchSize st)%nat ->
    (List.length rest <= fuel)%nat ->
    exists out k,
      chunkLoop envs fuel call rest st now [] [] = Some out
      /\ apiCalls (stats (call_state out)) = (apiCalls (stats st) + k)%nat
      /\ (List.length rest <= k * batchSize st < List.length rest + batchSize st)%nat
      /\ ((forall c n, succeeds (reply (envs c n)) = false) ->
          results out = nulls rest).
Proof.
  induction fuel as [|fuel IH]; intros call rest st now He Hb Hf.
  - destruct rest; [|simpl in Hf; lia].
    exists (mkCallOutcome [] st now []), 0%nat. simpl.
    repeat split; auto; lia.
  - destruct rest as [|m rest].
    { exists (mkCallOutcome [] st now []), 0%nat. simpl.
      repeat split; auto; lia. }
    cbn [chunkLoop]. cbv zeta.
    set (chunk := firstn (batchSize st) (m :: rest)).
    set (o := _callAPI (envs call) chunk st now).
    destruct (callAPI_keeps (envs call) chunk st now) as (K1 & K2 & _).
    fold o in K1, K2.
    assert (Hchunk : chunk <> []).
    { unfold chunk. destruct (batchSize st); [lia|]. discriminate. }
    assert (Hlen : List.length (skipn (batchSize st) (m :: rest))
                   = (List.length (m :: rest) - batchSize st)%nat)
      by apply length_skipn.
    set (rest' := skipn (batchSize st) (m :: rest)) in *.
    destruct (IH (S call) rest' (call_state o)
                 (match rest' with
                  | [] => call_end o
                  | _ :: _ => _waitForRateLimit (call_state o) (call_end o)
                  end))
      as (out & k & E & A & B & D).
    { congruence. }
    { lia. }
    { rewrite Hlen. cbn [List.length] in Hf |- *. lia. }
    rewrite chunkLoop_acc, E.
    eexists. exists (S k). split; [reflexivity|].
    cbn [results call_state]. split.
    { rewrite A. unfold o. rewrite (callAPI_apiCalls _ _ _ _ He Hchunk). lia. }
    split.
    { rewrite K2, Hlen in B.
      assert (Hpos : (0 < List.length (m :: rest))%nat) by (simpl; lia).
      revert B Hpos. generalize (List.length (m :: rest)). intros n B Hpos.
      change (S k * batchSize st)%nat with (batchSize st + k * batchSize st)%nat.
      destruct (le_lt_dec (batchSize st) n) as [L|L]; [lia|].
      destruct k as [|k']; [simpl in *; lia|].
      change (S k' * batchSize st)%nat
        with (batchSize st + k' * batchSize st)%nat in *. lia. }
    intro Hd. rewrite (D Hd). unfold o.
    rewrite (callAPI_all_degraded _ _ _ _ He Hchunk (Hd call)).
    change (nulls chunk ++ nulls rest' = nulls (m :: rest)).
    unfold nulls, chunk, rest'. rewrite <- map_app, firstn_skipn. reflexivity.
Qed.

Lemma chunkLoop_stuck {M : Type} (envs : nat -> nat -> Attempt) :
  forall fuel call (rest : list M) st now acc posted,
    batchSize st = 0%nat -> rest <> [] ->
    chunkLoop envs fuel call rest st now acc posted = None.
Proof.
  induction fuel as [|fuel IH]; intros call rest st now acc posted Hb Hr;
    (destruct rest as [|m rest]; [congruence|]); [reflexivity|].
  cbn [chunkLoop]. cbv zeta. rewrite Hb. cbn [firstn skipn].
  apply IH; [|discriminate].
  destruct (callAPI_keeps (envs call) (@nil M) st now) as (_ & K & _).
  congruence.
Qed.

(** X21: with a positive [batchSize], [classifyBatch] returns, after one call
    of the service per chunk of [batchSize] messages (as many calls as it
    takes to cover the messages, and no more); when every call degrades
    there is one [null] per message.  With [batchSize] 0 and a message to
    classify its loop never ends. *)
Theorem classify_batch_calls_once_per_chunk :
  forall (M : Type) (envs : nat -> nat -> Attempt) (messages : list M)
         (st : State) (now : Z),
    enabled st = true ->
    ((0 < batchSize st)%nat ->
     exists out k,
       classifyBatch envs messages st now = Some out
       /\ apiCalls (stats (call_state out)) = (apiCalls (stats st) + k)%nat
       /\ (List.length messages <= k * batchSize st
           < List.length messages + batchSize st)%nat
       /\ ((forall c n, succeeds (reply (envs c n)) = false) ->
           results out = map (fun _ => None) messages))
    /\ (batchSize st = 0%nat -> messages <> [] ->
        forall fuel, chunkLoop envs fuel 0 messages st now [] [] = None).
Proof.
  intros M envs messages st now He. split.
  - intro Hb. unfold classifyBatch. rewrite He. simpl negb. cbv iota.
    apply chunkLoop_runs; auto.
  - intros Hb Hm fuel. now apply chunkLoop_stuck.
Qed.

Lemma classify_batch_calls_once_per_chunk_witness :
  exists out k,
    classifyBatch (fun _ => throttled) (map snd nineJobs ++ [tenthJob; jobA])
                  (new true) 1000000 = Some out
    /\ apiCalls (stats (call_state out)) = (apiCalls (stats (new true)) + k)%nat
    /\ (List.length (map snd nineJobs ++ [tenthJob; jobA])
        <= k * batchSize (new true)
        < List.length (map snd nineJobs ++ [tenthJob; jobA]) + batchSize (new true))%nat
    /\ ((forall c n, succeeds (reply ((fun _ : nat => throttled) c n)) = false) ->
        results out = map (fun _ => None) (map snd nineJobs ++ [tenthJob; jobA])).
Proof.
  apply (proj1 (classify_batch_calls_once_per_chunk Job (fun _ => throttled)
                  (map snd nineJobs ++ [tenthJob; jobA]) (new true) 1000000
                  eq_refl)).
  simpl. lia.
Defined.

Lemma chunkLoop_spaced {M : Type} (gap : nat -> Z) (st0 : State)
      (envs : nat -> nat -> Attempt) :
  (forall c, timely (envs c) /\ gapFits gap st0 (envs c)) ->
  forall fuel call (rest : list M) st now out,
    retryBaseDelayMs st = retryBaseDelayMs st0 ->
    gap 0%nat <= rateLimitDelayMs st ->
    chunkLoop envs fuel call rest st now [] [] = Some out ->
    spacedFrom gap (lastRequestTime st) (posts out).
Proof.
  intro Henv. induction fuel as [|fuel IH]; intros call rest st now out Hb Hg H.
  - destruct rest; [|discriminate]. inversion H; subst. exact I.
  - destruct rest as [|m rest]; [inversion H; subst; exact I|].
    cbn [chunkLoop] in H. cbv zeta in H. rewrite chunkLoop_acc in H.
    set (chunk := firstn (batchSize st) (m :: rest)) in *.
    set (o := _callAPI (envs call) chunk st now) in *.
    destruct (chunkLoop envs fuel (S call) _ (call_state o) _ [] [])
      as [out'|] eqn:E; [|discriminate].
    inversion H; subst out. cbn [posts app].
    destruct (callAPI_config (envs call) chunk st now) as [C1 C2]. fold o in C1, C2.
    destruct (Henv call) as [Ht Hf].
    apply (callAPI_spaced gap st0 (envs call) chunk st now (posts out')); auto.
    fold o. eapply IH; [| |exact E]; [congruence|lia].
Qed.

(** X22: [classifyBatch] keeps the rate limit between its chunks as the queue
    does between its batches: the first post of every chunk comes at least
    [rateLimitDelayMs] after the post before it and no post comes before
    the previous one; when no reply suggests a delay and [retryBaseDelayMs]
    is at least [rateLimitDelayMs], every post comes at least
    [rateLimitDelayMs] after the post before it. *)
Theorem classify_batch_posts_are_spaced :
  forall (M : Type) (envs : nat -> nat -> Attempt) (messages : list M)
         (st : State) (now : Z) (out : CallOutcome),
    (forall c, timely (envs c)) ->
    classifyBatch envs messages st now = Some out ->
    spacedFrom (fun n => if (n =? 0)%nat then rateLimitDelayMs st else 0)
               (lastRequestTime st) (posts out)
    /\ ((forall c, noHints (envs c)) ->
        rateLimitDelayMs st <= retryBaseDelayMs st ->
        spacedFrom (fun _ => rateLimitDelayMs st) (lastRequestTime st) (posts out)).
Proof.
  intros M envs messages st now out Htime H. unfold classifyBatch in H.
  destruct (enabled st); simpl in H.
  2:{ inversion H; subst. simpl. auto. }
  split.
  - eapply (chunkLoop_spaced _ st envs); [|reflexivity|simpl; lia|exact H].
    intro c. split; [apply Htime|].
    intros n b _. simpl. pose proof (Htime c n). lia.
  - intros Hno Hle.
    eapply (chunkLoop_spaced _ st envs); [|reflexivity|lia|exact H].
    intro c. split; [apply Htime|].
    intros n b Hd. rewrite (retryDelay_noHints st _ n b (Hno c) Hd).
    pose proof (expBackoff_covers st n Hle). pose proof (Htime c n). lia.
Qed.

Lemma classify_batch_posts_are_spaced_witness :
  exists out,
    classifyBatch (fun _ => hinted) (map snd nineJobs ++ [tenthJob; jobA])
                  (new true) 1000000 = Some out
    /\ spacedFrom (fun n => if (n =? 0)%nat then rateLimitDelayMs (new true) else 0)
                  (lastRequestTime (new true)) (posts out).
Proof.
  destruct (classifyBatch (fun _ => hinted) (map snd nineJobs ++ [tenthJob; jobA])
                          (new true) 1000000) as [out|] eqn:E.
  - exists out. split; [reflexivity|].
    refine (proj1 (classify_batch_posts_are_spaced Job (fun _ => hinted) _
                     (new true) 1000000 out _ E)).
    intros c [|n]; simpl; lia.
  - vm_compute in E. discriminate.
Defined.



End QueueMore.

(* ================================================================== *)
(** ** Properties of the tracking settings *)
(* ================================================================== *)

Module GroupFacts.
Import JS Analyzer Store GroupSettings AnalyzerFacts.
Local Open Scope string_scope.
Local Open Scope list_scope.













End GroupFacts.

(* ================================================================== *)
(** ** Properties of the feed and of new questions *)
(* ================================================================== *)

Module IntakeFacts.
Import JS Analyzer Store GroupSettings Intake AnalyzerFacts.
Local Open Scope string_scope.
Local Open Scope list_scope.

Lemma sameFeedEntry_key (e : FeedEntry) (r : FeedRow) :
  sameFeedEntry e r = true <-> feedKey r = feedKey (feedRowOf e).
Proof.
  unfold sameFeedEntry, feedKey, feedRowOf. simpl. split.
  - intro H. apply andb_prop in H. destruct H as [H H4].
    apply andb_prop in H. destruct H as [H H3].
    apply andb_prop in H. destruct H as [H1 H2].
    apply jstr_eqb_eq in H1, H2, H4. apply Z.eqb_eq in H3. congruence.
  - intro H. inversion H as [[H1 H2 H3 H4]].
    rewrite !jstr_eqb_refl, Z.eqb_refl. reflexivity.
Qed.

Lemma addToFeed_cases (admits : FeedRow -> bool) (e : FeedEntry)
      (feed : list FeedRow) :
  (In (feedKey (feedRowOf e)) (map feedKey feed)
   /\ _addToFeed admits e feed = feed)
  \/ (~ In (feedKey (feedRowOf e)) (map feedKey feed)
      /\ _addToFeed admits e feed
         = if admits (feedRowOf e) then feed ++ [feedRowOf e] else feed).
Proof.
  unfold _addToFeed.
  destruct (filter (sameFeedEntry e) feed) as [|r rest] eqn:F.
  - right. split; [|reflexivity]. intro H. apply in_map_iff in H.
    destruct H as [r [Hk Hin]].
    assert (In r (filter (sameFeedEntry e) feed)).
    { apply filter_In. split; [exact Hin|]. now apply sameFeedEntry_key. }
    rewrite F in H. destruct H.
  - left. split; [|reflexivity].
    assert (Hin : In r (filter (sameFeedEntry e) feed)) by (rewrite F; now left).
    apply filter_In in Hin. destruct Hin as [Hin Hs].
    apply sameFeedEntry_key in Hs. rewrite <- Hs. now apply in_map.
Qed.

(** X26: the activity feed never holds two entries for the same chat,
    sender, timestamp and body (its first 300 characters): [_addToFeed]
    appends at most its own row and leaves the feed as it is when such an
    entry is there, whatever the type of either, so adding an entry twice
    is adding it once and a second entry for the same message under another
    type is dropped. *)
Theorem feed_never_duplicates :
  forall (admits : FeedRow -> bool) (e e' : FeedEntry) (feed : list FeedRow),
    (_addToFeed admits e feed = feed
     \/ _addToFeed admits e feed = feed ++ [feedRowOf e])
    /\ (NoDup (map feedKey feed) -> NoDup (map feedKey (_addToFeed admits e feed)))
    /\ _addToFeed admits e (_addToFeed admits e feed) = _addToFeed admits e feed
    /\ (feedKey (feedRowOf e') = feedKey (feedRowOf e) ->
        In (feedRowOf e) (_addToFeed admits e feed) ->
        _addToFeed admits e' (_addToFeed admits e feed) = _addToFeed admits e feed)
    /\ (List.length (f_body (feedRowOf e)) <= 300)%nat.
Proof.
  intros admits e e' feed.
  assert (Hdrop : forall e2 f, In (feedKey (feedRowOf e2)) (map feedKey f) ->
                               _addToFeed admits e2 f = f).
  { intros e2 f H. destruct (addToFeed_cases admits e2 f) as [[_ E]|[N _]];
      [exact E|contradiction]. }
  split; [|split; [|split; [|split]]].
  - destruct (addToFeed_cases admits e feed) as [[_ ->]|[_ ->]]; auto.
    destruct (admits (feedRowOf e)); auto.
  - intro H. destruct (addToFeed_cases admits e feed) as [[_ ->]|[N ->]]; auto.
    destruct (admits (feedRowOf e)); auto.
    rewrite map_app. apply NoDup_app; [exact H|repeat constructor; intros []|].
    intros x Hx [<-|[]]. contradiction.
  - destruct (addToFeed_cases admits e feed) as [[I E]|[N E]]; rewrite E.
    + exact E.
    + destruct (admits (feedRowOf e)) eqn:A.
      * apply Hdrop. rewrite map_app. apply in_or_app. right. now left.
      * unfold _addToFeed in *. rewrite A in *.
        destruct (0 <? List.length (firstn 1 (filter (sameFeedEntry e) feed)))%nat;
          reflexivity.
  - intros Hk Hin. apply Hdrop. rewrite Hk. now apply in_map.
  - unfold feedRowOf. cbn [f_body]. unfold substring0. rewrite length_firstn. lia.
Qed.

Lemma insertQuestion_cases (row : QuestionRow) (d : DB) :
  answer_candidates (insertQuestion row d) = answer_candidates d
  /\ ((In (id row) (map id (questions d)) /\ insertQuestion row d = d)
      \/ (~ In (id row) (map id (questions d))
          /\ questions (insertQuestion row d) = questions d ++ [row])).
Proof.
  unfold insertQuestion.
  destruct (existsb (fun q => jstr_eqb (id q) (id row)) (questions d)) eqn:E.
  - split; [reflexivity|]. left. split; [|reflexivity].
    apply existsb_exists in E. destruct E as [q [Hin Hq]].
    apply jstr_eqb_eq in Hq. rewrite <- Hq. now apply in_map.
  - split; [reflexivity|]. right. split; [|reflexivity].
    intro H. apply in_map_iff in H. destruct H as [q [Hq Hin]].
    assert (existsb (fun q => jstr_eqb (id q) (id row)) (questions d) = true).
    { apply existsb_exists. exists q. split; [exact Hin|].
      rewrite Hq. apply jstr_eqb_refl. }
    congruence.
Qed.

(** X27: [addQuestion] records nothing, neither question nor feed entry, and
    returns [null] exactly when the chat is a group ([...@g.us]) whose
    [questions] setting is off; a direct chat is never skipped.  Otherwise
    it returns the new id and changes no row there was: with a fresh id the
    question is appended, open, with at most 500 characters of the body and
    no answer or dismissal recorded.  The settings and the answer
    candidates are never touched. *)
Theorem add_question_respects_group_setting :
  forall (admits : FeedRow -> bool) (newId : jstr) (n : NewQuestion) (w : World),
    let r := fst (addQuestion admits newId n w) in
    let w' := snd (addQuestion admits newId n w) in
    tracking w' = tracking w
    /\ answer_candidates (db w') = answer_candidates (db w)
    /\ (r = None <->
        endsWith (n_chatId n) (js "@g.us") = true
        /\ questions_on (getGroupSettings (n_chatId n) (tracking w)) = false)
    /\ (r = None -> w' = w)
    /\ (r <> None ->
        r = Some newId
        /\ (if existsb (fun q => jstr_eqb (id q) newId) (questions (db w))
            then questions (db w') = questions (db w)
            else exists row,
                questions (db w') = questions (db w) ++ [row]
                /\ id row = newId /\ status row = open
                /\ chat_id row = n_chatId n
                /\ body row = substring0 500 (orStr (n_body n) [])
                /\ (List.length (body row) <= 500)%nat
                /\ answered_by row = None /\ answer_id row = None
                /\ dismissed_flag row = false /\ manually_resolved row = false)).
Proof.
  intros admits newId n w r w'. subst r w'. unfold addQuestion.
  assert (Ht : truthyStr (Some (n_chatId n)) && endsWith (n_chatId n) (js "@g.us")
               = endsWith (n_chatId n) (js "@g.us")).
  { destruct (n_chatId n) as [|c s]; [|reflexivity]. reflexivity. }
  rewrite Ht.
  assert (Hadd :
    let w' := mkWorld (tracking w)
                (insertQuestion (questionRowOf newId n) (db w))
                (_addToFeed admits
                   (mkFeedEntry (js "question") (n_chatId n) (Some (n_chatName n))
                      (n_sender n) (Some (substring0 300 (orStr (n_body n) [])))
                      (n_timestamp n) (n_hasMedia n)
                      (Some (orStr (n_mediaType n) (js "chat"))))
                   (feed w)) in
    tracking w' = tracking w
    /\ answer_candidates (db w') = answer_candidates (db w)
    /\ (Some newId = Some newId
        /\ (if existsb (fun q => jstr_eqb (id q) newId) (questions (db w))
            then questions (db w') = questions (db w)
            else exists row,
                questions (db w') = questions (db w) ++ [row]
                /\ id row = newId /\ status row = open
                /\ chat_id row = n_chatId n
                /\ body row = substring0 500 (orStr (n_body n) [])
                /\ (List.length (body row) <= 500)%nat
                /\ answered_by row = None /\ answer_id row = None
                /\ dismissed_flag row = false /\ manually_resolved row = false))).
  { cbv zeta. cbn [tracking db]. split; [reflexivity|].
    split; [apply insertQuestion_cases|]. split; [reflexivity|].
    unfold insertQuestion. cbn [id questionRowOf].
    destruct (existsb (fun q => jstr_eqb (id q) newId) (questions (db w)));
      [reflexivity|].
    eexists. split; [reflexivity|].
    cbn [id status chat_id body answered_by answer_id dismissed_flag
         manually_resolved questionRowOf].
    repeat split. unfold substring0. rewrite length_firstn. lia. }
  cbv zeta in Hadd. destruct Hadd as (A1 & A2 & A3).
  destruct (endsWith (n_chatId n) (js "@g.us")) eqn:G;
    destruct (questions_on (getGroupSettings (n_chatId n) (tracking w))) eqn:Q;
    cbn [andb negb fst snd].
  - split; [exact A1|]. split; [exact A2|]. split.
    { split; [discriminate|intros [_ ?]; discriminate]. }
    split; [discriminate|]. intros _. exact A3.
  - split; [reflexivity|]. split; [reflexivity|]. split.
    { split; auto. }
    split; [reflexivity|]. intro H. congruence.
  - split; [exact A1|]. split; [exact A2|]. split.
    { split; [discriminate|intros [? _]; discriminate]. }
    split; [discriminate|]. intros _. exact A3.
  - split; [exact A1|]. split; [exact A2|]. split.
    { split; [discriminate|intros [? _]; discriminate]. }
    split; [discriminate|]. intros _. exact A3.
Qed.

End IntakeFacts.

(* ================================================================== *)
(** ** Properties of the life of a question *)
(* ================================================================== *)

Module LifecycleFacts.
Import JS Analyzer Store StoreNotions GroupSettings Intake Lifecycle.
Import AnalyzerFacts StoreFacts StoreMore IntakeFacts.
Local Open Scope string_scope.
Local Open Scope list_scope.

Lemma keeps_refl (q : QuestionRow) : keeps q q.
Proof. split; auto. Qed.

Lemma keeps_trans (a b c : QuestionRow) : keeps a b -> keeps b c -> keeps a c.
Proof. intros [H1 H2] [H3 H4]. split; [congruence|auto]. Qed.

Lemma Forall2_keeps_refl (l : list QuestionRow) : Forall2 keeps l l.
Proof. induction l; constructor; auto using keeps_refl. Qed.

Lemma Forall2_keeps_trans (l1 l2 l3 : list QuestionRow) :
  Forall2 keeps l1 l2 -> Forall2 keeps l2 l3 -> Forall2 keeps l1 l3.
Proof.
  intro H. revert l3. induction H; intros l3 H3; inversion H3; subst; constructor.
  - eapply keeps_trans; eauto.
  - auto.
Qed.

Lemma Forall2_keeps_ids (l l' : list QuestionRow) :
  Forall2 keeps l l' -> map id l' = map id l.
Proof.
  induction 1 as [|q q' l l' [H _] _ IH]; simpl; [reflexivity|].
  f_equal; [|exact IH]. change (a_id (asked q') = a_id (asked q)). now rewrite H.
Qed.

Lemma Forall2_keeps_consistent (l l' : list QuestionRow) :
  Forall2 keeps l l' -> Forall consistent l -> Forall consistent l'.
Proof.
  induction 1 as [|q q' l l' [_ H] _ IH]; intro Hc; [constructor|].
  inversion Hc; subst. constructor; auto.
Qed.

Lemma grows_refl (l : list QuestionRow) : grows l l.
Proof.
  exists l, []. rewrite app_nil_r.
  repeat split; auto using Forall2_keeps_refl.
Qed.

Lemma grows_trans (l1 l2 l3 : list QuestionRow) :
  grows l1 l2 -> grows l2 l3 -> grows l1 l3.
Proof.
  intros (k1 & a1 & E1 & K1 & C1 & N1) (k2 & a2 & E2 & K2 & C2 & N2). subst l2.
  apply Forall2_app_inv_l in K2. destruct K2 as (k2a & k2b & Ka & Kb & ->).
  exists k2a, (k2b ++ a2). split; [rewrite E2; now rewrite <- app_assoc|]. split.
  { eapply Forall2_keeps_trans; eauto. }
  split.
  { apply Forall_app. split; [|exact C2].
    eapply Forall2_keeps_consistent; eauto. }
  intro H. auto.
Qed.

Lemma grows_update (l : list QuestionRow) (qid : jstr)
      (f : QuestionRow -> QuestionRow) :
  (forall q, keeps q (f q)) ->
  grows l (map (fun q => if jstr_eqb (id q) qid then f q else q) l).
Proof.
  intro Hf.
  assert (K : Forall2 keeps l (map (fun q => if jstr_eqb (id q) qid then f q else q) l)).
  { induction l as [|q l IH]; simpl; constructor; [|exact IH].
    destruct (jstr_eqb (id q) qid); [apply Hf|apply keeps_refl]. }
  eexists. exists []. rewrite app_nil_r. split; [reflexivity|].
  split; [exact K|]. split; [constructor|].
  now rewrite (Forall2_keeps_ids _ _ K).
Qed.

Lemma grows_insert (l : list QuestionRow) (row : QuestionRow) :
  consistent row -> ~ In (id row) (map id l) -> grows l (l ++ [row]).
Proof.
  intros Hc Hn. exists l, [row]. split; [reflexivity|].
  split; [apply Forall2_keeps_refl|]. split; [repeat constructor; exact Hc|].
  intro H. rewrite map_app. apply NoDup_app; [exact H|repeat constructor; intros []|].
  intros x Hx [<-|[]]. contradiction.
Qed.

Lemma grows_updateQuestion (qid : jstr) (f : QuestionRow -> QuestionRow) (d : DB) :
  (forall q, keeps q (f q)) ->
  grows (questions d) (questions (updateQuestion qid f d)).
Proof. intro H. rewrite questions_updateQuestion. now apply grows_update. Qed.

Lemma questions_insertCandidate (row : CandidateRow) (d : DB) :
  questions (insertCandidate row d) = questions d.
Proof. unfold insertCandidate. destruct (existsb _ _); reflexivity. Qed.

Lemma keeps_auto a now conf sigs cid q : keeps q (markAutoAnswered a now conf sigs cid q).
Proof. split; [reflexivity|]. intros _. unfold consistent. simpl.
  repeat split; discriminate. Qed.

Lemma keeps_answered by_ now q :
  keeps q (mkQuestionRow (id q) (chat_id q) (chat_name q) (sender q) (body q)
      (timestamp q) (msg_id q) (directed_at_me q) answered
      (priority q) (question_type q) (keywords q) (category q) (has_media q)
      (media_type q) (Some (orStr by_ (js "Manual"))) (Some now) (Some 1)
      (Some (DText "manually resolved")) (answer_preview q) (answer_id q)
      (dismissed_flag q) (dismissed_by q) (dismissed_at q) true
      (classified_by q) (ai_confidence q) (ai_intent q) (ai_summary q)
      (ai_is_actionable q)).
Proof. split; [reflexivity|]. intros _. unfold consistent. simpl.
  repeat split; discriminate. Qed.

Lemma keeps_dismissed by_ now q :
  keeps q (mkQuestionRow (id q) (chat_id q) (chat_name q) (sender q) (body q)
      (timestamp q) (msg_id q) (directed_at_me q) dismissed
      (priority q) (question_type q) (keywords q) (category q) (has_media q)
      (media_type q) (answered_by q) (answered_at q) (answer_confidence q)
      (answer_reason q) (answer_preview q) (answer_id q) true
      (Some (orStr by_ (js "Admin"))) (Some now) (manually_resolved q)
      (classified_by q) (ai_confidence q) (ai_intent q) (ai_summary q)
      (ai_is_actionable q)).
Proof. split; [reflexivity|]. intros _. unfold consistent. simpl.
  repeat split; discriminate. Qed.

Lemma keeps_reopened q : keeps q (reopened q).
Proof. split; [reflexivity|]. intros _. unfold consistent. simpl.
  repeat split. Qed.

Lemma keeps_accepted cid c q : keeps q (markManuallyAccepted cid c q).
Proof. split; [reflexivity|]. intros _. unfold consistent. simpl.
  repeat split; discriminate. Qed.

Lemma keeps_ai r now q : keeps q (aiUpdate r now q).
Proof.
  split; [reflexivity|]. unfold consistent, aiUpdate. cbv zeta.
  destruct (negb (jstr_eqb (intent r) (js "question")) && Qle_bool (8 # 10) (ai_conf r));
    cbn.
  - intros _. repeat split; discriminate.
  - destruct (status q); auto.
Qed.

Lemma consistent_new newId n : consistent (questionRowOf newId n).
Proof. unfold consistent. simpl. repeat split. Qed.

Lemma consistent_promoted newId m r : consistent (promotedRowOf newId m r).
Proof. unfold consistent. simpl. repeat split. Qed.

Lemma grows_checkOne (a : AnswerCheck) (now : Z) (cid : jstr) (q : QuestionRow)
      (d : DB) :
  grows (questions d) (questions (checkOne a now cid q d)).
Proof.
  unfold checkOne. cbv zeta.
  destruct ((_ <? 2000)%Z || _); [apply grows_refl|].
  destruct (Qle_bool (2 # 10) _); [|apply grows_refl].
  destruct (Qle_bool (5 # 10) _).
  - match goal with
    | |- grows _ (questions (updateQuestion ?i ?f (insertCandidate ?row d))) =>
        rewrite <- (questions_insertCandidate row d) at 1
    end.
    apply grows_updateQuestion. intro. apply keeps_auto.
  - rewrite questions_insertCandidate. apply grows_refl.
Qed.

Lemma grows_checkLoop (a : AnswerCheck) (now : Z) (newId : nat -> jstr) :
  forall pendingQs i d,
    grows (questions d) (questions (checkLoop a now newId i pendingQs d)).
Proof.
  induction pendingQs as [|q rest IH]; intros i d; [apply grows_refl|].
  simpl. eapply grows_trans; [apply grows_checkOne|apply IH].
Qed.

Lemma grows_insertQuestion (row : QuestionRow) (d : DB) :
  consistent row -> grows (questions d) (questions (insertQuestion row d)).
Proof.
  intro H. destruct (insertQuestion_cases row d) as [_ [[_ ->]|[N ->]]];
    [apply grows_refl|now apply grows_insert].
Qed.

Lemma grows_perform (admits : FeedRow -> bool) (op : Op) (w : World) :
  grows (questions (db w)) (questions (db (perform admits op w))).
Proof.
  destruct op as [nid n|nid mrow r|a clock nid|qid by_ now|qid by_ now|qid|cid|qid aiResult now|s];
    cbn [perform withDb db].
  - unfold addQuestion. destruct (_ && _); cbn [snd db]; [apply grows_refl|].
    apply grows_insertQuestion. apply consistent_new.
  - cbn [promoteMessageToQuestion snd]. apply grows_insertQuestion.
    apply consistent_promoted.
  - unfold checkForAnswers. destruct (negb _); [apply grows_refl|].
    apply grows_checkLoop.
  - apply grows_updateQuestion. intro. apply keeps_answered.
  - apply grows_updateQuestion. intro. apply keeps_dismissed.
  - apply grows_updateQuestion. intro. apply keeps_reopened.
  - unfold acceptAnswerCandidate. destruct (single _); [|apply grows_refl].
    match goal with
    | |- grows _ (questions (updateQuestion ?i ?f (mkDB ?qs ?cs))) =>
        change (grows (questions (mkDB qs cs))
                      (questions (updateQuestion i f (mkDB qs cs))))
    end.
    apply grows_updateQuestion. intro. apply keeps_accepted.
  - destruct aiResult; [|apply grows_refl].
    apply grows_updateQuestion. intro. apply keeps_ai.
  - apply grows_refl.
Qed.

Lemma grows_performAll (admits : FeedRow -> bool) :
  forall (ops : list Op) (w : World),
    grows (questions (db w)) (questions (db (performAll admits ops w))).
Proof.
  induction ops as [|op ops IH]; intro w; [apply grows_refl|].
  simpl. eapply grows_trans; [apply grows_perform|apply IH].
Qed.

(** X28: whatever is done to the store, in any order, the columns of every
    question keep agreeing with its status: an open question carries no
    trace of an answer or dismissal, an answered one says when, how surely
    and why, a dismissed one is flagged and says by whom and when.  This
    holds of every question created on the way. *)
Theorem questions_stay_consistent :
  forall (admits : FeedRow -> bool) (ops : list Op) (w : World),
    Forall consistent (questions (db w)) ->
    Forall consistent (questions (db (performAll admits ops w))).
Proof.
  intros admits ops w H.
  destruct (grows_performAll admits ops w) as (kept & added & -> & K & C & _).
  apply Forall_app. split; [|exact C].
  eapply Forall2_keeps_consistent; eauto.
Qed.

Lemma questions_stay_consistent_witness :
  Forall consistent (questions (db (performAll (fun _ => true) aDay emptyWorld))).
Proof.
  apply (questions_stay_consistent (fun _ => true) aDay emptyWorld). constructor.
Defined.

(** X29: no operation of the store deletes a question, reorders the
    questions or rewrites what was asked (id, chat, sender, body,
    timestamp, message id, keywords, category, media): the questions there
    were come first, with these columns as they were, and distinct ids stay
    distinct. *)
Theorem what_was_asked_is_never_rewritten :
  forall (admits : FeedRow -> bool) (ops : list Op) (w : World),
    exists added,
      map asked (questions (db (performAll admits ops w)))
      = map asked (questions (db w)) ++ added
      /\ (NoDup (map id (questions (db w))) ->
          NoDup (map id (questions (db (performAll admits ops w))))).
Proof.
  intros admits ops w.
  destruct (grows_performAll admits ops w) as (kept & added & E & K & _ & N).
  exists (map asked added). split; [|exact N].
  rewrite E, map_app. f_equal. clear E N.
  induction K as [|q q' l l' [H _] _ IH]; simpl; [reflexivity|]. now rewrite H, IH.
Qed.

Lemma collects_refl (cs : list CandidateRow) : collects cs cs.
Proof. exists []. simpl. rewrite app_nil_r. auto. Qed.

Lemma collects_trans (c1 c2 c3 : list CandidateRow) :
  collects c1 c2 -> collects c2 c3 -> collects c1 c3.
Proof.
  intros (a1 & E1 & N1) (a2 & E2 & N2). exists (a1 ++ a2). split; [|auto].
  rewrite E2, E1, map_app, app_assoc. reflexivity.
Qed.

Lemma candidates_updateQuestion (qid : jstr) (f : QuestionRow -> QuestionRow) (d : DB) :
  answer_candidates (updateQuestion qid f d) = answer_candidates d.
Proof. reflexivity. Qed.

Lemma collects_insertCandidate (row : CandidateRow) (d : DB) :
  collects (answer_candidates d) (answer_candidates (insertCandidate row d)).
Proof.
  unfold insertCandidate.
  destruct (existsb (fun c => jstr_eqb (cand_id c) (cand_id row))
                    (answer_candidates d)) eqn:E; [apply collects_refl|].
  exists [row]. simpl. split; [now rewrite map_app|].
  intro H. rewrite map_app. apply NoDup_app; [exact H|repeat constructor; intros []|].
  intros x Hx [<-|[]]. apply in_map_iff in Hx. destruct Hx as [c [Hc Hin]].
  assert (existsb (fun c => jstr_eqb (cand_id c) (cand_id row))
                  (answer_candidates d) = true).
  { apply existsb_exists. exists c. split; [exact Hin|].
    rewrite Hc. apply jstr_eqb_refl. }
  congruence.
Qed.

Lemma collects_checkOne (a : AnswerCheck) (now : Z) (cid : jstr) (q : QuestionRow)
      (d : DB) :
  collects (answer_candidates d) (answer_candidates (checkOne a now cid q d)).
Proof.
  unfold checkOne. cbv zeta.
  destruct ((_ <? 2000)%Z || _); [apply collects_refl|].
  destruct (Qle_bool (2 # 10) _); [|apply collects_refl].
  destruct (Qle_bool (5 # 10) _).
  - rewrite candidates_updateQuestion. apply collects_insertCandidate.
  - apply collects_insertCandidate.
Qed.

Lemma collects_checkLoop (a : AnswerCheck) (now : Z) (newId : nat -> jstr) :
  forall pendingQs i d,
    collects (answer_candidates d)
             (answer_candidates (checkLoop a now newId i pendingQs d)).
Proof.
  induction pendingQs as [|q rest IH]; intros i d; [apply collects_refl|].
  simpl. eapply collects_trans; [apply collects_checkOne|apply IH].
Qed.

Lemma collects_remark (f : CandidateRow -> CandidateRow) (cs : list CandidateRow) :
  (forall c, proposed (f c) = proposed c) -> collects cs (map f cs).
Proof.
  intro H. exists []. simpl. rewrite app_nil_r.
  assert (E : map proposed (map f cs) = map proposed cs).
  { rewrite map_map. apply map_ext. exact H. }
  split; [exact E|].
  assert (Eid : map cand_id (map f cs) = map cand_id cs).
  { rewrite map_map. apply map_ext. intro c.
    change (cand_id (proposed (f c)) = cand_id (proposed c)). now rewrite H. }
  now rewrite Eid.
Qed.

Lemma collects_perform (admits : FeedRow -> bool) (op : Op) (w : World) :
  collects (answer_candidates (db w))
           (answer_candidates (db (perform admits op w))).
Proof.
  destruct op as [nid n|nid mrow r|a clock nid|qid by_ now|qid by_ now|qid|cid|qid aiResult now|s];
    cbn [perform withDb db]; try apply collects_refl.
  - unfold addQuestion. destruct (_ && _); cbn [snd db]; [apply collects_refl|].
    destruct (insertQuestion_cases (questionRowOf nid n) (db w)) as [-> _].
    apply collects_refl.
  - cbn [promoteMessageToQuestion snd].
    destruct (insertQuestion_cases (promotedRowOf nid mrow r) (db w)) as [-> _].
    apply collects_refl.
  - unfold checkForAnswers. destruct (negb _); [apply collects_refl|].
    apply collects_checkLoop.
  - rewrite accept_eq. destruct (single _) as [c|]; [|apply collects_refl].
    rewrite candidates_updateQuestion. cbn [answer_candidates].
    apply collects_remark. intro x. unfold acceptMark.
    destruct (jstr_eqb (cand_id x) cid); [reflexivity|].
    destruct (jstr_eqb (question_id x) (question_id c)); reflexivity.
  - destruct aiResult; apply collects_refl.
Qed.

(** X30: an answer candidate, once recorded, is never deleted, moved or
    edited: whatever is done to the store, the candidates there were come
    first and are as they were but for their acceptance, and distinct ids
    stay distinct. *)
Theorem candidates_are_kept :
  forall (admits : FeedRow -> bool) (ops : list Op) (w : World),
    exists added,
      map proposed (answer_candidates (db (performAll admits ops w)))
      = map proposed (answer_candidates (db w)) ++ map proposed added
      /\ (NoDup (map cand_id (answer_candidates (db w))) ->
          NoDup (map cand_id (answer_candidates (db (performAll admits ops w))))).
Proof.
  intros admits ops.
  change (forall w, collects (answer_candidates (db w))
                             (answer_candidates (db (performAll admits ops w)))).
  induction ops as [|op ops IH]; intro w; [apply collects_refl|].
  simpl. eapply collects_trans; [apply collects_perform|apply IH].
Qed.

End LifecycleFacts.
